(** * A SOCKS5 CONNECT proxy: the session state machine and the relay loop

    Shallow embedding of [proxy/socks5_proxy.py].  A session ([ProxyThread])
    talks to two sockets and to the session log.  The sockets and the
    readiness primitive are the environment: what they deliver is given by
    oracles (queues of arrivals, outcomes of writes, results of [select]),
    and what the session does to them is collected as a chronological list
    of events.  Python exceptions and a call that never returns are the two
    non-normal outcomes of a computation.  The calls to [logging] are left
    out: they touch neither the sockets nor the session log.  The listener
    ([main]) and the two log functions follow the session, each with the
    library calls it makes as its events. *)

From Stdlib Require Import ZArith List String Ascii Lia Bool DecimalString.
From Stdlib.Strings Require Import Byte.
Import ListNotations.
Local Open Scope Z_scope.

(** ** Bytes and the [struct] formats the proxy uses *)

Definition bytes := list byte.

Definition int_of_byte (b : byte) : Z := Z.of_N (Byte.to_N b).

Definition byte_of_int (z : Z) : byte :=
  match Byte.of_N (Z.to_N (Z.land z 255)) with
  | Some b => b
  | None => x00
  end.

(** Network byte order ("!"): the most significant byte first. *)
Fixpoint big_endian (width : nat) (z : Z) : bytes :=
  match width with
  | O => []
  | S k => byte_of_int (Z.shiftr z (8 * Z.of_nat k)) :: big_endian k z
  end.

(** One unsigned field of [struct.pack]; [None] is [struct.error]
    (the number does not fit the format). *)
Definition pack_unsigned (width : nat) (z : Z) : option bytes :=
  if (0 <=? z) && (z <? 2 ^ (8 * Z.of_nat width))
  then Some (big_endian width z)
  else None.

(** [struct.pack("!BB", a, b)] *)
Definition pack_BB (a b : Z) : option bytes :=
  match pack_unsigned 1 a, pack_unsigned 1 b with
  | Some x, Some y => Some (x ++ y)
  | _, _ => None
  end.

(** [struct.pack("!BBBBIH", a, b, c, d, i, h)] *)
Definition pack_BBBBIH (a b c d i h : Z) : option bytes :=
  match pack_unsigned 1 a, pack_unsigned 1 b, pack_unsigned 1 c,
        pack_unsigned 1 d, pack_unsigned 4 i, pack_unsigned 2 h with
  | Some x1, Some x2, Some x3, Some x4, Some x5, Some x6 =>
      Some (x1 ++ x2 ++ x3 ++ x4 ++ x5 ++ x6)
  | _, _, _, _, _, _ => None
  end.

(** [struct.unpack("!BB", buf)]: the buffer must hold exactly two bytes. *)
Definition unpack_BB (buf : bytes) : option (Z * Z) :=
  match buf with
  | [a; b] => Some (int_of_byte a, int_of_byte b)
  | _ => None
  end.

(** [struct.unpack("!BBBB", buf)] *)
Definition unpack_BBBB (buf : bytes) : option (Z * Z * Z * Z) :=
  match buf with
  | [a; b; c; d] => Some (int_of_byte a, int_of_byte b, int_of_byte c, int_of_byte d)
  | _ => None
  end.

(** [struct.unpack("!H", buf)[0]] *)
Definition unpack_H (buf : bytes) : option Z :=
  match buf with
  | [hi; lo] => Some (256 * int_of_byte hi + int_of_byte lo)
  | _ => None
  end.

(** Decimal text of a byte, for the dotted quad of [socket.inet_ntoa]. *)
Definition decimal (b : byte) : string :=
  NilZero.string_of_uint (N.to_uint (Byte.to_N b)).

(** [socket.inet_ntoa(packed)]: [None] is the [OSError] for a wrong length. *)
Definition inet_ntoa (packed : bytes) : option string :=
  match packed with
  | [a; b; c; d] =>
      Some (decimal a ++ "." ++ decimal b ++ "." ++ decimal c ++ "." ++ decimal d)%string
  | _ => None
  end.

(** Well-formed UTF-8, as the strict decoder of [bytes.decode('utf-8')]
    accepts it: shortest forms only, no surrogates, nothing above U+10FFFF. *)
Definition in_range (lo hi : N) (b : byte) : bool :=
  (lo <=? Byte.to_N b)%N && (Byte.to_N b <=? hi)%N.

Definition continuation (b : byte) : bool := in_range 128 191 b.

Fixpoint utf8_valid (bs : bytes) : bool :=
  match bs with
  | [] => true
  | b0 :: t =>
      if in_range 0 127 b0 then utf8_valid t
      else if in_range 194 223 b0 then
        match t with
        | b1 :: t1 => continuation b1 && utf8_valid t1
        | _ => false
        end
      else if in_range 224 239 b0 then
        match t with
        | b1 :: b2 :: t2 =>
            (if in_range 224 224 b0 then in_range 160 191 b1
             else if in_range 237 237 b0 then in_range 128 159 b1
             else continuation b1)
            && continuation b2 && utf8_valid t2
        | _ => false
        end
      else if in_range 240 244 b0 then
        match t with
        | b1 :: b2 :: b3 :: t3 =>
            (if in_range 240 240 b0 then in_range 144 191 b1
             else if in_range 244 244 b0 then in_range 128 143 b1
             else continuation b1)
            && continuation b2 && continuation b3 && utf8_valid t3
        | _ => false
        end
      else false
  end.

(** [raw.decode('utf-8')]: a Python [str] is represented by its UTF-8
    encoding, so decoding keeps the bytes and only checks them. *)
Definition decode_utf8 (raw : bytes) : option string :=
  if utf8_valid raw then Some (string_of_list_byte raw) else None.

(** ** Exceptions *)

(** The classes of [Exception] that reach the session, the log functions
    or the listener.  The code tells [ConnectionResetError] from
    everything else and, at [psycopg2.connect], [OperationalError] (below)
    from everything else. *)
Inductive exn_class :=
| ConnectionResetError
| BrokenPipeError
| ConnectionRefusedError
| TimeoutError
| gaierror
| OSError
| struct_error
| IndexError
| UnicodeDecodeError
| RuntimeError
| InterfaceError.

(** An exception object: its class and [str(e)]. *)
Record exn := Exception { class_of : exn_class; str : string }.

Definition is_ConnectionResetError (e : exn) : bool :=
  match class_of e with
  | ConnectionResetError => true
  | _ => false
  end.

(** ** Outcomes

    Python exceptions and a call that never returns are the two
    non-normal outcomes of a computation. *)

Inductive outcome (A : Type) :=
| Ret (a : A)      (* returned a *)
| Exc (e : exn)    (* raised e *)
| Hang.            (* blocked in a system call that never returns *)
Arguments Ret {A} a.
Arguments Exc {A} e.
Arguments Hang {A}.

(** ** Calls outside a session

    The listener and the two log functions touch neither the sockets of
    a session nor its counters.  Such a computation is its outcome
    together with the calls that returned, in order: a call that raises
    leaves no event. *)

Module Calls.

Definition t (E A : Type) : Type := (outcome A * list E)%type.

Definition ret {E A} (a : A) : t E A := (Ret a, []).
Definition raise {E A} (e : exn) : t E A := (Exc e, []).
Definition hang {E A} : t E A := (Hang, []).

(** A library call with the answer the environment has for it. *)
Definition call {E} (answer : option exn) (ev : E) : t E unit :=
  match answer with
  | None => (Ret tt, [ev])
  | Some e => (Exc e, [])
  end.

Definition bind {E A B} (m : t E A) (k : A -> t E B) : t E B :=
  let '(o, t1) := m in
  match o with
  | Ret a => let '(o2, t2) := k a in (o2, t1 ++ t2)
  | Exc e => (Exc e, t1)
  | Hang => (Hang, t1)
  end.

(** [try: m  except Exception as e: h e] *)
Definition try_except {E A} (m : t E A) (h : exn -> t E A) : t E A :=
  let '(o, t1) := m in
  match o with
  | Exc e => let '(o2, t2) := h e in (o2, t1 ++ t2)
  | _ => (o, t1)
  end.

(** [try: m  finally: f] *)
Definition try_finally {E A} (m : t E A) (f : t E unit) : t E A :=
  let '(o, t1) := m in
  match o with
  | Hang => (Hang, t1)
  | _ =>
      let '(o2, t2) := f in
      match o2 with
      | Ret _ => (o, t1 ++ t2)
      | Exc e => (Exc e, t1 ++ t2)
      | Hang => (Hang, t1 ++ t2)
      end
  end.

End Calls.

Declare Scope calls_scope.
Delimit Scope calls_scope with calls.
Notation "x <- m ;; k" := (Calls.bind m (fun x => k))
  (at level 61, m at next level, right associativity) : calls_scope.
Notation "m ;; k" := (Calls.bind m (fun _ => k))
  (at level 61, right associativity) : calls_scope.

(** ** The session log in the database

    What a call of [db_log_start] or [db_log_end] does with [psycopg2]:
    it opens a connection of its own, executes one statement in a
    cursor, commits and closes.  The text of the two statements is not
    interpreted; a statement is named after its Python variable.
    Closing a cursor or a connection does not fail. *)

Module Database.

(** A query parameter. *)
Inductive value :=
| Text (s : string)
| Integer (z : Z)
| Null.

Inductive statement :=
| sql           (* INSERT INTO proxy_logs (...) VALUES (%s, %s, %s, %s, NOW(), 'active') *)
| sql_update.   (* UPDATE proxy_logs SET ... WHERE session_id = %s *)

Inductive event :=
| Connect (dbname user password : option string) (host port : string)
                                              (* psycopg2.connect(...) returned conn *)
| Cursor                                      (* conn.cursor() returned cur *)
| Execute (query : statement) (vars : list value)   (* cur.execute(query, vars) returned *)
| CloseCursor                                 (* leaving the with block closes cur *)
| Commit                                      (* conn.commit() returned *)
| Close.                                      (* conn.close() *)

(** What [psycopg2.connect] does: it returns a connection, or raises
    [psycopg2.OperationalError], or raises something else. *)
Inductive connect_result :=
| Connected
| OperationalError (message : string)
| ConnectError (e : exn).

Record database := mkDatabase {
  environ : string -> option string;
  connect_answer : connect_result;
  cursor_result : option exn;
  execute_result : option exn;
  commit_result : option exn
}.

Inductive connection := conn.

(** [os.environ.get(key, default)] *)
Definition environ_get (db : database) (key default : string) : string :=
  match environ db key with
  | Some v => v
  | None => default
  end.

Definition get_db_connection (db : database) : Calls.t event (option connection) :=
  match connect_answer db with
  | Connected =>
      (Calls.call None
         (Connect (environ db "DB_NAME") (environ db "DB_USER") (environ db "DB_PASSWORD")
            (environ_get db "DB_HOST" "localhost") (environ_get db "DB_PORT" "5432")) ;;
       Calls.ret (Some conn))%calls
  | OperationalError _ => Calls.ret None
  | ConnectError e => Calls.raise e
  end.

(** [with conn.cursor() as cur: cur.execute(query, vars)] *)
Definition with_cursor (db : database) (query : statement) (vars : list value)
    : Calls.t event unit :=
  (Calls.call (cursor_result db) Cursor ;;
   Calls.try_finally
     (Calls.call (execute_result db) (Execute query vars))
     (Calls.call None CloseCursor))%calls.

(** The decimal text of an integer, as an f-string formats it. *)
Definition str_int (z : Z) : string := NilZero.string_of_int (Z.to_int z).

Definition db_log_start (db : database) (session_id : string) (client_addr : string * Z)
    (dest_addr : string) (dest_port : Z) : Calls.t event unit :=
  (c <- get_db_connection db ;;
   match c with
   | None => Calls.ret tt
   | Some _ =>
       Calls.try_finally
         (Calls.try_except
            (with_cursor db sql
               [Text session_id;
                Text (fst client_addr ++ ":" ++ str_int (snd client_addr));
                Text dest_addr; Integer dest_port] ;;
             Calls.call (commit_result db) Commit)
            (fun e => Calls.ret tt))
         (Calls.call None Close)
   end)%calls.

Definition optional_text (s : option string) : value :=
  match s with
  | Some s => Text s
  | None => Null
  end.

Definition db_log_end (db : database) (session_id : string) (bytes_sent bytes_received : Z)
    (status : string) (error_message : option string) : Calls.t event unit :=
  (c <- get_db_connection db ;;
   match c with
   | None => Calls.ret tt
   | Some _ =>
       Calls.try_finally
         (Calls.try_except
            (with_cursor db sql_update
               [Integer bytes_sent; Integer bytes_received; Text status;
                optional_text error_message;
                Integer bytes_sent; Integer bytes_received; Text session_id] ;;
             Calls.call (commit_result db) Commit)
            (fun e => Calls.ret tt))
         (Calls.call None Close)
   end)%calls.

Definition opens_or_closes (ev : event) : bool :=
  match ev with
  | Connect _ _ _ _ _ | Close => true
  | _ => false
  end.

(** A call that has opened a connection returns normally, and the last
    thing it did was to close the connection, once. *)
Definition released (c : Calls.t event unit) : Prop :=
  fst c = Ret tt
  /\ exists dbname user password host port body,
      snd c = Connect dbname user password host port :: body ++ [Close]
      /\ Forall (fun ev => opens_or_closes ev = false) body.

End Database.

(** ** Sockets, the environment, and events *)

Inductive socket := client_socket | dest_socket.

Definition sock_is (a b : socket) : bool :=
  match a, b with
  | client_socket, client_socket => true
  | dest_socket, dest_socket => true
  | _, _ => false
  end.

(** What a socket has in store for the successive [recv] calls: bytes that
    arrived together, the peer's orderly close, or a failure.  An empty
    queue means that nothing more ever arrives: [recv] blocks for good. *)
Inductive arrival :=
| Data (chunk : bytes)
| Eof
| RecvError (e : exn).

(** The observable actions of a session, in the order they happen.  A
    socket call that raises leaves no event.  [LogStart] and [LogEnd]
    are the calls of [db_log_start] and [db_log_end] with their
    arguments: they are recorded when the call is made, whether it then
    returns or raises. *)
Inductive event :=
| Recv (s : socket) (data : bytes)          (* s.recv(n) returned data *)
| Send (s : socket) (data : bytes)          (* s.sendall(data) returned *)
| Close (s : socket)                        (* s.close() *)
| Socket                                  (* socket.socket(...) returned dest_socket *)
| Connect (addr : string) (port : Z)      (* dest_socket.connect(...) returned *)
| LogStart (sid : string) (client : string * Z) (dest_addr : string) (dest_port : Z)
                                          (* db_log_start(sid, client, ...) was called *)
| LogEnd (sid : string) (sent received : Z) (status : string) (error_message : option string).
                                          (* db_log_end(sid, sent, ...) was called *)

(** What a socket does with one [sendall]: it takes all the bytes, it
    fails, or it never returns (the peer has stopped reading and the
    buffers are full). *)
Inductive write_answer :=
| Written
| WriteError (e : exn)
| WriteBlocks.

(** The mutable part of the world of one session: the two sockets'
    arrival queues, the answers to the successive [sendall] calls on each
    (an exhausted list: every further write succeeds), and the two local
    counters of [relay_data], which outlive an exception raised inside
    its loop. *)
Record state := mkState {
  client_in : list arrival;
  client_out : list write_answer;
  dest_in : list arrival;
  dest_out : list write_answer;
  bytes_sent : Z;
  bytes_received : Z
}.

(** The fixed part: the thread's attributes, the oracles for the
    destination and for [select.select], and the database as each of the
    three log calls of [run] finds it: [db_log_start], [db_log_end] with
    status 'closed', and [db_log_end] with status 'error'. *)
Record environment := mkEnv {
  session_id : string;
  client_address : string * Z;
  socket_result : option exn;
  connect_result : string -> Z -> option exn;
  select_results : list (list socket);
  database_at_start : Database.database;
  database_at_end : Database.database;
  database_at_error : Database.database
}.

(** ** Computations *)

Definition M (A : Type) : Type := state -> outcome A * state * list event.

Definition ret {A} (a : A) : M A := fun s => (Ret a, s, []).
Definition raise {A} (e : exn) : M A := fun s => (Exc e, s, []).
Definition hang {A} : M A := fun s => (Hang, s, []).
Definition emit (ev : event) : M unit := fun s => (Ret tt, s, [ev]).

Definition bind {A B} (m : M A) (k : A -> M B) : M B := fun s =>
  let '(o, s1, t1) := m s in
  match o with
  | Ret a => let '(o2, s2, t2) := k a s1 in (o2, s2, t1 ++ t2)
  | Exc e => (Exc e, s1, t1)
  | Hang => (Hang, s1, t1)
  end.

Declare Scope py_scope.
Delimit Scope py_scope with py.
Notation "x <- m ;; k" := (bind m (fun x => k))
  (at level 61, m at next level, right associativity) : py_scope.
Notation "' pat <- m ;; k" := (bind m (fun x => match x with pat => k end))
  (at level 61, pat pattern, m at next level, right associativity) : py_scope.
Notation "m ;; k" := (bind m (fun _ => k))
  (at level 61, right associativity) : py_scope.
Local Open Scope py_scope.

(** [try: m  except Exception as e: h e] *)
Definition try_except {A} (m : M A) (h : exn -> M A) : M A := fun s =>
  let '(o, s1, t1) := m s in
  match o with
  | Exc e => let '(o2, s2, t2) := h e s1 in (o2, s2, t1 ++ t2)
  | _ => (o, s1, t1)
  end.

(** [try: m  finally: f].  A [return] or an exception in [m] runs [f] on
    the way out and then goes on, unless [f] itself fails. *)
Definition try_finally {A} (m : M A) (f : M unit) : M A := fun s =>
  let '(o, s1, t1) := m s in
  match o with
  | Hang => (Hang, s1, t1)
  | _ =>
      let '(o2, s2, t2) := f s1 in
      match o2 with
      | Ret _ => (o, s2, t1 ++ t2)
      | Exc e => (Exc e, s2, t1 ++ t2)
      | Hang => (Hang, s2, t1 ++ t2)
      end
  end.

(** An optional result of a library function whose failure is an exception. *)
Definition or_raise {A} (x : option A) (e : exn) : M A :=
  match x with
  | Some a => ret a
  | None => raise e
  end.

(** ** Socket operations *)

Definition incoming (s : socket) (w : state) : list arrival :=
  match s with
  | client_socket => client_in w
  | dest_socket => dest_in w
  end.

Definition set_incoming (s : socket) (q : list arrival) (w : state) : state :=
  match s with
  | client_socket =>
      mkState q (client_out w) (dest_in w) (dest_out w) (bytes_sent w) (bytes_received w)
  | dest_socket =>
      mkState (client_in w) (client_out w) q (dest_out w) (bytes_sent w) (bytes_received w)
  end.

Definition outgoing (s : socket) (w : state) : list write_answer :=
  match s with
  | client_socket => client_out w
  | dest_socket => dest_out w
  end.

Definition set_outgoing (s : socket) (q : list write_answer) (w : state) : state :=
  match s with
  | client_socket =>
      mkState (client_in w) q (dest_in w) (dest_out w) (bytes_sent w) (bytes_received w)
  | dest_socket =>
      mkState (client_in w) (client_out w) (dest_in w) q (bytes_sent w) (bytes_received w)
  end.

(** What [recv(bufsize)] does to an arrival queue.  At most [bufsize] bytes
    of the first chunk are returned and the rest of it stays for the next
    call; at the peer's close every call returns the empty string. *)
Definition recv_queue (bufsize : nat) (q : list arrival) : outcome bytes * list arrival :=
  match bufsize with
  | O => (Ret [], q)
  | S _ =>
      match q with
      | [] => (Hang, [])
      | Eof :: _ => (Ret [], q)
      | RecvError e :: q' => (Exc e, q')
      | Data chunk :: q' =>
          (Ret (firstn bufsize chunk),
           match skipn bufsize chunk with
           | [] => q'
           | rest => Data rest :: q'
           end)
      end
  end.

Definition recv (s : socket) (bufsize : nat) : M bytes := fun w =>
  let '(o, q) := recv_queue bufsize (incoming s w) in
  (o, set_incoming s q w,
   match o with
   | Ret data => [Recv s data]
   | _ => []
   end).

Definition sendall (s : socket) (data : bytes) : M unit := fun w =>
  match outgoing s w with
  | Written :: rest => (Ret tt, set_outgoing s rest w, [Send s data])
  | WriteError e :: rest => (Exc e, set_outgoing s rest w, [])
  | WriteBlocks :: rest => (Hang, set_outgoing s rest w, [])
  | [] => (Ret tt, w, [Send s data])
  end.

Definition close (s : socket) : M unit := emit (Close s).

Definition get {A} (field : state -> A) : M A := fun w => (Ret (field w), w, []).

Definition set_bytes_sent (n : Z) : M unit := fun w =>
  (Ret tt,
   mkState (client_in w) (client_out w) (dest_in w) (dest_out w) n (bytes_received w),
   []).

Definition set_bytes_received (n : Z) : M unit := fun w =>
  (Ret tt,
   mkState (client_in w) (client_out w) (dest_in w) (dest_out w) (bytes_sent w) n,
   []).

(** ** Configuration *)

Definition BUFFER_SIZE : nat := 4096.
Definition SOCKS_VERSION : Z := 5.

(** ** The session log

    Inside a session [db_log_start] and [db_log_end] are the database
    functions above, on the database that the call finds.  The database
    is outside the session: what the session's trace keeps of a call is
    the one event of handing the record over, with the arguments as
    passed; the call then ends as the database function does, that is,
    it returns, or raises what escaped from [get_db_connection]. *)

Definition log_call (record : event) (c : Calls.t Database.event unit) : M unit :=
  emit record ;;
  match fst c with
  | Ret _ => ret tt
  | Exc e => raise e
  | Hang => hang
  end.

Definition db_log_start (db : Database.database) (sid : string)
    (client_addr : string * Z) (dest_addr : string) (dest_port : Z) : M unit :=
  log_call (LogStart sid client_addr dest_addr dest_port)
    (Database.db_log_start db sid client_addr dest_addr dest_port).

Definition db_log_end (db : Database.database) (sid : string) (sent received : Z)
    (status : string) (error_message : option string) : M unit :=
  log_call (LogEnd sid sent received status error_message)
    (Database.db_log_end db sid sent received status error_message).

(** ** ProxyThread *)

Section ProxyThread.

Variable self : environment.

(** [socket.socket(socket.AF_INET, socket.SOCK_STREAM)] *)
Definition socket_socket : M socket :=
  match socket_result self with
  | None => emit Socket ;; ret dest_socket
  | Some e => raise e
  end.

(** [dest_socket.connect((dest_addr, dest_port))], name resolution included. *)
Definition connect (dest_addr : string) (dest_port : Z) : M unit :=
  match connect_result self dest_addr dest_port with
  | None => emit (Connect dest_addr dest_port)
  | Some e => raise e
  end.

Definition send_reply (rep_code : Z) : M unit :=
  reply <- or_raise (pack_BBBBIH SOCKS_VERSION rep_code 0 1 0 0)
             (Exception struct_error "ubyte format requires 0 <= number <= 255") ;;
  sendall client_socket reply.

Definition handle_greeting : M bool :=
  greeting <- recv client_socket 2 ;;
  '(version, nmethods) <- or_raise (unpack_BB greeting)
             (Exception struct_error "unpack requires a buffer of 2 bytes") ;;
  if negb (version =? SOCKS_VERSION) then
    ret false
  else
    recv client_socket (Z.to_nat nmethods) ;;
    response <- or_raise (pack_BB SOCKS_VERSION 0)
             (Exception struct_error "ubyte format requires 0 <= number <= 255") ;;
    sendall client_socket response ;;
    ret true.

(** The statements of [handle_request] that follow the address: the
    port, the outbound connection and the success reply. *)
Definition connect_destination (dest_addr : string) : M (option (socket * string * Z)) :=
  port_bytes <- recv client_socket 2 ;;
  dest_port <- or_raise (unpack_H port_bytes)
             (Exception struct_error "unpack requires a buffer of 2 bytes") ;;
  dest <- socket_socket ;;
  connect dest_addr dest_port ;;
  send_reply 0 ;;
  ret (Some (dest, dest_addr, dest_port)).

(** [None] stands for the triple [None, None, None]. *)
Definition handle_request : M (option (socket * string * Z)) :=
  try_except
    (header <- recv client_socket 4 ;;
     '(version, cmd, _, atyp) <- or_raise (unpack_BBBB header)
             (Exception struct_error "unpack requires a buffer of 4 bytes") ;;
     if negb (version =? SOCKS_VERSION) || negb (cmd =? 1) then
       send_reply 5 ;;
       ret None
     else if atyp =? 1 then
       addr_bytes <- recv client_socket 4 ;;
       dest_addr <- or_raise (inet_ntoa addr_bytes)
             (Exception OSError "packed IP wrong length for inet_ntoa") ;;
       connect_destination dest_addr
     else if atyp =? 3 then
       addr_len <- recv client_socket 1 ;;
       addr_len <- or_raise (option_map int_of_byte (nth_error addr_len 0))
             (Exception IndexError "index out of range") ;;
       addr_bytes <- recv client_socket (Z.to_nat addr_len) ;;
       dest_addr <- or_raise (decode_utf8 addr_bytes)
             (Exception UnicodeDecodeError "'utf-8' codec can't decode bytes") ;;
       connect_destination dest_addr
     else
       send_reply 8 ;;
       ret None)
    (fun e => send_reply 1 ;; ret None).

(** The body of [for sock in readable_sockets].  [Some] is the [return]
    inside the loop; [None] is the end of the list. *)
Fixpoint relay_for (dest : socket) (readable_sockets : list socket) : M (option (Z * Z)) :=
  match readable_sockets with
  | [] => ret None
  | sock :: rest =>
      data <- recv sock BUFFER_SIZE ;;
      match data with
      | [] =>
          sent <- get bytes_sent ;;
          received <- get bytes_received ;;
          ret (Some (sent, received))
      | _ =>
          (if sock_is sock client_socket then
             sendall dest data ;;
             n <- get bytes_sent ;;
             set_bytes_sent (n + Z.of_nat (List.length data))
           else
             sendall client_socket data ;;
             n <- get bytes_received ;;
             set_bytes_received (n + Z.of_nat (List.length data))) ;;
          relay_for dest rest
      end
  end.

(** [while True]: one round per result of [select.select]; when the
    oracle has no further result, [select] never returns. *)
Fixpoint relay_while (dest : socket) (ready : list (list socket)) : M (option (Z * Z)) :=
  match ready with
  | [] => hang
  | readable_sockets :: later =>
      r <- relay_for dest readable_sockets ;;
      match r with
      | Some counts => ret (Some counts)
      | None => relay_while dest later
      end
  end.

Definition relay_data (dest : socket) : M (Z * Z) :=
  set_bytes_sent 0 ;;
  set_bytes_received 0 ;;
  r <- try_finally
         (try_except
            (relay_while dest (select_results self))
            (fun e =>
               if is_ConnectionResetError e then ret None
               else raise e))
         (close dest) ;;
  match r with
  | Some counts => ret counts
  | None =>
      sent <- get bytes_sent ;;
      received <- get bytes_received ;;
      ret (sent, received)
  end.

Definition run : M unit :=
  try_finally
    (try_except
       (greeted <- handle_greeting ;;
        if negb greeted then ret tt
        else
          r <- handle_request ;;
          match r with
          | None => ret tt
          | Some (dest, dest_addr, dest_port) =>
              db_log_start (database_at_start self) (session_id self)
                (client_address self) dest_addr dest_port ;;
              '(sent, received) <- relay_data dest ;;
              db_log_end (database_at_end self) (session_id self) sent received
                "closed" None
          end)
       (fun e =>
          db_log_end (database_at_error self) (session_id self) 0 0 "error"
            (Some (str e))))
    (close client_socket).

End ProxyThread.

(** ** Reading a run *)

Definition result {A} (r : outcome A * state * list event) : outcome A := fst (fst r).
Definition final {A} (r : outcome A * state * list event) : state := snd (fst r).
Definition events {A} (r : outcome A * state * list event) : list event := snd r.

(** The number of bytes written to [target] in a trace: the sum of the
    lengths of the chunks of its [Send] events. *)
Fixpoint copied (target : socket) (tr : list event) : Z :=
  match tr with
  | [] => 0
  | Send s data :: tr' =>
      (if sock_is s target then Z.of_nat (List.length data) else 0) + copied target tr'
  | _ :: tr' => copied target tr'
  end.

Definition count (p : event -> bool) (tr : list event) : nat :=
  List.length (filter p tr).

Definition is_log_start (ev : event) : bool :=
  match ev with
  | LogStart _ _ _ _ => true
  | _ => false
  end.

Definition is_log_end (ev : event) : bool :=
  match ev with
  | LogEnd _ _ _ _ _ => true
  | _ => false
  end.

Definition is_log (ev : event) : bool := is_log_start ev || is_log_end ev.

Definition is_error_end (ev : event) : bool :=
  match ev with
  | LogEnd _ _ _ status _ => String.eqb status "error"
  | _ => false
  end.

Definition is_close (s : socket) (ev : event) : bool :=
  match ev with
  | Close s' => sock_is s' s
  | _ => false
  end.

Definition is_send (ev : event) : bool :=
  match ev with
  | Send _ _ => true
  | _ => false
  end.

(** Events that touch the destination socket in any way. *)
Definition on_destination (ev : event) : bool :=
  match ev with
  | Recv dest_socket _ | Send dest_socket _ | Close dest_socket => true
  | Socket | Connect _ _ => true
  | _ => false
  end.

(** What the relay loop and its [finally] clause may do: read and write
    on both sockets, and close the destination. *)
Definition relay_event (ev : event) : bool :=
  match ev with
  | Recv _ _ | Send _ _ | Close dest_socket => true
  | _ => false
  end.

(** What the relay loop itself may do: read and write. *)
Definition copy_event (ev : event) : bool :=
  match ev with
  | Recv _ _ | Send _ _ => true
  | _ => false
  end.

(** ** The wire format, as the specification lays it out *)

(** The reply record of the specification's table: VER, REP, RSV, ATYP = 1,
    BND.ADDR = 0.0.0.0, BND.PORT = 0. *)
Definition socks_reply (rep : byte) : bytes :=
  [x05; rep; x00; x01; x00; x00; x00; x00; x00; x00].

Definition method_reply : bytes := [x05; x00].

Definition is_socks_reply (data : bytes) : bool :=
  match data with
  | [ver; rep; rsv; atyp; a0; a1; a2; a3; p0; p1] =>
      Byte.eqb ver x05
      && (Byte.eqb rep x00 || Byte.eqb rep x01 || Byte.eqb rep x05 || Byte.eqb rep x08)
      && Byte.eqb rsv x00 && Byte.eqb atyp x01
      && Byte.eqb a0 x00 && Byte.eqb a1 x00 && Byte.eqb a2 x00 && Byte.eqb a3 x00
      && Byte.eqb p0 x00 && Byte.eqb p1 x00
  | _ => false
  end.

(** Every write is a well-formed reply. *)
Definition reply_or_no_send (ev : event) : bool :=
  match ev with
  | Send s data => sock_is s client_socket && is_socks_reply data
  | _ => true
  end.

(** The destination of a CONNECT request: ATYP 1 with four address bytes,
    or ATYP 3 with a length byte and a name. *)
Inductive destination :=
| IPv4 (a b c d : byte)
| DomainName (len : byte) (name : bytes).

Record connect_request := mkRequest {
  req_rsv : byte;
  req_dst : destination;
  req_port_hi : byte;
  req_port_lo : byte
}.

Definition atyp_of (dst : destination) : byte :=
  match dst with
  | IPv4 _ _ _ _ => x01
  | DomainName _ _ => x03
  end.

Definition address_fields (dst : destination) : list bytes :=
  match dst with
  | IPv4 a b c d => [[a; b; c; d]]
  | DomainName len name => [[len]; name]
  end.

(** The fields of a request in the order in which the server reads them. *)
Definition request_fields (r : connect_request) : list bytes :=
  [x05; x01; req_rsv r; atyp_of (req_dst r)]
    :: address_fields (req_dst r) ++ [[req_port_hi r; req_port_lo r]].

Definition greeting_fields (nmethods : byte) (methods : bytes) : list bytes :=
  [[x05; nmethods]; methods].

Definition well_formed_greeting (nmethods : byte) (methods : bytes) : bool :=
  Nat.eqb (List.length methods) (Z.to_nat (int_of_byte nmethods)).

Definition well_formed_request (r : connect_request) : bool :=
  match req_dst r with
  | IPv4 _ _ _ _ => true
  | DomainName len name =>
      Nat.eqb (List.length name) (Z.to_nat (int_of_byte len)) && utf8_valid name
  end.

Definition destination_text (dst : destination) : string :=
  match dst with
  | IPv4 a b c d =>
      (decimal a ++ "." ++ decimal b ++ "." ++ decimal c ++ "." ++ decimal d)%string
  | DomainName _ name => string_of_list_byte name
  end.

Definition destination_port (r : connect_request) : Z :=
  256 * int_of_byte (req_port_hi r) + int_of_byte (req_port_lo r).

Definition bytes_eqb (x y : bytes) : bool :=
  if list_eq_dec Byte.byte_eq_dec x y then true else false.

(** The client's bytes reach the server field by field: the successive
    reads, each asking for the length of the next field, return exactly
    the fields.  The result is what is left in the queue. *)
Fixpoint delivers (q : list arrival) (fields : list bytes) : option (list arrival) :=
  match fields with
  | [] => Some q
  | f :: fs =>
      match recv_queue (List.length f) q with
      | (Ret data, q') => if bytes_eqb data f then delivers q' fs else None
      | _ => None
      end
  end.

(** The next [n] writes succeed; the result is the rest of the oracle. *)
Fixpoint accepts (out : list write_answer) (n : nat) {struct n}
    : option (list write_answer) :=
  match n with
  | O => Some out
  | S k =>
      match out with
      | [] => Some []
      | Written :: rest => accepts rest k
      | _ :: _ => None
      end
  end.

Definition with_client (q : list arrival) (out : list write_answer) (w : state) : state :=
  mkState q out (dest_in w) (dest_out w) (bytes_sent w) (bytes_received w).

(** The events of a well-formed greeting and of a well-formed request up
    to the point where the destination is needed. *)
Definition greeting_events (nmethods : byte) (methods : bytes) : list event :=
  [Recv client_socket [x05; nmethods]; Recv client_socket methods;
   Send client_socket method_reply].

Definition request_events (r : connect_request) : list event :=
  map (Recv client_socket) (request_fields r).

(** ** Properties of computations *)

(** [m] keeps a relation between the state before, the state after and
    the events in between, whatever its outcome. *)
Definition respects (I : state -> state -> list event -> Prop) {A} (m : M A) : Prop :=
  forall w, I w (final (m w)) (events (m w)).

(** [m] establishes [Q] on its outcome and final state. *)
Definition establishes {A} (Q : outcome A -> state -> Prop) (m : M A) : Prop :=
  forall w, Q (result (m w)) (final (m w)).

(** All events satisfy [p]. *)
Definition only (p : event -> bool) : state -> state -> list event -> Prop :=
  fun _ _ tr => Forall (fun ev => p ev = true) tr.

(** The counters of the relay follow the bytes written in each direction. *)
Definition counted : state -> state -> list event -> Prop :=
  fun w w' tr =>
    bytes_sent w' = bytes_sent w + copied dest_socket tr
    /\ bytes_received w' = bytes_received w + copied client_socket tr.

(** A [return] inside the relay loop hands back the counters as they are. *)
Definition returns_counters (o : outcome (option (Z * Z))) (w : state) : Prop :=
  match o with
  | Ret (Some (sent, received)) => sent = bytes_sent w /\ received = bytes_received w
  | _ => True
  end.

(** The relay loop does not end by falling through. *)
Definition never_falls_through (o : outcome (option (Z * Z))) (_ : state) : Prop :=
  o <> Ret None.

Definition reset_counters (w : state) : state :=
  mkState (client_in w) (client_out w) (dest_in w) (dest_out w) 0 0.

(** What the greeting and the request phase may do: read from and write
    to the client, create the destination socket and connect it. *)
Definition handshake_event (ev : event) : bool :=
  match ev with
  | Recv client_socket _ | Send client_socket _ | Socket | Connect _ _ => true
  | _ => false
  end.

(** How a log call ends on the database [db]: it returns, unless
    [psycopg2.connect] raises something else than [OperationalError]. *)
Definition log_outcome (db : Database.database) : outcome unit :=
  match Database.connect_answer db with
  | Database.ConnectError e => Exc e
  | _ => Ret tt
  end.

(** The end record that the handler of [run] hands over for the
    exception [e]. *)
Definition error_record (self : environment) (e : exn) : event :=
  LogEnd (session_id self) 0 0 "error" (Some (str e)).

(** How [run] winds up once [relay_data] is over.  After a relay that
    returned, the record with status "closed" is handed over; if that
    call raises, the handler hands over a record with status "error" for
    the exception of the log call.  After a relay that raised, the
    handler hands over the record with status "error".  Then the client
    socket is closed.  Nothing follows a relay that never ends. *)
Definition session_end (self : environment) (o : outcome (Z * Z)) : list event :=
  match o with
  | Ret (sent, received) =>
      LogEnd (session_id self) sent received "closed" None
      :: match log_outcome (database_at_end self) with
         | Exc e => [error_record self e; Close client_socket]
         | _ => [Close client_socket]
         end
  | Exc e => [error_record self e; Close client_socket]
  | Hang => []
  end.

(** The outcome of [run] then: that of the last log call. *)
Definition session_result (self : environment) (o : outcome (Z * Z)) : outcome unit :=
  match o with
  | Ret _ =>
      match log_outcome (database_at_end self) with
      | Exc _ => log_outcome (database_at_error self)
      | ended => ended
      end
  | Exc _ => log_outcome (database_at_error self)
  | Hang => Hang
  end.

(** The request phase hands back no other socket than the destination's. *)
Definition returns_destination (o : outcome (option (socket * string * Z))) (_ : state)
    : Prop :=
  match o with
  | Ret (Some (dest, _, _)) => dest = dest_socket
  | _ => True
  end.

(** The events of the request phase of a request that is granted, and
    the start record that follows it. *)
Definition connected_events (r : connect_request) : list event :=
  request_events r
    ++ [Socket; Connect (destination_text (req_dst r)) (destination_port r);
        Send client_socket (socks_reply x00)].

Definition start_record (self : environment) (r : connect_request) : event :=
  LogStart (session_id self) (client_address self)
    (destination_text (req_dst r)) (destination_port r).

(** The events of a request that fails at the outbound connection. *)
Definition refused_events (r : connect_request) : list event :=
  request_events r ++ [Socket; Send client_socket (socks_reply x01)].

(** The reply with code [rep], written to the client. *)
Definition is_reply (rep : byte) (ev : event) : bool :=
  match ev with
  | Send client_socket data => bytes_eqb data (socks_reply rep)
  | _ => false
  end.

(** The end record of a relay that stopped on the exception [e], with the
    counters [sent] and [received] at that point: a reset by the peer is
    taken for the end of the connection, anything else is an error whose
    record has no counts. *)
Definition failure_record (self : environment) (e : exn) (sent received : Z) : event :=
  if is_ConnectionResetError e then
    LogEnd (session_id self) sent received "closed" None
  else
    LogEnd (session_id self) 0 0 "error" (Some (str e)).

(** ** Sample sessions *)

(** A client that offers "no authentication" and asks for
    93.184.216.34:80, then sends three bytes. *)
Definition greeting_no_auth : bytes := [x05; x01; x00].
Definition connect_example : bytes :=
  [x05; x01; x00; x01; x5d; xb8; xd8; x22; x00; x50].
Definition example_request : connect_request :=
  mkRequest x00 (IPv4 x5d xb8 xd8 x22) x00 x50.
Definition GET : bytes := [x47; x45; x54].
Definition HTTP : bytes := [x48; x54; x54; x50].

(** The settings of the database, and a database that is reachable
    and does what it is asked. *)
Definition settings (k : string) : option string :=
  if String.eqb k "DB_NAME" then Some "proxy"%string
  else if String.eqb k "DB_USER" then Some "proxy"%string
  else if String.eqb k "DB_PASSWORD" then Some "secret"%string
  else None.

Definition reachable : Database.database :=
  Database.mkDatabase settings Database.Connected None None None.

(** A thread on a host where sockets can be created and the database
    is reachable. *)
Definition thread (connect_answer : option exn) (ready : list (list socket))
    : environment :=
  mkEnv "0b9d7c46-5c1e-4a57-8d38-6f0d2a4e9b11" ("127.0.0.1"%string, 50314)
    None (fun _ _ => connect_answer) ready reachable reachable reachable.

Definition world (from_client from_destination : list arrival) : state :=
  mkState from_client [] from_destination [] 0 0.

Definition reset_by_peer : exn :=
  Exception ConnectionResetError "[Errno 104] Connection reset by peer".
Definition timed_out : exn :=
  Exception TimeoutError "[Errno 110] Connection timed out".
Definition refused : exn :=
  Exception ConnectionRefusedError "[Errno 111] Connection refused".

(** The client's three bytes go out, four bytes come back, and then the
    destination closes, resets, or fails in another way. *)
Definition three_rounds : list (list socket) :=
  [[client_socket]; [dest_socket]; [dest_socket]].

Definition echo_thread : environment := thread None three_rounds.

Definition session_with (last : arrival) : state :=
  world [Data greeting_no_auth; Data connect_example; Data GET] [Data HTTP; last].

Definition relay_with (last : arrival) : state :=
  world [Data GET] [Data HTTP; last].

(** A client that asks for the name example.com, port 80. *)
Definition example_com : bytes :=
  [x65; x78; x61; x6d; x70; x6c; x65; x2e; x63; x6f; x6d].
Definition connect_example_com : bytes :=
  [x05; x01; x00; x03; x0b] ++ example_com ++ [x00; x50].
Definition unresolved : exn :=
  Exception gaierror "[Errno -2] Name or service not known".

(** ** Requests that are granted, requests that are answered *)

(** The requests that [handle_request] can grant: it checks that a name
    decodes, but not that as many bytes arrived as its length byte
    announces, so a name that arrives short is used as it came. *)
Definition readable_request (r : connect_request) : bool :=
  match req_dst r with
  | IPv4 _ _ _ _ => true
  | DomainName len name =>
      Nat.leb (List.length name) (Z.to_nat (int_of_byte len)) && utf8_valid name
  end.

(** No write fails. *)
Definition writable (out : list write_answer) : Prop :=
  Forall (fun answer => answer = Written) out.

(** Nothing is written, and the outcomes of the writes to come on the
    client socket are untouched. *)
Definition writes_nothing : state -> state -> list event -> Prop :=
  fun w w' tr =>
    client_out w' = client_out w
    /\ Forall (fun ev => is_send ev = false) tr.

(** A computation that ends the request phase: unless it raises or
    blocks before writing anything, its only write is one reply, the
    last thing it does, with REP = 0 exactly when it returns a socket. *)
Definition answers (m : M (option (socket * string * Z))) : Prop :=
  forall w,
    writable (client_out w) ->
    writable (client_out (final (m w)))
    /\ match result (m w) with
       | Ret r =>
           exists pre rep,
             events (m w) = pre ++ [Send client_socket (socks_reply rep)]
             /\ Forall (fun ev => is_send ev = false) pre
             /\ match r with
                | Some _ => rep = x00
                | None => rep = x05 \/ rep = x08 \/ rep = x01
                end
       | _ => Forall (fun ev => is_send ev = false) (events (m w))
       end.

(** ** The two byte streams of the relay *)

(** The bytes that the reads on [s] returned and the bytes written to
    [s], each in the order of the trace. *)
Fixpoint read_from (s : socket) (tr : list event) : bytes :=
  match tr with
  | [] => []
  | Recv s' data :: tr' => (if sock_is s' s then data else []) ++ read_from s tr'
  | _ :: tr' => read_from s tr'
  end.

Fixpoint written_to (s : socket) (tr : list event) : bytes :=
  match tr with
  | [] => []
  | Send s' data :: tr' => (if sock_is s' s then data else []) ++ written_to s tr'
  | _ :: tr' => written_to s tr'
  end.

(** The socket whose bytes the relay writes to [s]. *)
Definition peer (s : socket) : socket :=
  match s with
  | client_socket => dest_socket
  | dest_socket => client_socket
  end.

(** What was written to [s] is what was read from its peer, but for
    [lost], the bytes of a last read that were not written. *)
Definition forwarded (s : socket) (tr : list event) (lost : bytes) : Prop :=
  read_from (peer s) tr = written_to s tr ++ lost.

(** A write in the relay is one read's worth: not empty and within the
    buffer size. *)
Definition buffer_sized (ev : event) : Prop :=
  match ev with
  | Send _ data => (1 <= List.length data <= BUFFER_SIZE)%nat
  | _ => True
  end.

(** The bytes copied from [source] to [target] in a trace, counted: the
    lengths of the chunks that were read from [source] and written to
    [target] right after. *)
Fixpoint relayed (source target : socket) (tr : list event) : Z :=
  match tr with
  | [] => 0
  | Recv s data :: tr' =>
      match tr' with
      | Send s' data' :: _ =>
          if sock_is s source && sock_is s' target && bytes_eqb data data'
          then Z.of_nat (List.length data)
          else 0
      | _ => 0
      end
      + relayed source target tr'
  | _ :: tr' => relayed source target tr'
  end.

(** The counters of the relay follow the bytes copied in each direction. *)
Definition follows : state -> state -> list event -> Prop :=
  fun w w' tr =>
    bytes_sent w' = bytes_sent w + relayed client_socket dest_socket tr
    /\ bytes_received w' = bytes_received w + relayed dest_socket client_socket tr.

(** A write on [s] that returned. *)
Definition sent_to (s : socket) (ev : event) : bool :=
  match ev with
  | Send s' _ => sock_is s' s
  | _ => false
  end.

(** The answer to a write that does not take the bytes: the write fails
    or never returns. *)
Definition refuses (answer : option write_answer) : bool :=
  match answer with
  | Some (WriteError _) | Some WriteBlocks => true
  | _ => false
  end.

(** One copy of the relay: a chunk read from a socket and written to the
    other one; and copies one after the other. *)
Definition copy (c : socket * bytes) : list event :=
  [Recv (fst c) (snd c); Send (peer (fst c)) (snd c)].

Definition copies (cs : list (socket * bytes)) : list event := flat_map copy cs.

(** A chunk is one read's worth: not empty and within the buffer size. *)
Definition chunk_sized (c : socket * bytes) : Prop :=
  (1 <= List.length (snd c) <= BUFFER_SIZE)%nat.

(** How the relay loop gets from [w] to [w'] with the outcome [o] and the
    events [tr].  It makes copies, each of one chunk, and counts each in
    the counter of its direction.  Then it goes on ([Ret None]), one
    write answer of the target used up per copy; or it reads the empty
    string and returns the counters; or it raises or blocks in a read or
    in [select]; or it reads one more chunk and raises or blocks in the
    write of it, as the answer to that write says. *)
Definition relayed_by (w : state) (o : outcome (option (Z * Z))) (w' : state)
    (tr : list event) : Prop :=
  exists cs last,
    tr = copies cs ++ last
    /\ Forall chunk_sized cs
    /\ follows w w' (copies cs)
    /\ match o with
       | Ret None =>
           last = []
           /\ forall s,
               outgoing s w' = skipn (count (sent_to s) (copies cs)) (outgoing s w)
       | Ret (Some (sent, received)) =>
           (exists s, last = [Recv s []])
           /\ sent = bytes_sent w' /\ received = bytes_received w'
       | Exc e =>
           last = []
           \/ exists s data,
               last = [Recv s data] /\ chunk_sized (s, data)
               /\ nth_error (outgoing (peer s) w) (count (sent_to (peer s)) (copies cs))
                  = Some (WriteError e)
       | Hang =>
           last = []
           \/ exists s data,
               last = [Recv s data] /\ chunk_sized (s, data)
               /\ nth_error (outgoing (peer s) w) (count (sent_to (peer s)) (copies cs))
                  = Some WriteBlocks
       end.

(** The truth value of [os.environ.get(k)]: [None] when the variable is
    not set; the empty string is false as well. *)
Definition truthy (v : option string) : bool :=
  match v with
  | Some EmptyString => false
  | Some _ => true
  | None => false
  end.

(** ** The listener *)

Module Listener.

Definition HOST : string := "127.0.0.1".
Definition PORT : Z := 1080.

Inductive event :=
| ServerSocket                  (* socket.socket(AF_INET, SOCK_STREAM) returned *)
| SetReuseAddr                  (* setsockopt(SOL_SOCKET, SO_REUSEADDR, 1) returned *)
| Bind (host : string) (port : Z)
| Listen (backlog : Z)
| Accept (client_address : string * Z)
| Start (client_address : string * Z) (session_id : string)
                                (* the thread of this client and session id was started *)
| CloseServer.

(** What one call of [server_socket.accept()] brings: a connection, with
    the session id that [uuid.uuid4()] then draws for its thread and the
    answer of [proxy_thread.start()]; Ctrl-C while waiting; or a failure.
    The thread that was started runs [run] on its own; its events are
    those of a session and are not part of the listener's. *)
Inductive accept_result :=
| Connection (client_address : string * Z) (uuid4 : string) (start_result : option exn)
| KeyboardInterrupt
| AcceptError (e : exn).

Record host := mkHost {
  environ : string -> option string;
  socket_result : option exn;
  setsockopt_result : option exn;
  bind_result : option exn;
  listen_result : option exn;
  accept_results : list accept_result
}.

(** [while True] around the [try] statement; when the environment has no
    further answer, [accept] never returns. *)
Fixpoint accept_loop (answers : list accept_result) : Calls.t event unit :=
  match answers with
  | [] => Calls.hang
  | answer :: later =>
      match answer with
      | KeyboardInterrupt => Calls.ret tt
      | AcceptError e => accept_loop later
      | Connection client_address session_id start_result =>
          (Calls.call None (Accept client_address) ;;
           Calls.try_except
             (Calls.call start_result (Start client_address session_id))
             (fun e => Calls.ret tt) ;;
           accept_loop later)%calls
      end
  end.

Definition main (h : host) : Calls.t event unit :=
  if negb (forallb truthy (map (environ h) ["DB_NAME"; "DB_USER"; "DB_PASSWORD"]%string))
  then Calls.ret tt
  else
    (Calls.call (socket_result h) ServerSocket ;;
     Calls.call (setsockopt_result h) SetReuseAddr ;;
     Calls.call (bind_result h) (Bind HOST PORT) ;;
     Calls.call (listen_result h) (Listen 10) ;;
     accept_loop (accept_results h) ;;
     Calls.call None CloseServer)%calls.

(** What the loop does with one answer of [accept]. *)
Definition served (answer : accept_result) : list event :=
  match answer with
  | Connection client_address session_id None =>
      [Accept client_address; Start client_address session_id]
  | Connection client_address _ (Some _) => [Accept client_address]
  | _ => []
  end.

Definition is_interrupt (answer : accept_result) : bool :=
  match answer with
  | KeyboardInterrupt => true
  | _ => false
  end.

(** The calls made once the server socket listens. *)
Definition after_listen (ev : event) : bool :=
  match ev with
  | Accept _ | Start _ _ | CloseServer => true
  | _ => false
  end.

Definition configured (h : host) : Prop :=
  forall k, In k ["DB_NAME"; "DB_USER"; "DB_PASSWORD"]%string ->
            exists v, environ h k = Some v /\ v <> EmptyString.

End Listener.

(** A host with the three settings on which the port is free.  Two
    clients connect, with a failed [accept] in between, before Ctrl-C. *)
Definition too_many_files : exn :=
  Exception OSError "[Errno 24] Too many open files".
Definition address_in_use : exn :=
  Exception OSError "[Errno 98] Address already in use".

Definition arrivals : list Listener.accept_result :=
  [Listener.Connection ("127.0.0.1"%string, 50314)
     "0b9d7c46-5c1e-4a57-8d38-6f0d2a4e9b11" None;
   Listener.AcceptError too_many_files;
   Listener.Connection ("127.0.0.1"%string, 50316)
     "5f0c2b1e-93a4-4c0d-b6a1-2e8f4d7c1a55" None].

Definition free_host : Listener.host :=
  Listener.mkHost settings None None None None
    (arrivals ++ [Listener.KeyboardInterrupt;
                  Listener.Connection ("127.0.0.1"%string, 50318)
                    "c1d2e3f4-0a1b-4c2d-8e3f-9a0b1c2d3e4f" None]).

Definition busy_host : Listener.host :=
  Listener.mkHost settings None None (Some address_in_use) None arrivals.

(** A host that runs out of threads: a third client connects and its
    thread cannot be started. *)
Definition cannot_start : exn :=
  Exception RuntimeError "can't start new thread".

Definition loaded_host : Listener.host :=
  Listener.mkHost settings None None None None
    (arrivals
       ++ [Listener.Connection ("127.0.0.1"%string, 50318)
             "c1d2e3f4-0a1b-4c2d-8e3f-9a0b1c2d3e4f" (Some cannot_start);
           Listener.KeyboardInterrupt]).

(** * Proofs *)

Section Composition.

Variable I : state -> state -> list event -> Prop.
Hypothesis I_refl : forall w, I w w [].
Hypothesis I_trans :
  forall w1 w2 w3 t1 t2, I w1 w2 t1 -> I w2 w3 t2 -> I w1 w3 (t1 ++ t2).

Lemma respects_ret {A} (a : A) : respects I (ret a).
Proof. intro w. apply I_refl. Qed.

Lemma respects_raise {A} (e : exn) : respects I (@raise A e).
Proof. intro w. apply I_refl. Qed.

Lemma respects_hang {A} : respects I (@hang A).
Proof. intro w. apply I_refl. Qed.

Lemma respects_get {A} (f : state -> A) : respects I (get f).
Proof. intro w. apply I_refl. Qed.

Lemma respects_or_raise {A} (x : option A) (e : exn) : respects I (or_raise x e).
Proof. destruct x; [apply respects_ret | apply respects_raise]. Qed.

Lemma respects_bind {A B} (m : M A) (k : A -> M B) :
  respects I m -> (forall a, respects I (k a)) -> respects I (bind m k).
Proof.
  intros Hm Hk w. specialize (Hm w). unfold bind.
  destruct (m w) as [[o w1] t1]. cbn in Hm.
  destruct o as [a | e | ]; try exact Hm.
  specialize (Hk a w1). destruct (k a w1) as [[o2 w2] t2]. cbn in *.
  eapply I_trans; eassumption.
Qed.

Lemma respects_try_except {A} (m : M A) (h : exn -> M A) :
  respects I m -> (forall e, respects I (h e)) -> respects I (try_except m h).
Proof.
  intros Hm Hh w. specialize (Hm w). unfold try_except.
  destruct (m w) as [[o w1] t1]. cbn in Hm.
  destruct o as [a | e | ]; try exact Hm.
  specialize (Hh e w1). destruct (h e w1) as [[o2 w2] t2]. cbn in *.
  eapply I_trans; eassumption.
Qed.

Lemma respects_try_finally {A} (m : M A) (f : M unit) :
  respects I m -> respects I f -> respects I (try_finally m f).
Proof.
  intros Hm Hf w. specialize (Hm w). unfold try_finally.
  destruct (m w) as [[o w1] t1]. cbn in Hm.
  specialize (Hf w1).
  destruct o as [a | e | ]; try exact Hm;
    destruct (f w1) as [[[u | e2 | ] w2] t2]; cbn in *;
    eapply I_trans; eassumption.
Qed.

End Composition.

Lemma establishes_bind {A B} (Qm : outcome A -> state -> Prop)
    (Q : outcome B -> state -> Prop) (m : M A) (k : A -> M B) :
  establishes Qm m ->
  (forall e w, Qm (Exc e) w -> Q (Exc e) w) ->
  (forall w, Qm Hang w -> Q Hang w) ->
  (forall a w, Qm (Ret a) w -> Q (result (k a w)) (final (k a w))) ->
  establishes Q (bind m k).
Proof.
  intros Hm He Hh Hk w. specialize (Hm w). unfold bind.
  destruct (m w) as [[[a | e | ] w1] t1]; cbn in *; auto.
  specialize (Hk a w1 Hm). destruct (k a w1) as [[o2 w2] t2]. exact Hk.
Qed.

Lemma establishes_anything {A} (m : M A) : establishes (fun _ _ => True) m.
Proof. intro w. exact Logic.I. Qed.

(** ** Traces *)

Lemma copied_app (target : socket) (t1 t2 : list event) :
  copied target (t1 ++ t2) = copied target t1 + copied target t2.
Proof.
  induction t1 as [ | ev t1 IH]; cbn; [reflexivity | ].
  destruct ev; rewrite IH; lia.
Qed.

Lemma copied_nonneg (target : socket) (tr : list event) : 0 <= copied target tr.
Proof.
  induction tr as [ | ev tr IH]; cbn; [lia | ].
  destruct ev; try exact IH. destruct (sock_is s target); lia.
Qed.

Lemma count_app (p : event -> bool) (t1 t2 : list event) :
  count p (t1 ++ t2) = (count p t1 + count p t2)%nat.
Proof. unfold count. rewrite filter_app, length_app. reflexivity. Qed.

Lemma filter_none (p : event -> bool) (tr : list event) :
  Forall (fun ev => p ev = false) tr -> filter p tr = [].
Proof.
  intro H. induction H as [ | ev tr Hev _ IH]; [reflexivity | ].
  cbn. rewrite Hev. exact IH.
Qed.

Lemma only_refl (p : event -> bool) (w : state) : only p w w [].
Proof. constructor. Qed.

Lemma only_trans (p : event -> bool) (w1 w2 w3 : state) (t1 t2 : list event) :
  only p w1 w2 t1 -> only p w2 w3 t2 -> only p w1 w3 (t1 ++ t2).
Proof. unfold only. intros H1 H2. apply Forall_app. split; assumption. Qed.

Lemma counted_refl (w : state) : counted w w [].
Proof. unfold counted. cbn. lia. Qed.

Lemma counted_trans (w1 w2 w3 : state) (t1 t2 : list event) :
  counted w1 w2 t1 -> counted w2 w3 t2 -> counted w1 w3 (t1 ++ t2).
Proof. unfold counted. rewrite !copied_app. lia. Qed.

Lemma only_emit (p : event -> bool) (ev : event) :
  p ev = true -> respects (only p) (emit ev).
Proof. intros H w. cbn. repeat constructor. exact H. Qed.

Lemma only_recv (p : event -> bool) (s : socket) (n : nat) :
  (forall data, p (Recv s data) = true) -> respects (only p) (recv s n).
Proof.
  intros H w. unfold recv.
  destruct (recv_queue n (incoming s w)) as [[data | e | ] q]; cbn;
    repeat constructor. apply H.
Qed.

Lemma only_sendall (p : event -> bool) (s : socket) (data : bytes) :
  p (Send s data) = true -> respects (only p) (sendall s data).
Proof.
  intros H w. unfold sendall.
  destruct (outgoing s w) as [ | [ | e | ] rest]; cbn; repeat constructor; exact H.
Qed.

Lemma only_set_bytes_sent (p : event -> bool) (n : Z) :
  respects (only p) (set_bytes_sent n).
Proof. intro w. constructor. Qed.

Lemma only_set_bytes_received (p : event -> bool) (n : Z) :
  respects (only p) (set_bytes_received n).
Proof. intro w. constructor. Qed.

Create HintDb trace discriminated.

#[export] Hint Resolve only_refl only_trans counted_refl counted_trans : trace.
#[export] Hint Resolve only_emit only_recv only_sendall
  only_set_bytes_sent only_set_bytes_received : trace.

Ltac side :=
  first [ exact (only_refl _) | exact (only_trans _)
        | exact counted_refl | exact counted_trans ].

(** Walks down a computation, one statement at a time. *)
Ltac walk :=
  repeat first
    [ solve [ auto with trace ]
    | apply respects_ret; side
    | apply respects_raise; side
    | apply respects_hang; side
    | apply respects_get; side
    | apply respects_or_raise; side
    | apply respects_bind; [ side | | intros ? ]
    | apply respects_try_except; [ side | | intros ? ]
    | apply respects_try_finally; [ side | | ]
    | match goal with
      | |- respects _ (if ?c then _ else _) => destruct c
      | |- respects _ (match ?x with _ => _ end) => destruct x
      end ].

(** ** The relay loop *)

Lemma relay_for_copies (readable_sockets : list socket) :
  respects (only copy_event) (relay_for dest_socket readable_sockets).
Proof.
  induction readable_sockets as [ | sock rest IH]; cbn [relay_for]; walk.
Qed.

Lemma relay_while_copies (ready : list (list socket)) :
  respects (only copy_event) (relay_while dest_socket ready).
Proof.
  pose proof relay_for_copies.
  induction ready as [ | readable_sockets later IH]; cbn [relay_while]; walk.
Qed.

Lemma recv_counted (s : socket) (n : nat) : respects counted (recv s n).
Proof.
  intro w. unfold recv.
  destruct (recv_queue n (incoming s w)) as [[data | e | ] q];
    destruct s; unfold counted; cbn; lia.
Qed.

Lemma copy_to_destination_counted (data : bytes) :
  respects counted
    (sendall dest_socket data ;;
     n <- get bytes_sent ;;
     set_bytes_sent (n + Z.of_nat (List.length data))).
Proof.
  intro w. unfold bind, sendall. cbn [outgoing].
  destruct (dest_out w) as [ | [ | e | ] rest]; unfold counted; cbn; lia.
Qed.

Lemma copy_to_client_counted (data : bytes) :
  respects counted
    (sendall client_socket data ;;
     n <- get bytes_received ;;
     set_bytes_received (n + Z.of_nat (List.length data))).
Proof.
  intro w. unfold bind, sendall. cbn [outgoing].
  destruct (client_out w) as [ | [ | e | ] rest]; unfold counted; cbn; lia.
Qed.

#[export] Hint Resolve recv_counted copy_to_destination_counted
  copy_to_client_counted : trace.

Lemma relay_for_counted (readable_sockets : list socket) :
  respects counted (relay_for dest_socket readable_sockets).
Proof.
  induction readable_sockets as [ | sock rest IH]; cbn [relay_for]; walk.
Qed.

Lemma relay_while_counted (ready : list (list socket)) :
  respects counted (relay_while dest_socket ready).
Proof.
  pose proof relay_for_counted.
  induction ready as [ | readable_sockets later IH]; cbn [relay_while]; walk.
Qed.

Lemma relay_for_returns_counters (dest : socket) (readable_sockets : list socket) :
  establishes returns_counters (relay_for dest readable_sockets).
Proof.
  induction readable_sockets as [ | sock rest IH]; cbn [relay_for].
  - intro w. exact Logic.I.
  - apply establishes_bind with (Qm := fun _ _ => True);
      [apply establishes_anything | exact (fun _ _ x => x) | exact (fun _ x => x) | ].
    intros [ | b data] w _.
    + cbn. split; reflexivity.
    + revert w.
      apply (establishes_bind (fun _ _ => True) returns_counters);
        [apply establishes_anything | exact (fun _ _ x => x) | exact (fun _ x => x) | ].
      intros _ w _. apply IH.
Qed.

Lemma relay_while_returns_counters (dest : socket) (ready : list (list socket)) :
  establishes returns_counters (relay_while dest ready).
Proof.
  induction ready as [ | readable_sockets later IH]; cbn [relay_while].
  - intro w. exact Logic.I.
  - apply (establishes_bind returns_counters returns_counters);
      [apply relay_for_returns_counters | exact (fun _ _ x => x) | exact (fun _ x => x) | ].
    intros [counts | ] w H; [exact H | apply IH].
Qed.

Lemma relay_while_never_falls_through (dest : socket) (ready : list (list socket)) :
  establishes never_falls_through (relay_while dest ready).
Proof.
  induction ready as [ | readable_sockets later IH]; cbn [relay_while].
  - intro w. discriminate.
  - apply (establishes_bind (fun _ _ => True) never_falls_through);
      [apply establishes_anything | discriminate | discriminate | ].
    intros [counts | ] w _; [discriminate | apply IH].
Qed.

(** ** The four ways out of [relay_data] *)

Section RelayExits.

Variable self : environment.
Variable dest : socket.
Variables (w w1 : state) (t1 : list event).

Lemma relay_data_returned (counts : Z * Z) :
  relay_while dest (select_results self) (reset_counters w) = (Ret (Some counts), w1, t1) ->
  relay_data self dest w = (Ret counts, w1, t1 ++ [Close dest]).
Proof.
  unfold reset_counters, relay_data, bind, try_finally, try_except,
    set_bytes_sent, set_bytes_received, close, emit. cbn.
  intros ->. cbn. rewrite app_nil_r. reflexivity.
Qed.

Lemma relay_data_reset (e : exn) :
  relay_while dest (select_results self) (reset_counters w) = (Exc e, w1, t1) ->
  is_ConnectionResetError e = true ->
  relay_data self dest w
  = (Ret (bytes_sent w1, bytes_received w1), w1, t1 ++ [Close dest]).
Proof.
  unfold reset_counters, relay_data, bind, try_finally, try_except,
    set_bytes_sent, set_bytes_received, close, emit. cbn.
  intros -> ->. cbn. rewrite !app_nil_r. reflexivity.
Qed.

Lemma relay_data_raised (e : exn) :
  relay_while dest (select_results self) (reset_counters w) = (Exc e, w1, t1) ->
  is_ConnectionResetError e = false ->
  relay_data self dest w = (Exc e, w1, t1 ++ [Close dest]).
Proof.
  unfold reset_counters, relay_data, bind, try_finally, try_except,
    set_bytes_sent, set_bytes_received, close, emit. cbn.
  intros -> ->. cbn. rewrite !app_nil_r. reflexivity.
Qed.

Lemma relay_data_blocked :
  relay_while dest (select_results self) (reset_counters w) = (Hang, w1, t1) ->
  relay_data self dest w = (Hang, w1, t1).
Proof.
  unfold reset_counters, relay_data, bind, try_finally, try_except,
    set_bytes_sent, set_bytes_received, close, emit. cbn.
  intros ->. cbn. reflexivity.
Qed.

End RelayExits.

(** ** The greeting and the request *)

Lemma handle_greeting_events :
  respects (only handshake_event) handle_greeting.
Proof. unfold handle_greeting. walk. Qed.

Lemma handle_request_events (self : environment) :
  respects (only handshake_event) (handle_request self).
Proof.
  unfold handle_request, connect_destination, send_reply, socket_socket, connect.
  walk.
Qed.

(** ** The log calls of a session *)

Lemma db_log_start_outcome (db : Database.database) (sid : string)
    (client : string * Z) (dest_addr : string) (dest_port : Z) :
  fst (Database.db_log_start db sid client dest_addr dest_port) = log_outcome db.
Proof.
  unfold Database.db_log_start, Database.get_db_connection, Database.with_cursor,
    log_outcome.
  destruct (Database.connect_answer db), (Database.cursor_result db),
    (Database.execute_result db), (Database.commit_result db); reflexivity.
Qed.

Lemma db_log_end_outcome (db : Database.database) (sid : string) (sent received : Z)
    (status : string) (error_message : option string) :
  fst (Database.db_log_end db sid sent received status error_message) = log_outcome db.
Proof.
  unfold Database.db_log_end, Database.get_db_connection, Database.with_cursor,
    log_outcome.
  destruct (Database.connect_answer db), (Database.cursor_result db),
    (Database.execute_result db), (Database.commit_result db); reflexivity.
Qed.

Lemma db_log_start_ends (db : Database.database) (sid : string) (client : string * Z)
    (dest_addr : string) (dest_port : Z) (w : state) :
  db_log_start db sid client dest_addr dest_port w
  = (log_outcome db, w, [LogStart sid client dest_addr dest_port]).
Proof.
  unfold db_log_start, log_call. rewrite db_log_start_outcome.
  unfold log_outcome. destruct (Database.connect_answer db); reflexivity.
Qed.

Lemma db_log_end_ends (db : Database.database) (sid : string) (sent received : Z)
    (status : string) (error_message : option string) (w : state) :
  db_log_end db sid sent received status error_message w
  = (log_outcome db, w, [LogEnd sid sent received status error_message]).
Proof.
  unfold db_log_end, log_call. rewrite db_log_end_outcome.
  unfold log_outcome. destruct (Database.connect_answer db); reflexivity.
Qed.

Lemma log_outcome_cases (db : Database.database) :
  log_outcome db = Ret tt \/ exists e, log_outcome db = Exc e.
Proof. unfold log_outcome. destruct (Database.connect_answer db); eauto. Qed.

Lemma log_outcome_not_blocked (db : Database.database) : log_outcome db <> Hang.
Proof. destruct (log_outcome_cases db) as [H | [e H]]; rewrite H; discriminate. Qed.

(** ** The paths through [run] *)

(** One step along a path: a call whose result is known, or a log call,
    which returns or raises. *)
Ltac run_step :=
  first
    [ progress rewrite ?db_log_start_ends, ?db_log_end_ends
    | match goal with
      | H : log_outcome _ = _ |- _ => progress rewrite !H
      | H : _ = (_, _, _) |- _ => rewrite H; clear H
      end
    | match goal with
      | |- context [log_outcome ?db] =>
          let H := fresh "Hlog" in
          destruct (log_outcome_cases db) as [H | [? H]]; rewrite !H
      end ];
  cbn -[relay_data handle_request handle_greeting db_log_start db_log_end].

Ltac run_path :=
  unfold run, bind, try_finally, try_except, close, emit,
    session_result, session_end, error_record;
  repeat run_step;
  rewrite ?app_nil_r;
  repeat (progress (rewrite <- ?app_assoc; cbn [app]));
  try reflexivity.

Section RunPaths.

Variable self : environment.
Variables (w w1 w2 w3 : state) (t1 t2 t3 : list event).

Lemma run_greeting_rejected :
  handle_greeting w = (Ret false, w1, t1) ->
  run self w = (Ret tt, w1, t1 ++ [Close client_socket]).
Proof. intros H. run_path. Qed.

Lemma run_greeting_raised (e : exn) :
  handle_greeting w = (Exc e, w1, t1) ->
  run self w
  = (log_outcome (database_at_error self), w1,
     t1 ++ [error_record self e; Close client_socket]).
Proof. intros H. run_path. Qed.

Lemma run_greeting_blocked :
  handle_greeting w = (Hang, w1, t1) ->
  run self w = (Hang, w1, t1).
Proof. intros H. run_path. Qed.

Lemma run_request_refused :
  handle_greeting w = (Ret true, w1, t1) ->
  handle_request self w1 = (Ret None, w2, t2) ->
  run self w = (Ret tt, w2, t1 ++ t2 ++ [Close client_socket]).
Proof. intros H1 H2. run_path. Qed.

Lemma run_request_raised (e : exn) :
  handle_greeting w = (Ret true, w1, t1) ->
  handle_request self w1 = (Exc e, w2, t2) ->
  run self w
  = (log_outcome (database_at_error self), w2,
     t1 ++ t2 ++ [error_record self e; Close client_socket]).
Proof. intros H1 H2. run_path. Qed.

Lemma run_request_blocked :
  handle_greeting w = (Ret true, w1, t1) ->
  handle_request self w1 = (Hang, w2, t2) ->
  run self w = (Hang, w2, t1 ++ t2).
Proof. intros H1 H2. run_path. Qed.

Variables (dest : socket) (dest_addr : string) (dest_port : Z).

(** [db_log_start] raises: the relay is skipped. *)
Lemma run_start_raised (e : exn) :
  handle_greeting w = (Ret true, w1, t1) ->
  handle_request self w1 = (Ret (Some (dest, dest_addr, dest_port)), w2, t2) ->
  log_outcome (database_at_start self) = Exc e ->
  run self w
  = (log_outcome (database_at_error self), w2,
     t1 ++ t2
        ++ [LogStart (session_id self) (client_address self) dest_addr dest_port;
            error_record self e; Close client_socket]).
Proof. intros H1 H2 Hs. run_path. Qed.

Lemma run_relay_ended (o : outcome (Z * Z)) :
  handle_greeting w = (Ret true, w1, t1) ->
  handle_request self w1 = (Ret (Some (dest, dest_addr, dest_port)), w2, t2) ->
  log_outcome (database_at_start self) = Ret tt ->
  relay_data self dest w2 = (o, w3, t3) ->
  run self w
  = (session_result self o, w3,
     t1 ++ t2
        ++ LogStart (session_id self) (client_address self) dest_addr dest_port
        :: t3 ++ session_end self o).
Proof.
  intros H1 H2 Hs H3. destruct o as [[sent received] | e | ]; run_path.
Qed.

End RunPaths.

(** ** Reading and writing on the client socket, step by step *)

Lemma delivers_cons (q : list arrival) (f : bytes) (fs : list bytes) (q' : list arrival) :
  delivers q (f :: fs) = Some q' ->
  exists q1, recv_queue (List.length f) q = (Ret f, q1) /\ delivers q1 fs = Some q'.
Proof.
  cbn [delivers].
  destruct (recv_queue (List.length f) q) as [[data | e | ] q1]; try discriminate.
  unfold bytes_eqb. destruct (list_eq_dec Byte.byte_eq_dec data f); try discriminate.
  subst. eauto.
Qed.

Lemma delivers_app (q : list arrival) (fs gs : list bytes) (q' : list arrival) :
  delivers q (fs ++ gs) = Some q' ->
  exists q1, delivers q fs = Some q1 /\ delivers q1 gs = Some q'.
Proof.
  revert q. induction fs as [ | f fs IH]; intros q H.
  - exists q. split; [reflexivity | exact H].
  - cbn [app] in H. apply delivers_cons in H. destruct H as (q1 & Hf & H).
    apply IH in H. destruct H as (q2 & Hfs & Hgs).
    exists q2. split; [ | exact Hgs].
    cbn [delivers]. rewrite Hf. unfold bytes_eqb.
    destruct (list_eq_dec Byte.byte_eq_dec f f); [exact Hfs | congruence].
Qed.

Lemma accepts_next (out : list write_answer) (n : nat) (out'' : list write_answer) :
  accepts out (S n) = Some out'' ->
  exists out', accepts out 1 = Some out' /\ accepts out' n = Some out''.
Proof.
  destruct out as [ | [ | e | ] rest]; cbn; intro H; try discriminate.
  - exists []. split; [reflexivity | ]. inversion H. destruct n; reflexivity.
  - exists rest. split; [reflexivity | exact H].
Qed.

Lemma recv_with_client (q : list arrival) (out : list write_answer) (w : state)
    (n : nat) (data : bytes) (q' : list arrival) :
  recv_queue n q = (Ret data, q') ->
  recv client_socket n (with_client q out w)
  = (Ret data, with_client q' out w, [Recv client_socket data]).
Proof. unfold recv. cbn. intros ->. reflexivity. Qed.

Lemma sendall_with_client (q : list arrival) (out out' : list write_answer) (w : state)
    (data : bytes) :
  accepts out 1 = Some out' ->
  sendall client_socket data (with_client q out w)
  = (Ret tt, with_client q out' w, [Send client_socket data]).
Proof.
  unfold sendall. cbn.
  destruct out as [ | [ | e | ] rest]; intro H; inversion H; reflexivity.
Qed.

Lemma with_client_same (w : state) : with_client (client_in w) (client_out w) w = w.
Proof. destruct w. reflexivity. Qed.

Lemma int_of_byte_inj (a b : byte) : int_of_byte a = int_of_byte b -> a = b.
Proof.
  unfold int_of_byte. intro H. apply N2Z.inj in H.
  pose proof (Byte.of_to_N a) as Ha. rewrite H, Byte.of_to_N in Ha.
  congruence.
Qed.

Lemma version_check (v : byte) :
  (int_of_byte v =? SOCKS_VERSION) = Byte.eqb v x05.
Proof.
  destruct (Byte.eqb v x05) eqn:E.
  - apply Byte.byte_dec_bl in E. subst. reflexivity.
  - apply Z.eqb_neq. intro H. apply (int_of_byte_inj v x05) in H.
    subst. discriminate.
Qed.

Lemma pack_method_reply : pack_BB SOCKS_VERSION 0 = Some method_reply.
Proof. reflexivity. Qed.

Lemma pack_reply_0 : pack_BBBBIH SOCKS_VERSION 0 0 1 0 0 = Some (socks_reply x00).
Proof. reflexivity. Qed.

Lemma pack_reply_1 : pack_BBBBIH SOCKS_VERSION 1 0 1 0 0 = Some (socks_reply x01).
Proof. reflexivity. Qed.

Lemma pack_reply_5 : pack_BBBBIH SOCKS_VERSION 5 0 1 0 0 = Some (socks_reply x05).
Proof. reflexivity. Qed.

Lemma pack_reply_8 : pack_BBBBIH SOCKS_VERSION 8 0 1 0 0 = Some (socks_reply x08).
Proof. reflexivity. Qed.

(** Runs a computation statement by statement, as far as the hypotheses
    tell what the environment answers. *)
Ltac known_answers :=
  repeat match goal with
         | H : socket_result _ = _ |- _ => rewrite H
         | H : connect_result _ _ _ = _ |- _ => rewrite H
         end.

Ltac evaluate :=
  rewrite ?pack_method_reply, ?pack_reply_0, ?pack_reply_1, ?pack_reply_5, ?pack_reply_8;
  known_answers;
  cbn [or_raise unpack_BB unpack_BBBB unpack_H inet_ntoa ret raise emit
         nth_error option_map];
  cbv beta iota.

Ltac go :=
  repeat first
    [ erewrite recv_with_client by eassumption; evaluate
    | erewrite sendall_with_client by eassumption; evaluate
    | match goal with
      | |- context [bind _ _ (with_client _ _ _)] => unfold bind at 1
      end; evaluate
    | progress evaluate ].

Ltac tidy :=
  cbn [ret]; cbv beta iota;
  rewrite ?app_nil_r;
  repeat (progress (rewrite <- ?app_assoc; cbn [app])).

Lemma version_ok : (int_of_byte x05 =? SOCKS_VERSION) = true.
Proof. reflexivity. Qed.

Lemma version_bad (v : byte) : v <> x05 -> (int_of_byte v =? SOCKS_VERSION) = false.
Proof.
  intro H. rewrite version_check. destruct (Byte.eqb v x05) eqn:E; [ | reflexivity].
  apply Byte.byte_dec_bl in E. contradiction.
Qed.

Lemma handle_greeting_accepted (w : state) (nmethods : byte) (methods : bytes)
    (q : list arrival) (out : list write_answer) :
  delivers (client_in w) (greeting_fields nmethods methods) = Some q ->
  well_formed_greeting nmethods methods = true ->
  accepts (client_out w) 1 = Some out ->
  handle_greeting w = (Ret true, with_client q out w, greeting_events nmethods methods).
Proof.
  intros Hin Hwf Hout. rewrite <- (with_client_same w) at 1.
  apply delivers_cons in Hin. destruct Hin as (q1 & H1 & Hin).
  apply delivers_cons in Hin. destruct Hin as (q2 & H2 & Hin).
  inversion Hin; subst q2; clear Hin.
  apply Nat.eqb_eq in Hwf. rewrite Hwf in H2. cbn [List.length] in H1.
  unfold handle_greeting.
  go. rewrite version_ok. cbn [negb]. go. tidy. reflexivity.
Qed.

Lemma handle_greeting_rejected (w : state) (v nmethods : byte) (q : list arrival) :
  delivers (client_in w) [[v; nmethods]] = Some q ->
  v <> x05 ->
  handle_greeting w
  = (Ret false, with_client q (client_out w) w, [Recv client_socket [v; nmethods]]).
Proof.
  intros Hin Hv. rewrite <- (with_client_same w) at 1.
  apply delivers_cons in Hin. destruct Hin as (q1 & H1 & Hin).
  inversion Hin; subst q1; clear Hin. cbn [List.length] in H1.
  unfold handle_greeting.
  go. rewrite (version_bad v Hv). cbn [negb]. tidy. reflexivity.
Qed.

Lemma int_of_byte_eqb (a b : byte) :
  (int_of_byte a =? int_of_byte b) = Byte.eqb a b.
Proof.
  destruct (Byte.eqb a b) eqn:E.
  - apply Byte.byte_dec_bl in E. subst. apply Z.eqb_refl.
  - apply Z.eqb_neq. intro H. apply int_of_byte_inj in H. subst.
    rewrite (Byte.byte_dec_lb eq_refl) in E. discriminate.
Qed.

Lemma byte_eqb_neq (a b : byte) : a <> b -> Byte.eqb a b = false.
Proof.
  intro H. destruct (Byte.eqb a b) eqn:E; [ | reflexivity].
  apply Byte.byte_dec_bl in E. contradiction.
Qed.

Lemma unsupported_header (v cmd : byte) :
  v <> x05 \/ cmd <> x01 ->
  negb (int_of_byte v =? SOCKS_VERSION) || negb (int_of_byte cmd =? 1) = true.
Proof.
  change SOCKS_VERSION with (int_of_byte x05). change 1 with (int_of_byte x01).
  rewrite !int_of_byte_eqb.
  intros [H | H]; rewrite (byte_eqb_neq _ _ H); cbn; [reflexivity | apply orb_true_r].
Qed.

Lemma supported_header :
  negb (int_of_byte x05 =? SOCKS_VERSION) || negb (int_of_byte x01 =? 1) = false.
Proof. reflexivity. Qed.

Section Requests.

Variable self : environment.

Lemma handle_request_unsupported (w : state) (v cmd rsv atyp : byte)
    (q : list arrival) (out : list write_answer) :
  delivers (client_in w) [[v; cmd; rsv; atyp]] = Some q ->
  v <> x05 \/ cmd <> x01 ->
  accepts (client_out w) 1 = Some out ->
  handle_request self w
  = (Ret None, with_client q out w,
     [Recv client_socket [v; cmd; rsv; atyp]; Send client_socket (socks_reply x05)]).
Proof.
  intros Hin Hbad Hout. rewrite <- (with_client_same w) at 1.
  apply delivers_cons in Hin. destruct Hin as (q1 & H1 & Hin).
  inversion Hin; subst q1; clear Hin. cbn [List.length] in H1.
  unfold handle_request, try_except, send_reply.
  go. rewrite (unsupported_header v cmd Hbad). go. tidy. reflexivity.
Qed.

Lemma handle_request_address_type (w : state) (rsv atyp : byte)
    (q : list arrival) (out : list write_answer) :
  delivers (client_in w) [[x05; x01; rsv; atyp]] = Some q ->
  atyp <> x01 -> atyp <> x03 ->
  accepts (client_out w) 1 = Some out ->
  handle_request self w
  = (Ret None, with_client q out w,
     [Recv client_socket [x05; x01; rsv; atyp]; Send client_socket (socks_reply x08)]).
Proof.
  intros Hin H1' H3' Hout. rewrite <- (with_client_same w) at 1.
  apply delivers_cons in Hin. destruct Hin as (q1 & H1 & Hin).
  inversion Hin; subst q1; clear Hin. cbn [List.length] in H1.
  unfold handle_request, try_except, send_reply.
  go. rewrite supported_header.
  change (int_of_byte atyp =? 1) with (int_of_byte atyp =? int_of_byte x01).
  change (int_of_byte atyp =? 3) with (int_of_byte atyp =? int_of_byte x03).
  rewrite !int_of_byte_eqb, (byte_eqb_neq _ _ H1'), (byte_eqb_neq _ _ H3').
  go. tidy. reflexivity.
Qed.

Lemma connect_destination_connected (w : state) (dest_addr : string) (hi lo : byte)
    (q q' : list arrival) (out out' : list write_answer) :
  recv_queue 2 q = (Ret [hi; lo], q') ->
  socket_result self = None ->
  connect_result self dest_addr (256 * int_of_byte hi + int_of_byte lo) = None ->
  accepts out 1 = Some out' ->
  connect_destination self dest_addr (with_client q out w)
  = (Ret (Some (dest_socket, dest_addr, 256 * int_of_byte hi + int_of_byte lo)),
     with_client q' out' w,
     [Recv client_socket [hi; lo]; Socket;
      Connect dest_addr (256 * int_of_byte hi + int_of_byte lo);
      Send client_socket (socks_reply x00)]).
Proof.
  intros Hport Hsock Hconn Hout.
  unfold connect_destination, socket_socket, connect, send_reply, emit.
  go. tidy. reflexivity.
Qed.

Lemma connect_destination_failed (w : state) (dest_addr : string) (hi lo : byte)
    (q q' : list arrival) (out : list write_answer) (e : exn) :
  recv_queue 2 q = (Ret [hi; lo], q') ->
  socket_result self = None ->
  connect_result self dest_addr (256 * int_of_byte hi + int_of_byte lo) = Some e ->
  connect_destination self dest_addr (with_client q out w)
  = (Exc e, with_client q' out w, [Recv client_socket [hi; lo]; Socket]).
Proof.
  intros Hport Hsock Hconn.
  unfold connect_destination, socket_socket, connect, send_reply, emit.
  go. tidy. reflexivity.
Qed.


Lemma handle_request_connect_failed (w : state) (r : connect_request)
    (q : list arrival) (out : list write_answer) (e : exn) :
  delivers (client_in w) (request_fields r) = Some q ->
  well_formed_request r = true ->
  socket_result self = None ->
  connect_result self (destination_text (req_dst r)) (destination_port r) = Some e ->
  accepts (client_out w) 1 = Some out ->
  handle_request self w
  = (Ret None, with_client q out w,
     request_events r ++ [Socket; Send client_socket (socks_reply x01)]).
Proof.
  intros Hin Hwf Hsock Hconn Hout. rewrite <- (with_client_same w) at 1.
  destruct r as [rsv [a b c d | len name] hi lo];
    unfold request_fields, request_events, destination_port, well_formed_request in *;
    cbn [req_rsv req_dst req_port_hi req_port_lo atyp_of address_fields
           destination_text app map] in *.
  - apply delivers_cons in Hin. destruct Hin as (q1 & H1 & Hin).
    apply delivers_cons in Hin. destruct Hin as (q2 & H2 & Hin).
    apply delivers_cons in Hin. destruct Hin as (q3 & H3 & Hin).
    inversion Hin; subst q3; clear Hin. cbn [List.length] in *.
    unfold handle_request, try_except.
    go. rewrite supported_header. change (int_of_byte x01 =? 1) with true.
    cbv beta iota. go.
    erewrite connect_destination_failed by eassumption.
    unfold send_reply. go. tidy. reflexivity.
  - apply delivers_cons in Hin. destruct Hin as (q1 & H1 & Hin).
    apply delivers_cons in Hin. destruct Hin as (q2 & H2 & Hin).
    apply delivers_cons in Hin. destruct Hin as (q3 & H3 & Hin).
    apply delivers_cons in Hin. destruct Hin as (q4 & H4 & Hin).
    inversion Hin; subst q4; clear Hin.
    apply andb_prop in Hwf. destruct Hwf as [Hlen Hutf].
    apply Nat.eqb_eq in Hlen. rewrite Hlen in H3. cbn [List.length] in *.
    unfold handle_request, try_except.
    go. rewrite supported_header.
    change (int_of_byte x03 =? 1) with false. change (int_of_byte x03 =? 3) with true.
    cbv beta iota. go. unfold decode_utf8. rewrite Hutf.
    go.
    erewrite connect_destination_failed by eassumption.
    unfold send_reply. go. tidy. reflexivity.
Qed.

End Requests.

(** ** The shape of [relay_data] and of [run] *)

Lemma establishes_then {A B} (Q : outcome B -> state -> Prop) (m : M A) (k : A -> M B) :
  (forall e w, Q (Exc e) w) -> (forall w, Q Hang w) ->
  (forall a, establishes Q (k a)) -> establishes Q (bind m k).
Proof.
  intros He Hh Hk.
  apply (establishes_bind (fun _ _ => True) Q); auto using establishes_anything.
  intros a w _. apply Hk.
Qed.

Lemma establishes_try_except {A} (Q : outcome A -> state -> Prop) (m : M A)
    (h : exn -> M A) :
  establishes Q m -> (forall e, establishes Q (h e)) -> establishes Q (try_except m h).
Proof.
  intros Hm Hh w. specialize (Hm w). unfold try_except.
  destruct (m w) as [[[a | e | ] w1] t1]; cbn in *; auto.
  specialize (Hh e w1). destruct (h e w1) as [[o2 w2] t2]. exact Hh.
Qed.

Ltac est :=
  repeat first
    [ assumption
    | match goal with
      | H : forall x, establishes _ (?f x) |- establishes _ (?f _) => apply H
      end
    | apply establishes_then; [ intros; exact Logic.I | intros; exact Logic.I | intros ? ]
    | match goal with
      | |- establishes _ (if ?c then _ else _) => destruct c
      | |- establishes _ (match ?x with _ => _ end) => destruct x
      | |- establishes _ (ret _) => intro; cbn; try exact Logic.I
      end ].

Lemma connect_destination_returns_destination (self : environment) (dest_addr : string) :
  establishes returns_destination (connect_destination self dest_addr).
Proof.
  unfold connect_destination.
  apply establishes_then; [intros; exact Logic.I | intros; exact Logic.I | intro port_bytes].
  apply establishes_then; [intros; exact Logic.I | intros; exact Logic.I | intro dest_port].
  apply (establishes_bind (fun o _ => forall d, o = Ret d -> d = dest_socket)
           returns_destination).
  - intro w. unfold socket_socket. destruct (socket_result self); cbn;
      intros d H; inversion H; reflexivity.
  - intros; exact Logic.I.
  - intros; exact Logic.I.
  - intros d w H. rewrite (H d eq_refl). revert w. est. reflexivity.
Qed.

Lemma handle_request_returns_destination (self : environment) :
  establishes returns_destination (handle_request self).
Proof.
  pose proof (connect_destination_returns_destination self) as Hcd.
  unfold handle_request.
  apply establishes_try_except; [ | intro e ]; est.
Qed.

Lemma relay_data_shape (self : environment) (w : state) :
  exists rl,
    Forall (fun ev => copy_event ev = true) rl
    /\ counted (reset_counters w) (final (relay_data self dest_socket w)) rl
    /\ events (relay_data self dest_socket w)
       = rl ++ match result (relay_data self dest_socket w) with
               | Hang => []
               | _ => [Close dest_socket]
               end
    /\ match result (relay_data self dest_socket w) with
       | Ret (sent, received) =>
           sent = bytes_sent (final (relay_data self dest_socket w))
           /\ received = bytes_received (final (relay_data self dest_socket w))
       | Exc e => is_ConnectionResetError e = false
       | Hang => True
       end.
Proof.
  pose proof (relay_while_copies (select_results self) (reset_counters w)) as Hcopy.
  pose proof (relay_while_counted (select_results self) (reset_counters w)) as Hcount.
  pose proof (relay_while_returns_counters dest_socket (select_results self)
                (reset_counters w)) as Hret.
  pose proof (relay_while_never_falls_through dest_socket (select_results self)
                (reset_counters w)) as Hfall.
  destruct (relay_while dest_socket (select_results self) (reset_counters w))
    as [[o w1] t1] eqn:E.
  unfold only, never_falls_through in *. cbn [result final events fst snd] in *.
  exists t1.
  destruct o as [[[sent received] | ] | e | ].
  - rewrite (relay_data_returned self dest_socket w w1 t1 (sent, received) E).
    cbn. auto.
  - congruence.
  - destruct (is_ConnectionResetError e) eqn:R.
    + rewrite (relay_data_reset self dest_socket w w1 t1 e E R). cbn. auto.
    + rewrite (relay_data_raised self dest_socket w w1 t1 e E R). cbn. auto.
  - rewrite (relay_data_blocked self dest_socket w w1 t1 E). cbn.
    rewrite app_nil_r. auto.
Qed.

(** The three shapes of a session: it stops before the start record;
    or [db_log_start] raises and the relay is skipped; or the relay runs. *)
Lemma run_shape (self : environment) (w : state) :
  (exists hs fin,
      Forall (fun ev => handshake_event ev = true) hs
      /\ events (run self w) = hs ++ fin
      /\ ((result (run self w) = Hang /\ fin = [])
          \/ (result (run self w) = Ret tt /\ fin = [Close client_socket])
          \/ (exists e,
                 result (run self w) = log_outcome (database_at_error self)
                 /\ fin = [error_record self e; Close client_socket])))
  \/ (exists hs w2 dest_addr dest_port e,
         Forall (fun ev => handshake_event ev = true) hs
         /\ log_outcome (database_at_start self) = Exc e
         /\ run self w
            = (log_outcome (database_at_error self), w2,
               hs ++ [LogStart (session_id self) (client_address self) dest_addr dest_port;
                      error_record self e; Close client_socket]))
  \/ (exists hs w2 dest_addr dest_port,
         Forall (fun ev => handshake_event ev = true) hs
         /\ log_outcome (database_at_start self) = Ret tt
         /\ run self w
            = (session_result self (result (relay_data self dest_socket w2)),
               final (relay_data self dest_socket w2),
               hs ++ LogStart (session_id self) (client_address self) dest_addr dest_port
                  :: events (relay_data self dest_socket w2)
                  ++ session_end self (result (relay_data self dest_socket w2)))).
Proof.
  pose proof (handle_greeting_events w) as Hg.
  destruct (handle_greeting w) as [[o1 w1] t1] eqn:E1.
  unfold only in Hg. cbn [events snd] in Hg.
  destruct o1 as [[ | ] | e | ].
  - pose proof (handle_request_events self w1) as Hr.
    pose proof (handle_request_returns_destination self w1) as Hd.
    destruct (handle_request self w1) as [[o2 w2] t2] eqn:E2.
    unfold only in Hr. cbn [events result final fst snd] in Hr, Hd.
    assert (Hhs : Forall (fun ev => handshake_event ev = true) (t1 ++ t2))
      by (apply Forall_app; split; assumption).
    destruct o2 as [[[[dest dest_addr] dest_port] | ] | e | ].
    + right. cbn in Hd. subst dest.
      destruct (log_outcome_cases (database_at_start self)) as [Hs | [e Hs]].
      * right. exists (t1 ++ t2), w2, dest_addr, dest_port.
        split; [exact Hhs | ]. split; [exact Hs | ].
        destruct (relay_data self dest_socket w2) as [[o3 w3] t3] eqn:E3.
        cbn [result final events fst snd].
        rewrite (run_relay_ended _ _ _ _ _ _ _ _ _ _ _ _ E1 E2 Hs E3).
        rewrite <- app_assoc. reflexivity.
      * left. exists (t1 ++ t2), w2, dest_addr, dest_port, e.
        split; [exact Hhs | ]. split; [exact Hs | ].
        rewrite (run_start_raised _ _ _ _ _ _ _ _ _ _ E1 E2 Hs).
        rewrite <- app_assoc. reflexivity.
    + left. rewrite (run_request_refused _ _ _ _ _ _ E1 E2).
      exists (t1 ++ t2), [Close client_socket].
      rewrite <- app_assoc. cbn. eauto 10.
    + left. rewrite (run_request_raised _ _ _ _ _ _ _ E1 E2).
      exists (t1 ++ t2), [error_record self e; Close client_socket].
      rewrite <- app_assoc. cbn. eauto 10.
    + left. rewrite (run_request_blocked _ _ _ _ _ _ E1 E2).
      exists (t1 ++ t2), []. rewrite app_nil_r. cbn. eauto 10.
  - left. rewrite (run_greeting_rejected _ _ _ _ E1).
    exists t1, [Close client_socket]. cbn. eauto 10.
  - left. rewrite (run_greeting_raised _ _ _ _ _ E1).
    exists t1, [error_record self e; Close client_socket].
    cbn. eauto 10.
  - left. rewrite (run_greeting_blocked _ _ _ _ E1).
    exists t1, []. rewrite app_nil_r. cbn. eauto 10.
Qed.

(** ** Kinds of events *)

Lemma split_unique (p : event -> bool) (l1 l2 pre post : list event) (a b : event) :
  Forall (fun ev => p ev = false) l1 ->
  Forall (fun ev => p ev = false) l2 ->
  p b = true ->
  l1 ++ a :: l2 = pre ++ b :: post ->
  pre = l1 /\ b = a /\ post = l2.
Proof.
  intros H1 H2 Hb. revert pre.
  induction H1 as [ | x l1 Hx H1 IH]; intros [ | y pre] H; cbn in H.
  - inversion H; subst. auto.
  - inversion H; subst. rewrite Forall_forall in H2.
    rewrite (H2 b) in Hb; [discriminate | ]. apply in_or_app. right. left. reflexivity.
  - inversion H; subst. congruence.
  - injection H as -> H. destruct (IH pre H) as (-> & -> & ->). auto.
Qed.

Lemma Forall_weaken (p q : event -> bool) (b : bool) (tr : list event) :
  (forall ev, p ev = true -> q ev = b) ->
  Forall (fun ev => p ev = true) tr -> Forall (fun ev => q ev = b) tr.
Proof. intros Hpq H. eapply Forall_impl; [ | exact H]. exact Hpq. Qed.

Lemma handshake_not_log_start (ev : event) :
  handshake_event ev = true -> is_log_start ev = false.
Proof. destruct ev; try reflexivity; discriminate. Qed.

Lemma relay_not_log_start (ev : event) :
  relay_event ev = true -> is_log_start ev = false.
Proof. destruct ev; try reflexivity; discriminate. Qed.

Lemma handshake_not_error_end (ev : event) :
  handshake_event ev = true -> is_error_end ev = false.
Proof. destruct ev; try reflexivity; discriminate. Qed.

Lemma relay_not_error_end (ev : event) :
  relay_event ev = true -> is_error_end ev = false.
Proof. destruct ev; try reflexivity; discriminate. Qed.

Lemma relay_data_events (self : environment) (w : state) :
  Forall (fun ev => relay_event ev = true) (events (relay_data self dest_socket w)).
Proof.
  destruct (relay_data_shape self w) as (rl & Hrl & _ & -> & _).
  apply Forall_app. split.
  - eapply Forall_impl; [ | exact Hrl]. intros [] H; try discriminate; reflexivity.
  - destruct (result (relay_data self dest_socket w)); repeat constructor.
Qed.

Lemma session_end_no_start (self : environment) (o : outcome (Z * Z)) :
  Forall (fun ev => is_log_start ev = false) (session_end self o).
Proof.
  unfold session_end, error_record.
  destruct o as [[sent received] | e | ]; try destruct (log_outcome _);
    repeat constructor.
Qed.

Lemma count_zero (p : event -> bool) (tr : list event) :
  Forall (fun ev => p ev = false) tr -> count p tr = 0%nat.
Proof.
  intro H. induction H as [ | ev tr Hev _ IH]; [reflexivity | ].
  unfold count in *. cbn. rewrite Hev. exact IH.
Qed.


Lemma count_cons (p : event -> bool) (ev : event) (tr : list event) :
  count p (ev :: tr) = ((if p ev then 1 else 0) + count p tr)%nat.
Proof. unfold count. cbn. destruct (p ev); reflexivity. Qed.

Lemma handshake_not_log (ev : event) : handshake_event ev = true -> is_log ev = false.
Proof. destruct ev; try reflexivity; discriminate. Qed.

Lemma handshake_not_log_end (ev : event) :
  handshake_event ev = true -> is_log_end ev = false.
Proof. destruct ev; try reflexivity; discriminate. Qed.

Lemma relay_not_log_end (ev : event) : relay_event ev = true -> is_log_end ev = false.
Proof. destruct ev; try reflexivity; discriminate. Qed.

Lemma copy_not_close (s : socket) (ev : event) :
  copy_event ev = true -> is_close s ev = false.
Proof. destruct ev; try reflexivity; discriminate. Qed.

Lemma handshake_not_close (s : socket) (ev : event) :
  handshake_event ev = true -> is_close s ev = false.
Proof. destruct ev; try reflexivity; discriminate. Qed.

Lemma relay_not_close_client (ev : event) :
  relay_event ev = true -> is_close client_socket ev = false.
Proof. destruct ev as [ | | [ | ] | | | | ]; try reflexivity; discriminate. Qed.

Lemma filter_destination_client_reads (fields : list bytes) :
  filter on_destination (map (Recv client_socket) fields) = [].
Proof. induction fields as [ | f fields IH]; [reflexivity | exact IH]. Qed.

(** ** Taking a computation apart *)

Lemma bind_inv {A B} (m : M A) (k : A -> M B) (w w' : state) (o : outcome B)
    (tr : list event) :
  bind m k w = (o, w', tr) ->
  (exists a w1 t1 t2, m w = (Ret a, w1, t1) /\ k a w1 = (o, w', t2) /\ tr = t1 ++ t2)
  \/ (exists e, m w = (Exc e, w', tr) /\ o = Exc e)
  \/ (m w = (Hang, w', tr) /\ o = Hang).
Proof.
  unfold bind. destruct (m w) as [[[a | e | ] w1] t1] eqn:Em.
  - destruct (k a w1) as [[o2 w2] t2] eqn:Ek. intro H. inversion H; subst.
    left. exists a, w1, t1, t2. auto.
  - intro H. inversion H; subst. right. left. eauto.
  - intro H. inversion H; subst. right. right. auto.
Qed.

Lemma recv_events (s : socket) (n : nat) (w w' : state) (o : outcome bytes)
    (tr : list event) :
  recv s n w = (o, w', tr) ->
  tr = match o with
       | Ret data => [Recv s data]
       | _ => []
       end.
Proof.
  unfold recv. destruct (recv_queue n (incoming s w)) as [o1 q].
  intro H. inversion H; subst. reflexivity.
Qed.

Lemma recv_length (s : socket) (n : nat) (w w' : state) (data : bytes) (tr : list event) :
  recv s n w = (Ret data, w', tr) -> (List.length data <= n)%nat.
Proof.
  unfold recv. destruct n as [ | n]; cbn [recv_queue].
  - intro H. inversion H. cbn. lia.
  - destruct (incoming s w) as [ | [chunk | | e] q]; intro H; inversion H; subst.
    + exact (firstn_le_length (S n) chunk).
    + cbn. lia.
Qed.

Lemma recv_returned (s : socket) (n : nat) (w w' : state) (data : bytes) (tr : list event) :
  recv s n w = (Ret data, w', tr) -> tr = [Recv s data].
Proof. intro H. exact (recv_events _ _ _ _ _ _ H). Qed.

Lemma sendall_returned (s : socket) (data : bytes) (w w' : state) (u : unit)
    (tr : list event) :
  sendall s data w = (Ret u, w', tr) -> tr = [Send s data].
Proof.
  unfold sendall. destruct (outgoing s w) as [ | [ | e | ] rest]; intro H;
    inversion H; reflexivity.
Qed.

Lemma read_from_app (s : socket) (t1 t2 : list event) :
  read_from s (t1 ++ t2) = read_from s t1 ++ read_from s t2.
Proof.
  induction t1 as [ | [] t1 IH]; cbn [app read_from]; try exact IH; try reflexivity.
  rewrite IH, app_assoc. reflexivity.
Qed.

Lemma written_to_app (s : socket) (t1 t2 : list event) :
  written_to s (t1 ++ t2) = written_to s t1 ++ written_to s t2.
Proof.
  induction t1 as [ | [] t1 IH]; cbn [app written_to]; try exact IH; try reflexivity.
  rewrite IH, app_assoc. reflexivity.
Qed.

Lemma recv_keeps_outgoing (s s' : socket) (n : nat) (w w' : state) (o : outcome bytes)
    (tr : list event) :
  recv s n w = (o, w', tr) -> outgoing s' w' = outgoing s' w.
Proof.
  unfold recv. destruct (recv_queue n (incoming s w)) as [o1 q].
  intro H. inversion H. destruct s, s'; reflexivity.
Qed.

(** ** The chunks of the relay *)

Lemma bytes_eqb_refl (x : bytes) : bytes_eqb x x = true.
Proof. unfold bytes_eqb. destruct (list_eq_dec Byte.byte_eq_dec x x); congruence. Qed.

Lemma sock_is_refl (s : socket) : sock_is s s = true.
Proof. destruct s; reflexivity. Qed.

Lemma relayed_copy (source target : socket) (c : socket * bytes) (tr : list event) :
  relayed source target (copy c ++ tr)
  = (if sock_is (fst c) source && sock_is (peer (fst c)) target
     then Z.of_nat (List.length (snd c)) else 0)
    + relayed source target tr.
Proof.
  destruct c as [s data]. cbn [copy fst snd app relayed].
  rewrite bytes_eqb_refl, andb_true_r. reflexivity.
Qed.

Lemma relayed_copies_app (source target : socket) (cs : list (socket * bytes))
    (tr : list event) :
  relayed source target (copies cs ++ tr)
  = relayed source target (copies cs) + relayed source target tr.
Proof.
  induction cs as [ | c cs IH]; [reflexivity | ].
  unfold copies in *. cbn [flat_map]. rewrite <- app_assoc, !relayed_copy, IH. lia.
Qed.

Lemma copies_app (cs1 cs2 : list (socket * bytes)) :
  copies (cs1 ++ cs2) = copies cs1 ++ copies cs2.
Proof. unfold copies. apply flat_map_app. Qed.

Lemma follows_refl (w : state) : follows w w [].
Proof. unfold follows. cbn. lia. Qed.

Lemma follows_copies (w1 w2 w3 : state) (cs1 cs2 : list (socket * bytes)) :
  follows w1 w2 (copies cs1) -> follows w2 w3 (copies cs2) ->
  follows w1 w3 (copies (cs1 ++ cs2)).
Proof.
  unfold follows. rewrite copies_app, !relayed_copies_app. lia.
Qed.

Lemma count_sent_to_copy (s : socket) (c : socket * bytes) :
  count (sent_to s) (copy c) = if sock_is (peer (fst c)) s then 1%nat else 0%nat.
Proof.
  destruct c as [s' data]. unfold count. cbn. destruct (sock_is (peer s') s); reflexivity.
Qed.

Lemma recv_keeps_counters (s : socket) (n : nat) (w w' : state) (o : outcome bytes)
    (tr : list event) :
  recv s n w = (o, w', tr) ->
  bytes_sent w' = bytes_sent w /\ bytes_received w' = bytes_received w.
Proof.
  unfold recv. destruct (recv_queue n (incoming s w)) as [o1 q].
  intro H. inversion H. destruct s; auto.
Qed.

(** What one [sendall] does, by the answer it finds. *)
Lemma sendall_cases (s : socket) (data : bytes) (w : state) :
  (sendall s data w = (Ret tt, set_outgoing s (skipn 1 (outgoing s w)) w, [Send s data])
   /\ refuses (nth_error (outgoing s w) 0) = false)
  \/ (exists e, sendall s data w = (Exc e, set_outgoing s (skipn 1 (outgoing s w)) w, [])
                /\ nth_error (outgoing s w) 0 = Some (WriteError e))
  \/ (sendall s data w = (Hang, set_outgoing s (skipn 1 (outgoing s w)) w, [])
      /\ nth_error (outgoing s w) 0 = Some WriteBlocks).
Proof.
  unfold sendall. destruct (outgoing s w) as [ | [ | e | ] rest] eqn:E; cbn.
  - left. split; [ | reflexivity]. f_equal. f_equal.
    destruct s, w; cbn in *; subst; reflexivity.
  - left. auto.
  - right. left. eauto.
  - right. right. auto.
Qed.

Lemma set_outgoing_other (s s' : socket) (q : list write_answer) (w : state) :
  outgoing s' (set_outgoing s q w) = if sock_is s s' then q else outgoing s' w.
Proof. destruct s, s'; reflexivity. Qed.

Lemma relayed_by_nothing (w : state) : relayed_by w (Ret None) w [].
Proof.
  exists [], []. repeat split; try apply follows_refl; auto.
Qed.

(** A copy in front of what the loop does next. *)
Lemma relayed_by_copy (sock : socket) (chunk : bytes) (w w2 w' : state)
    (o : outcome (option (Z * Z))) (tr : list event) :
  chunk_sized (sock, chunk) ->
  follows w w2 (copy (sock, chunk)) ->
  (forall s, outgoing s w2
             = skipn (count (sent_to s) (copy (sock, chunk))) (outgoing s w)) ->
  relayed_by w2 o w' tr ->
  relayed_by w o w' (copy (sock, chunk) ++ tr).
Proof.
  intros Hsize Hfollow Hout (cs & last & -> & Hcs & Hf & Hend).
  exists ((sock, chunk) :: cs), last.
  split; [unfold copies; cbn [flat_map]; rewrite <- app_assoc; reflexivity | ].
  split; [constructor; assumption | ].
  split.
  { change ((sock, chunk) :: cs) with ([(sock, chunk)] ++ cs).
    eapply follows_copies; [ | exact Hf].
    unfold copies. cbn [flat_map]. rewrite app_nil_r. exact Hfollow. }
  assert (Hcount : forall s,
             count (sent_to s) (copies ((sock, chunk) :: cs))
             = (count (sent_to s) (copy (sock, chunk)) + count (sent_to s) (copies cs))%nat).
  { intro s. unfold copies. cbn [flat_map]. apply count_app. }
  assert (Hnth : forall s i,
             nth_error (outgoing s w2) i
             = nth_error (outgoing s w) (count (sent_to s) (copy (sock, chunk)) + i)).
  { intros s i. rewrite Hout. apply nth_error_skipn. }
  destruct o as [[[sent received] | ] | e | ].
  - exact Hend.
  - destruct Hend as [-> Hskip]. split; [reflexivity | ].
    intro s. rewrite (Hskip s), (Hout s), skipn_skipn, (Hcount s). f_equal. lia.
  - destruct Hend as [-> | (s & data & -> & Hd & Hn)]; [left; reflexivity | right].
    exists s, data. split; [reflexivity | ]. split; [exact Hd | ].
    rewrite (Hcount (peer s)), <- Hnth. exact Hn.
  - destruct Hend as [-> | (s & data & -> & Hd & Hn)]; [left; reflexivity | right].
    exists s, data. split; [reflexivity | ]. split; [exact Hd | ].
    rewrite (Hcount (peer s)), <- Hnth. exact Hn.
Qed.

(** Rounds that went through, and what the loop does next. *)
Lemma relayed_by_trans (w w1 w' : state) (o : outcome (option (Z * Z)))
    (t1 t2 : list event) :
  relayed_by w (Ret None) w1 t1 ->
  relayed_by w1 o w' t2 ->
  relayed_by w o w' (t1 ++ t2).
Proof.
  intros (cs1 & last1 & -> & Hcs1 & Hf1 & -> & Hout) (cs2 & last2 & -> & Hcs2 & Hf2 & Hend).
  rewrite app_nil_r.
  exists (cs1 ++ cs2), last2.
  split; [rewrite copies_app, app_assoc; reflexivity | ].
  split; [apply Forall_app; split; assumption | ].
  split; [eapply follows_copies; eassumption | ].
  assert (Hcount : forall s,
             count (sent_to s) (copies (cs1 ++ cs2))
             = (count (sent_to s) (copies cs1) + count (sent_to s) (copies cs2))%nat).
  { intro s. rewrite copies_app. apply count_app. }
  assert (Hnth : forall s i,
             nth_error (outgoing s w1) i
             = nth_error (outgoing s w) (count (sent_to s) (copies cs1) + i)).
  { intros s i. rewrite Hout. apply nth_error_skipn. }
  destruct o as [[[sent received] | ] | e | ].
  - exact Hend.
  - destruct Hend as [-> Hskip]. split; [reflexivity | ].
    intro s. rewrite (Hskip s), (Hout s), skipn_skipn, (Hcount s). f_equal. lia.
  - destruct Hend as [-> | (s & data & -> & Hd & Hn)]; [left; reflexivity | right].
    exists s, data. split; [reflexivity | ]. split; [exact Hd | ].
    rewrite (Hcount (peer s)), <- Hnth. exact Hn.
  - destruct Hend as [-> | (s & data & -> & Hd & Hn)]; [left; reflexivity | right].
    exists s, data. split; [reflexivity | ]. split; [exact Hd | ].
    rewrite (Hcount (peer s)), <- Hnth. exact Hn.
Qed.

(** The write of a chunk that was read from [sock], with the counting
    [tally] that follows it, and then the rest [k] of the loop. *)
Lemma copy_relayed_by (sock : socket) (chunk : bytes) (tally : M unit)
    (k : M (option (Z * Z))) (w w1 w' : state) (o : outcome (option (Z * Z)))
    (tr : list event) :
  chunk_sized (sock, chunk) ->
  (forall s, outgoing s w1 = outgoing s w) ->
  bytes_sent w1 = bytes_sent w -> bytes_received w1 = bytes_received w ->
  (forall w2, exists w3,
      tally w2 = (Ret tt, w3, [])
      /\ (forall s, outgoing s w3 = outgoing s w2)
      /\ bytes_sent w3
         = bytes_sent w2
           + (if sock_is sock client_socket then Z.of_nat (List.length chunk) else 0)
      /\ bytes_received w3
         = bytes_received w2
           + (if sock_is sock dest_socket then Z.of_nat (List.length chunk) else 0)) ->
  (forall w3 o w' tr, k w3 = (o, w', tr) -> relayed_by w3 o w' tr) ->
  ((sendall (peer sock) chunk ;; tally) ;; k) w1 = (o, w', tr) ->
  relayed_by w o w' (Recv sock chunk :: tr).
Proof.
  intros Hsize Hout Hsent Hreceived Htally Hk H.
  apply bind_inv in H.
  destruct H as [(u & w3 & t1 & t2 & Hbody & Hrest & ->) | [(e & Hbody & ->) | (Hbody & ->)]].
  - apply bind_inv in Hbody.
    destruct Hbody as [(u' & w2 & t1' & t2' & Hsend & Hcount & ->)
                      | [(e & _ & ?) | (_ & ?)]]; try discriminate.
    destruct (Htally w2) as (w3' & Et & Ho3 & Hs3 & Hr3).
    rewrite Et in Hcount. inversion Hcount; subst w3' t2'. clear Hcount.
    destruct (sendall_cases (peer sock) chunk w1)
      as [[Es _] | [(e & Es & _) | [Es _]]]; rewrite Es in Hsend; try discriminate.
    inversion Hsend; subst w2 t1'. clear Hsend.
    change (Recv sock chunk :: ([Send (peer sock) chunk] ++ []) ++ t2)
      with (copy (sock, chunk) ++ t2).
    apply relayed_by_copy with (w2 := w3); [exact Hsize | | | exact (Hk _ _ _ _ Hrest)].
    + unfold follows. rewrite !(relayed_copy _ _ (sock, chunk) []). cbn [fst snd relayed].
      rewrite Hs3, Hr3. destruct sock; cbn; split; destruct w1; cbn in *; lia.
    + intro s. rewrite Ho3, set_outgoing_other, count_sent_to_copy. cbn [fst].
      destruct (sock_is (peer sock) s) eqn:E.
      * assert (Hs : s = peer sock) by (destruct sock, s; try discriminate; reflexivity).
        subst s. rewrite (Hout (peer sock)). reflexivity.
      * rewrite (Hout s). reflexivity.
  - apply bind_inv in Hbody.
    destruct Hbody as [(u' & w2 & t1' & t2' & Hsend & Hcount & ->)
                      | [(e' & Hsend & He) | (_ & ?)]]; try discriminate.
    { destruct (Htally w2) as (w3' & Et & _). rewrite Et in Hcount. discriminate. }
    inversion He; subst e'. clear He.
    destruct (sendall_cases (peer sock) chunk w1)
      as [[Es _] | [(e' & Es & Hn) | [Es _]]]; rewrite Es in Hsend; try discriminate.
    inversion Hsend; subst.
    exists [], [Recv sock chunk]. split; [reflexivity | ].
    split; [constructor | ]. split.
    + unfold follows. cbn. destruct sock, w1; cbn in *; lia.
    + right. exists sock, chunk. split; [reflexivity | ]. split; [exact Hsize | ].
      rewrite <- Hout. exact Hn.
  - apply bind_inv in Hbody.
    destruct Hbody as [(u' & w2 & t1' & t2' & Hsend & Hcount & ->)
                      | [(e' & _ & ?) | (Hsend & _)]]; try discriminate.
    { destruct (Htally w2) as (w3' & Et & _). rewrite Et in Hcount. discriminate. }
    destruct (sendall_cases (peer sock) chunk w1)
      as [[Es _] | [(e' & Es & _) | [Es Hn]]]; rewrite Es in Hsend; try discriminate.
    inversion Hsend; subst.
    exists [], [Recv sock chunk]. split; [reflexivity | ].
    split; [constructor | ]. split.
    + unfold follows. cbn. destruct sock, w1; cbn in *; lia.
    + right. exists sock, chunk. split; [reflexivity | ]. split; [exact Hsize | ].
      rewrite <- Hout. exact Hn.
Qed.

(** One pass over the sockets that [select] reported. *)
Lemma relay_for_relayed_by (readable_sockets : list socket) :
  forall w o w' tr,
    relay_for dest_socket readable_sockets w = (o, w', tr) -> relayed_by w o w' tr.
Proof.
  induction readable_sockets as [ | sock rest IH]; intros w o w' tr H.
  - inversion H; subst. apply relayed_by_nothing.
  - cbn [relay_for] in H. apply bind_inv in H.
    destruct H as [(data & w1 & t1 & t2 & Hrecv & Hrest & ->)
                  | [(e & Hrecv & ->) | (Hrecv & ->)]].
    + pose proof (recv_returned _ _ _ _ _ _ Hrecv) as ->.
      pose proof (recv_length _ _ _ _ _ _ Hrecv) as Hlen.
      destruct (recv_keeps_counters _ _ _ _ _ _ Hrecv) as [Hs Hr].
      assert (Hout : forall s, outgoing s w1 = outgoing s w)
        by (intro s; exact (recv_keeps_outgoing _ s _ _ _ _ _ Hrecv)).
      destruct data as [ | b data].
      * inversion Hrest; subst. exists [], [Recv sock []].
        split; [reflexivity | ]. split; [constructor | ].
        split; [unfold follows; cbn; lia | ]. eauto.
      * cbn [app].
        assert (Hsize : chunk_sized (sock, b :: data))
          by (split; [cbn; lia | exact Hlen]).
        destruct sock; cbn [sock_is] in Hrest;
          (eapply (copy_relayed_by _ _ _ _ w w1 _ _ _ Hsize Hout Hs Hr);
           [ | exact IH | exact Hrest]);
          intro w2; eexists; (split; [reflexivity | ]);
          (split; [intros []; reflexivity | ]); cbn; split; lia.
    + pose proof (recv_events _ _ _ _ _ _ Hrecv) as ->.
      destruct (recv_keeps_counters _ _ _ _ _ _ Hrecv) as [Hs Hr].
      exists [], []. split; [reflexivity | ]. split; [constructor | ].
      split; [unfold follows; cbn; lia | ]. left. reflexivity.
    + pose proof (recv_events _ _ _ _ _ _ Hrecv) as ->.
      destruct (recv_keeps_counters _ _ _ _ _ _ Hrecv) as [Hs Hr].
      exists [], []. split; [reflexivity | ]. split; [constructor | ].
      split; [unfold follows; cbn; lia | ]. left. reflexivity.
Qed.

(** The rounds of the loop, one per answer of [select]. *)
Lemma relay_while_relayed_by (ready : list (list socket)) :
  forall w o w' tr,
    relay_while dest_socket ready w = (o, w', tr) -> relayed_by w o w' tr.
Proof.
  induction ready as [ | readable_sockets later IH]; intros w o w' tr H.
  - inversion H; subst. exists [], []. split; [reflexivity | ].
    split; [constructor | ]. split; [apply follows_refl | ]. left. reflexivity.
  - cbn [relay_while] in H. apply bind_inv in H.
    destruct H as [(r & w1 & t1 & t2 & Hfor & Hrest & ->)
                  | [(e & Hfor & ->) | (Hfor & ->)]].
    + apply relay_for_relayed_by in Hfor. destruct r as [counts | ].
      * inversion Hrest; subst. rewrite app_nil_r. exact Hfor.
      * apply IH in Hrest. eapply relayed_by_trans; eassumption.
    + exact (relay_for_relayed_by _ _ _ _ _ Hfor).
    + exact (relay_for_relayed_by _ _ _ _ _ Hfor).
Qed.

Lemma relayed_by_last (w w' : state) (o : outcome (option (Z * Z))) (tr : list event) :
  relayed_by w o w' tr ->
  exists cs last,
    tr = copies cs ++ last
    /\ Forall chunk_sized cs
    /\ follows w w' (copies cs)
    /\ (last = [] \/ exists s data, last = [Recv s data]
                                    /\ (List.length data <= BUFFER_SIZE)%nat).
Proof.
  intros (cs & last & Htr & Hcs & Hf & Hend). exists cs, last.
  split; [exact Htr | ]. split; [exact Hcs | ]. split; [exact Hf | ].
  destruct o as [[[sent received] | ] | e | ].
  - destruct Hend as [[s ->] _]. right. exists s, []. split; [reflexivity | cbn; lia].
  - left. exact (proj1 Hend).
  - destruct Hend as [-> | (s & data & -> & Hd & _)]; [left; reflexivity | right].
    exists s, data. split; [reflexivity | exact (proj2 Hd)].
  - destruct Hend as [-> | (s & data & -> & Hd & _)]; [left; reflexivity | right].
    exists s, data. split; [reflexivity | exact (proj2 Hd)].
Qed.

Lemma relayed_by_follows (w w' : state) (o : outcome (option (Z * Z))) (tr : list event) :
  relayed_by w o w' tr -> follows w w' tr.
Proof.
  intro H. apply relayed_by_last in H.
  destruct H as (cs & last & -> & _ & Hf & Hlast).
  unfold follows in *. rewrite !relayed_copies_app.
  destruct Hlast as [-> | (s & data & -> & _)]; cbn [relayed]; lia.
Qed.

Lemma relayed_closed (source target : socket) (tr : list event) (dest : socket) :
  relayed source target (tr ++ [Close dest]) = relayed source target tr.
Proof.
  induction tr as [ | ev tr IH]; [reflexivity | ].
  destruct ev; cbn [app relayed]; try exact IH.
  rewrite IH. destruct tr as [ | [] tr]; reflexivity.
Qed.

Lemma relayed_nonneg (source target : socket) (tr : list event) :
  0 <= relayed source target tr.
Proof.
  induction tr as [ | ev tr IH]; cbn [relayed]; [lia | ].
  destruct ev; try exact IH.
  destruct tr as [ | [] tr]; try lia.
  destruct (sock_is s source && sock_is s0 target && bytes_eqb data data0); lia.
Qed.

Lemma relay_while_follows (ready : list (list socket)) (w : state) :
  follows w (final (relay_while dest_socket ready w))
    (events (relay_while dest_socket ready w)).
Proof.
  destruct (relay_while dest_socket ready w) as [[o w'] tr] eqn:E.
  exact (relayed_by_follows _ _ _ _ (relay_while_relayed_by _ _ _ _ _ E)).
Qed.

(** [relay_data] as its loop and what it makes of the loop's outcome. *)
Lemma relay_data_relayed_by (self : environment) (w : state) :
  exists o w1 t1,
    relayed_by (reset_counters w) o w1 t1
    /\ relay_data self dest_socket w
       = (match o with
          | Ret (Some counts) => Ret counts
          | Ret None => Ret (bytes_sent w1, bytes_received w1)
          | Exc e =>
              if is_ConnectionResetError e then Ret (bytes_sent w1, bytes_received w1)
              else Exc e
          | Hang => Hang
          end,
          w1,
          t1 ++ match o with
                | Hang => []
                | _ => [Close dest_socket]
                end).
Proof.
  destruct (relay_while dest_socket (select_results self) (reset_counters w))
    as [[o w1] t1] eqn:E.
  exists o, w1, t1. split; [exact (relay_while_relayed_by _ _ _ _ _ E) | ].
  destruct o as [[counts | ] | e | ].
  - exact (relay_data_returned self dest_socket w w1 t1 counts E).
  - exfalso.
    exact (relay_while_never_falls_through dest_socket (select_results self)
             (reset_counters w) (f_equal result E)).
  - destruct (is_ConnectionResetError e) eqn:R.
    + exact (relay_data_reset self dest_socket w w1 t1 e E R).
    + exact (relay_data_raised self dest_socket w w1 t1 e E R).
  - rewrite app_nil_r. exact (relay_data_blocked self dest_socket w w1 t1 E).
Qed.

(** The counters that [relay_data] returns are the bytes copied. *)
Lemma relay_data_returns_copied (self : environment) (w w' : state)
    (sent received : Z) (tr : list event) :
  relay_data self dest_socket w = (Ret (sent, received), w', tr) ->
  sent = relayed client_socket dest_socket tr
  /\ received = relayed dest_socket client_socket tr.
Proof.
  intro H. destruct (relay_data_relayed_by self w) as (o & w1 & t1 & Hrel & Hdata).
  rewrite H in Hdata.
  pose proof (relayed_by_follows _ _ _ _ Hrel) as [Hs Hr].
  cbn [reset_counters bytes_sent bytes_received] in Hs, Hr.
  destruct o as [[[a b] | ] | e | ]; try discriminate.
  - inversion Hdata; subst. rewrite !relayed_closed.
    destruct Hrel as (cs & last & _ & _ & _ & _ & -> & ->). lia.
  - inversion Hdata; subst. rewrite !relayed_closed. lia.
  - destruct (is_ConnectionResetError e); inversion Hdata; subst.
    rewrite !relayed_closed. lia.
Qed.

(** ** The byte counters *)

Lemma relay_while_monotone (earlier later : list (list socket)) (w0 : state) :
  bytes_sent (final (relay_while dest_socket earlier w0))
  <= bytes_sent (final (relay_while dest_socket (earlier ++ later) w0))
  /\ bytes_received (final (relay_while dest_socket earlier w0))
     <= bytes_received (final (relay_while dest_socket (earlier ++ later) w0)).
Proof.
  revert w0. induction earlier as [ | readable_sockets earlier IH]; intro w0.
  - cbn [app]. destruct (relay_while_counted later w0) as [Hs Hr].
    pose proof (copied_nonneg dest_socket (events (relay_while dest_socket later w0))).
    pose proof (copied_nonneg client_socket (events (relay_while dest_socket later w0))).
    cbn [relay_while hang final fst snd]. lia.
  - cbn [app relay_while]. unfold bind.
    destruct (relay_for dest_socket readable_sockets w0) as [[[[counts | ] | e | ] w1] t1];
      cbn; try lia.
    specialize (IH w1).
    destruct (relay_while dest_socket earlier w1) as [[o2 w2] t2].
    destruct (relay_while dest_socket (earlier ++ later) w1) as [[o3 w3] t3].
    exact IH.
Qed.

(** C1.  When [relay_data] returns, [bytes_sent] is the number of bytes
    copied from the client to the destination (read from the client and
    written to the destination) and [bytes_received] the number of bytes
    copied from the destination to the client; nothing else was written
    to either socket.  Inside the loop each counter grows by the length
    of each chunk copied in its direction, from any point on and
    whatever the outcome, and after more rounds the counters are never
    smaller than after fewer.  The end record that [run] hands over when
    the relay has returned carries exactly these counts. *)
Theorem relay_data_counts_bytes (self : environment) (w w' : state)
    (sent received : Z) (tr : list event) :
  relay_data self dest_socket w = (Ret (sent, received), w', tr) ->
  sent = relayed client_socket dest_socket tr
  /\ received = relayed dest_socket client_socket tr
  /\ sent = copied dest_socket tr
  /\ received = copied client_socket tr
  /\ (forall ready w0,
         follows w0 (final (relay_while dest_socket ready w0))
           (events (relay_while dest_socket ready w0))
         /\ 0 <= relayed client_socket dest_socket (events (relay_while dest_socket ready w0))
         /\ 0 <= relayed dest_socket client_socket
                   (events (relay_while dest_socket ready w0)))
  /\ (forall earlier later w0,
         bytes_sent (final (relay_while dest_socket earlier w0))
         <= bytes_sent (final (relay_while dest_socket (earlier ++ later) w0))
         /\ bytes_received (final (relay_while dest_socket earlier w0))
            <= bytes_received (final (relay_while dest_socket (earlier ++ later) w0)))
  /\ (forall w0 w1 t1 t2 dest_addr dest_port,
         handle_greeting w0 = (Ret true, w1, t1) ->
         handle_request self w1 = (Ret (Some (dest_socket, dest_addr, dest_port)), w, t2) ->
         log_outcome (database_at_start self) = Ret tt ->
         exists rest,
           filter is_log_end (events (run self w0))
           = LogEnd (session_id self) sent received "closed" None :: rest
           /\ (log_outcome (database_at_end self) = Ret tt -> rest = [])
           /\ (forall e, log_outcome (database_at_end self) = Exc e ->
                         rest = [error_record self e])).
Proof.
  intro H.
  destruct (relay_data_returns_copied self w w' sent received tr H) as [Hsent Hreceived].
  split; [exact Hsent | ]. split; [exact Hreceived | ].
  assert (Hcounts : sent = copied dest_socket tr /\ received = copied client_socket tr).
  { destruct (relay_data_shape self w) as (rl & _ & [Hs Hr] & Hev & Hres).
    rewrite H in *. cbn [result final events fst snd] in *.
    destruct Hres as [-> ->]. subst tr.
    rewrite !copied_app. cbn [copied reset_counters bytes_sent bytes_received] in *.
    lia. }
  split; [exact (proj1 Hcounts) | ]. split; [exact (proj2 Hcounts) | ].
  split.
  { intros ready w0. split; [apply relay_while_follows | ].
    split; apply relayed_nonneg. }
  split; [exact relay_while_monotone | ].
  intros w0 w1 t1 t2 dest_addr dest_port Hg Hr Hstart.
  pose proof (handle_greeting_events w0) as Hge. rewrite Hg in Hge.
  pose proof (handle_request_events self w1) as Hre. rewrite Hr in Hre.
  pose proof (relay_data_events self w) as Hrl. rewrite H in Hrl.
  unfold only in Hge, Hre. cbn [events snd] in Hge, Hre, Hrl.
  rewrite (run_relay_ended _ _ _ _ _ _ _ _ _ _ _ _ Hg Hr Hstart H). cbn [events snd].
  rewrite !filter_app. cbn [filter is_log_end].
  rewrite !filter_app.
  rewrite (filter_none _ _ (Forall_weaken _ _ _ _ handshake_not_log_end Hge)).
  rewrite (filter_none _ _ (Forall_weaken _ _ _ _ handshake_not_log_end Hre)).
  rewrite (filter_none _ _ (Forall_weaken _ _ _ _ relay_not_log_end Hrl)).
  cbn [app session_end filter is_log_end].
  destruct (log_outcome_cases (database_at_end self)) as [Hend | [e Hend]];
    rewrite Hend; cbn [filter is_log_end error_record]; eexists;
    (split; [reflexivity | ]); split; try discriminate; try reflexivity.
  intros e' He'. inversion He'. reflexivity.
Qed.

Lemma relay_data_counts_bytes_witness :
  relay_data echo_thread dest_socket (relay_with Eof)
  = (Ret (3, 4), mkState [] [] [Eof] [] 3 4,
     [Recv client_socket GET; Send dest_socket GET;
      Recv dest_socket HTTP; Send client_socket HTTP;
      Recv dest_socket []; Close dest_socket])
  /\ 3 = relayed client_socket dest_socket
           [Recv client_socket GET; Send dest_socket GET;
            Recv dest_socket HTTP; Send client_socket HTTP;
            Recv dest_socket []; Close dest_socket]
  /\ 4 = relayed dest_socket client_socket
           [Recv client_socket GET; Send dest_socket GET;
            Recv dest_socket HTTP; Send client_socket HTTP;
            Recv dest_socket []; Close dest_socket].
Proof.
  split; [reflexivity | ].
  pose proof (relay_data_counts_bytes echo_thread (relay_with Eof)
                (mkState [] [] [Eof] [] 3 4) 3 4 _ eq_refl) as H.
  exact (conj (proj1 H) (proj1 (proj2 H))).
Defined.

(** ** An orderly close *)








(** ** A granted request *)



(** ** A failure in the relay *)

(** C3 (amended).  When the relay loop stops on an exception after a
    successful request, the destination is closed and an end record is
    handed over: for a [ConnectionResetError] it has status "closed", the
    byte counts copied up to the failure and no message; for any other
    exception it has status "error", the message of the exception and
    the counts 0 and 0.  Then the client socket is closed.  (Only if the
    log call for a record of status "closed" itself raises does one more
    end record come in between, of status "error", for the exception of
    that call.) *)
Theorem relay_failure_record (self : environment) (w w1 w2 w3 : state)
    (t1 t2 t3 : list event) (dest_addr : string) (dest_port : Z) (e : exn) :
  handle_greeting w = (Ret true, w1, t1) ->
  handle_request self w1 = (Ret (Some (dest_socket, dest_addr, dest_port)), w2, t2) ->
  log_outcome (database_at_start self) = Ret tt ->
  relay_while dest_socket (select_results self) (reset_counters w2) = (Exc e, w3, t3) ->
  exists outcome_of_run rest,
    run self w
    = (outcome_of_run, w3,
       t1 ++ t2
          ++ LogStart (session_id self) (client_address self) dest_addr dest_port
          :: t3
          ++ [Close dest_socket;
              failure_record self e (relayed client_socket dest_socket t3)
                (relayed dest_socket client_socket t3)]
          ++ rest ++ [Close client_socket])
    /\ (is_ConnectionResetError e = false ->
        rest = [] /\ outcome_of_run = log_outcome (database_at_error self))
    /\ (is_ConnectionResetError e = true ->
        match log_outcome (database_at_end self) with
        | Exc e' =>
            rest = [error_record self e']
            /\ outcome_of_run = log_outcome (database_at_error self)
        | _ => rest = [] /\ outcome_of_run = Ret tt
        end).
Proof.
  intros Hg Hr Hstart Hloop.
  pose proof (relayed_by_follows _ _ _ _ (relay_while_relayed_by _ _ _ _ _ Hloop))
    as [Hs Hrcv].
  cbn [reset_counters bytes_sent bytes_received] in Hs, Hrcv.
  unfold failure_record.
  destruct (is_ConnectionResetError e) eqn:R.
  - pose proof (relay_data_reset self dest_socket w2 w3 t3 e Hloop R) as Hd.
    rewrite (run_relay_ended _ _ _ _ _ _ _ _ _ _ _ _ Hg Hr Hstart Hd).
    rewrite Hs, Hrcv, !Z.add_0_l.
    unfold session_result, session_end.
    destruct (log_outcome_cases (database_at_end self)) as [He | [e' He]]; rewrite He.
    + exists (Ret tt), []. rewrite <- app_assoc. repeat split; discriminate.
    + exists (log_outcome (database_at_error self)), [error_record self e'].
      rewrite <- app_assoc. repeat split; discriminate.
  - pose proof (relay_data_raised self dest_socket w2 w3 t3 e Hloop R) as Hd.
    rewrite (run_relay_ended _ _ _ _ _ _ _ _ _ _ _ _ Hg Hr Hstart Hd).
    exists (log_outcome (database_at_error self)), [].
    rewrite <- app_assoc. repeat split; discriminate.
Qed.

Lemma relay_failure_record_witness :
  relay_while dest_socket (select_results echo_thread)
    (reset_counters (relay_with (RecvError timed_out)))
  = (Exc timed_out, mkState [] [] [] [] 3 4,
     [Recv client_socket GET; Send dest_socket GET;
      Recv dest_socket HTTP; Send client_socket HTTP])
  /\ exists outcome_of_run rest,
      run echo_thread (session_with (RecvError timed_out))
      = (outcome_of_run, mkState [] [] [] [] 3 4,
         greeting_events x01 [x00] ++ connected_events example_request
           ++ start_record echo_thread example_request
           :: [Recv client_socket GET; Send dest_socket GET;
               Recv dest_socket HTTP; Send client_socket HTTP]
           ++ [Close dest_socket;
               LogEnd (session_id echo_thread) 0 0 "error"
                 (Some "[Errno 110] Connection timed out"%string)]
           ++ rest ++ [Close client_socket])
      /\ rest = [] /\ outcome_of_run = Ret tt.
Proof.
  split; [reflexivity | ].
  destruct (relay_failure_record echo_thread (session_with (RecvError timed_out))
              (world [Data connect_example; Data GET] [Data HTTP; RecvError timed_out])
              (relay_with (RecvError timed_out))
              (mkState [] [] [] [] 3 4)
              (greeting_events x01 [x00]) (connected_events example_request)
              [Recv client_socket GET; Send dest_socket GET;
               Recv dest_socket HTTP; Send client_socket HTTP]
              "93.184.216.34" 80 timed_out eq_refl eq_refl eq_refl eq_refl)
    as (o & rest & Hrun & Hother & _).
  exists o, rest. split; [exact Hrun | exact (Hother eq_refl)].
Defined.

(** The specification has every failure in the relay end with status
    "error" and the partial counts.  A reset by the peer after 3 and 4
    bytes ends with status "closed" and the counts 3 and 4; a timeout at
    the same point ends with status "error" and the counts 0 and 0. *)
Lemma relay_failure_record_counterexample :
  relay_while dest_socket (select_results echo_thread)
    (reset_counters (relay_with (RecvError reset_by_peer)))
  = (Exc reset_by_peer, mkState [] [] [] [] 3 4,
     [Recv client_socket GET; Send dest_socket GET;
      Recv dest_socket HTTP; Send client_socket HTTP])
  /\ filter is_log_end (events (run echo_thread (session_with (RecvError reset_by_peer))))
     = [LogEnd (session_id echo_thread) 3 4 "closed" None]
  /\ filter is_log_end (events (run echo_thread (session_with (RecvError timed_out))))
     = [LogEnd (session_id echo_thread) 0 0 "error"
          (Some "[Errno 110] Connection timed out"%string)].
Proof. repeat split; reflexivity. Qed.

(** ** Sessions that stop before the relay *)

Section EarlyExits.

Variable self : environment.

Lemma run_unsupported_header (w : state) (nmethods : byte) (methods : bytes)
    (v cmd rsv atyp : byte) (q : list arrival) (out : list write_answer) :
  delivers (client_in w) (greeting_fields nmethods methods ++ [[v; cmd; rsv; atyp]])
  = Some q ->
  well_formed_greeting nmethods methods = true ->
  v <> x05 \/ cmd <> x01 ->
  accepts (client_out w) 2 = Some out ->
  run self w
  = (Ret tt, with_client q out w,
     greeting_events nmethods methods
       ++ [Recv client_socket [v; cmd; rsv; atyp]; Send client_socket (socks_reply x05);
           Close client_socket]).
Proof.
  intros Hin Hwf Hbad Hout.
  apply delivers_app in Hin. destruct Hin as (q1 & Hing & Hinr).
  apply accepts_next in Hout. destruct Hout as (out1 & Hout1 & Hout2).
  pose proof (handle_greeting_accepted w nmethods methods q1 out1 Hing Hwf Hout1) as Hg.
  pose proof (handle_request_unsupported self (with_client q1 out1 w) v cmd rsv atyp q out
                Hinr Hbad Hout2) as Hr.
  exact (run_request_refused _ _ _ _ _ _ Hg Hr).
Qed.

Lemma run_address_type (w : state) (nmethods : byte) (methods : bytes)
    (rsv atyp : byte) (q : list arrival) (out : list write_answer) :
  delivers (client_in w) (greeting_fields nmethods methods ++ [[x05; x01; rsv; atyp]])
  = Some q ->
  well_formed_greeting nmethods methods = true ->
  atyp <> x01 -> atyp <> x03 ->
  accepts (client_out w) 2 = Some out ->
  run self w
  = (Ret tt, with_client q out w,
     greeting_events nmethods methods
       ++ [Recv client_socket [x05; x01; rsv; atyp]; Send client_socket (socks_reply x08);
           Close client_socket]).
Proof.
  intros Hin Hwf H1 H3 Hout.
  apply delivers_app in Hin. destruct Hin as (q1 & Hing & Hinr).
  apply accepts_next in Hout. destruct Hout as (out1 & Hout1 & Hout2).
  pose proof (handle_greeting_accepted w nmethods methods q1 out1 Hing Hwf Hout1) as Hg.
  pose proof (handle_request_address_type self (with_client q1 out1 w) rsv atyp q out
                Hinr H1 H3 Hout2) as Hr.
  exact (run_request_refused _ _ _ _ _ _ Hg Hr).
Qed.

Lemma run_connect_failed (w : state) (nmethods : byte) (methods : bytes)
    (r : connect_request) (q : list arrival) (out : list write_answer) (e : exn) :
  delivers (client_in w) (greeting_fields nmethods methods ++ request_fields r) = Some q ->
  well_formed_greeting nmethods methods = true ->
  well_formed_request r = true ->
  socket_result self = None ->
  connect_result self (destination_text (req_dst r)) (destination_port r) = Some e ->
  accepts (client_out w) 2 = Some out ->
  run self w
  = (Ret tt, with_client q out w,
     greeting_events nmethods methods ++ refused_events r ++ [Close client_socket]).
Proof.
  intros Hin Hwfg Hwfr Hsock Hconn Hout.
  apply delivers_app in Hin. destruct Hin as (q1 & Hing & Hinr).
  apply accepts_next in Hout. destruct Hout as (out1 & Hout1 & Hout2).
  pose proof (handle_greeting_accepted w nmethods methods q1 out1 Hing Hwfg Hout1) as Hg.
  pose proof (handle_request_connect_failed self (with_client q1 out1 w) r q out e
                Hinr Hwfr Hsock Hconn Hout2) as Hr.
  exact (run_request_refused _ _ _ _ _ _ Hg Hr).
Qed.

Lemma filter_log_handshake (tr : list event) :
  Forall (fun ev => handshake_event ev = true) tr -> filter is_log tr = [].
Proof.
  intro H. induction H as [ | ev tr Hev _ IH]; [reflexivity | ].
  cbn. rewrite (handshake_not_log ev Hev). exact IH.
Qed.

Lemma greeting_events_handshake (w w1 : state) (o : outcome bool) (t1 : list event) :
  handle_greeting w = (o, w1, t1) -> Forall (fun ev => handshake_event ev = true) t1.
Proof. intro H. pose proof (handle_greeting_events w) as He. rewrite H in He. exact He. Qed.

Lemma request_events_handshake (w w1 : state)
    (o : outcome (option (socket * string * Z))) (t1 : list event) :
  handle_request self w = (o, w1, t1) -> Forall (fun ev => handshake_event ev = true) t1.
Proof. intro H. pose proof (handle_request_events self w) as He. rewrite H in He. exact He. Qed.

End EarlyExits.

(** C4 (amended).  When the outbound connection fails and the client
    takes the replies, reply code 1 is written, the session ends, the
    destination socket is created but never connected, read or written,
    and no record reaches the log.  More generally a session that stops
    before the relay never hands over a start record; it hands over no
    record at all when the greeting is rejected or the request phase
    returns without a socket, and exactly one end record (status "error",
    counts 0 and 0, the message of the exception) when an exception
    leaves the greeting or the request phase. *)
Theorem failure_before_relay (self : environment) (w : state) (nmethods : byte)
    (methods : bytes) (r : connect_request) (q : list arrival)
    (out : list write_answer) (e : exn) :
  delivers (client_in w) (greeting_fields nmethods methods ++ request_fields r) = Some q ->
  well_formed_greeting nmethods methods = true ->
  well_formed_request r = true ->
  socket_result self = None ->
  connect_result self (destination_text (req_dst r)) (destination_port r) = Some e ->
  accepts (client_out w) 2 = Some out ->
  run self w
  = (Ret tt, with_client q out w,
     greeting_events nmethods methods ++ refused_events r ++ [Close client_socket])
  /\ filter is_log (events (run self w)) = []
  /\ filter on_destination (events (run self w)) = [Socket]
  /\ (forall w0 w1 t1,
         handle_greeting w0 = (Ret false, w1, t1) ->
         filter is_log (events (run self w0)) = [])
  /\ (forall w0 w1 w2 t1 t2,
         handle_greeting w0 = (Ret true, w1, t1) ->
         handle_request self w1 = (Ret None, w2, t2) ->
         filter is_log (events (run self w0)) = [])
  /\ (forall w0 w1 t1 e0,
         handle_greeting w0 = (Exc e0, w1, t1) ->
         filter is_log (events (run self w0))
         = [LogEnd (session_id self) 0 0 "error" (Some (str e0))])
  /\ (forall w0 w1 w2 t1 t2 e0,
         handle_greeting w0 = (Ret true, w1, t1) ->
         handle_request self w1 = (Exc e0, w2, t2) ->
         filter is_log (events (run self w0))
         = [LogEnd (session_id self) 0 0 "error" (Some (str e0))]).
Proof.
  intros Hin Hwfg Hwfr Hsock Hconn Hout.
  pose proof (run_connect_failed self w nmethods methods r q out e
                Hin Hwfg Hwfr Hsock Hconn Hout) as Hrun.
  split; [exact Hrun | ].
  assert (Hgeneral :
    forall w0 w1 w2 t1 t2,
      handle_greeting w0 = (Ret true, w1, t1) ->
      handle_request self w1 = (Ret None, w2, t2) ->
      filter is_log (events (run self w0)) = []).
  { intros w0 w1 w2 t1 t2 Hg Hr.
    rewrite (run_request_refused _ _ _ _ _ _ Hg Hr). cbn [events snd].
    rewrite !filter_app,
      (filter_log_handshake _ (greeting_events_handshake _ _ _ _ Hg)),
      (filter_log_handshake _ (request_events_handshake self _ _ _ _ Hr)).
    reflexivity. }
  split.
  { rewrite Hrun. cbn [events snd]. unfold refused_events, request_events.
    rewrite !filter_app. cbn [greeting_events filter is_log is_log_start is_log_end orb app].
    clear. induction (request_fields r) as [ | f fs IH]; [reflexivity | exact IH]. }
  split.
  { rewrite Hrun. cbn [events snd]. unfold refused_events, request_events.
    rewrite !filter_app, filter_destination_client_reads. reflexivity. }
  split.
  { intros w0 w1 t1 Hg.
    rewrite (run_greeting_rejected _ _ _ _ Hg). cbn [events snd].
    rewrite filter_app, (filter_log_handshake _ (greeting_events_handshake _ _ _ _ Hg)).
    reflexivity. }
  split; [exact Hgeneral | ].
  split.
  { intros w0 w1 t1 e0 Hg.
    rewrite (run_greeting_raised _ _ _ _ _ Hg). cbn [events snd].
    rewrite filter_app, (filter_log_handshake _ (greeting_events_handshake _ _ _ _ Hg)).
    reflexivity. }
  intros w0 w1 w2 t1 t2 e0 Hg Hr.
  rewrite (run_request_raised _ _ _ _ _ _ _ Hg Hr). cbn [events snd].
  rewrite !filter_app,
    (filter_log_handshake _ (greeting_events_handshake _ _ _ _ Hg)),
    (filter_log_handshake _ (request_events_handshake self _ _ _ _ Hr)).
  reflexivity.
Qed.

Lemma failure_before_relay_witness :
  connect_result (thread (Some refused) []) "93.184.216.34" 80 = Some refused
  /\ run (thread (Some refused) []) (session_with Eof)
     = (Ret tt, world [Data GET] [Data HTTP; Eof],
        greeting_events x01 [x00] ++ refused_events example_request
          ++ [Close client_socket])
  /\ filter is_log (events (run (thread (Some refused) []) (session_with Eof))) = [].
Proof.
  split; [reflexivity | ].
  pose proof (failure_before_relay (thread (Some refused) []) (session_with Eof)
                x01 [x00] example_request [Data GET] [] refused
                eq_refl eq_refl eq_refl eq_refl eq_refl eq_refl) as H.
  exact (conj (proj1 H) (proj1 (proj2 H))).
Defined.

Lemma failure_before_relay_counterexample :
  events (run echo_thread (world [Data [x05]; Eof] []))
  = [Recv client_socket [x05];
     LogEnd (session_id echo_thread) 0 0 "error"
       (Some "unpack requires a buffer of 2 bytes"%string);
     Close client_socket]
  /\ count is_log (events (run echo_thread (world [Data [x05]; Eof] []))) = 1%nat
  /\ count is_log_start (events (run echo_thread (world [Data [x05]; Eof] []))) = 0%nat.
Proof. repeat split; reflexivity. Qed.

(** C5.  A greeting whose version byte is not 5: the session reads the
    two bytes, writes nothing, and closes the client socket; nothing
    else is read, no destination socket exists, no record is logged. *)
Theorem bad_greeting_version (self : environment) (w : state) (v nmethods : byte)
    (q : list arrival) :
  delivers (client_in w) [[v; nmethods]] = Some q ->
  v <> x05 ->
  run self w
  = (Ret tt, with_client q (client_out w) w,
     [Recv client_socket [v; nmethods]; Close client_socket])
  /\ count is_send (events (run self w)) = 0%nat.
Proof.
  intros Hin Hv.
  pose proof (handle_greeting_rejected w v nmethods q Hin Hv) as Hg.
  rewrite (run_greeting_rejected self _ _ _ Hg). split; reflexivity.
Qed.

Lemma bad_greeting_version_witness :
  delivers (client_in (world [Data [x04; x01; x00]] [])) [[x04; x01]] = Some [Data [x00]]
  /\ run echo_thread (world [Data [x04; x01; x00]] [])
     = (Ret tt, world [Data [x00]] [],
        [Recv client_socket [x04; x01]; Close client_socket]).
Proof.
  split; [reflexivity | ].
  refine (proj1 (bad_greeting_version echo_thread (world [Data [x04; x01; x00]] [])
                   x04 x01 [Data [x00]] eq_refl _)).
  discriminate.
Defined.

(** C6.  After a well-formed greeting, a request whose command
    is not CONNECT gets the reply with code 5, and a request with
    version 5 and command CONNECT whose address type is neither 1 nor 3
    gets the reply with code 8; in both cases the session then closes
    the client socket, and no destination socket is created. *)
Theorem unsupported_request (self : environment) (w : state) (nmethods : byte)
    (methods : bytes) (v cmd rsv atyp : byte) (q : list arrival)
    (out : list write_answer) :
  delivers (client_in w) (greeting_fields nmethods methods ++ [[v; cmd; rsv; atyp]])
  = Some q ->
  well_formed_greeting nmethods methods = true ->
  accepts (client_out w) 2 = Some out ->
  (cmd <> x01 ->
   run self w
   = (Ret tt, with_client q out w,
      greeting_events nmethods methods
        ++ [Recv client_socket [v; cmd; rsv; atyp]; Send client_socket (socks_reply x05);
            Close client_socket]))
  /\ (v = x05 -> cmd = x01 -> atyp <> x01 -> atyp <> x03 ->
      run self w
      = (Ret tt, with_client q out w,
         greeting_events nmethods methods
           ++ [Recv client_socket [v; cmd; rsv; atyp];
               Send client_socket (socks_reply x08);
               Close client_socket])).
Proof.
  intros Hin Hwf Hout. split.
  - intro Hcmd.
    exact (run_unsupported_header self w nmethods methods v cmd rsv atyp q out
             Hin Hwf (or_intror Hcmd) Hout).
  - intros -> -> H1 H3.
    exact (run_address_type self w nmethods methods rsv atyp q out Hin Hwf H1 H3 Hout).
Qed.

Lemma unsupported_request_witness :
  run echo_thread (world [Data greeting_no_auth; Data [x05; x02; x00; x01]] [])
  = (Ret tt, world [] [],
     greeting_events x01 [x00]
       ++ [Recv client_socket [x05; x02; x00; x01]; Send client_socket (socks_reply x05);
           Close client_socket])
  /\ run echo_thread (world [Data greeting_no_auth; Data [x05; x01; x00; x04]] [])
     = (Ret tt, world [] [],
        greeting_events x01 [x00]
          ++ [Recv client_socket [x05; x01; x00; x04];
              Send client_socket (socks_reply x08);
              Close client_socket]).
Proof.
  split.
  - refine (proj1 (unsupported_request echo_thread
                     (world [Data greeting_no_auth; Data [x05; x02; x00; x01]] [])
                     x01 [x00] x05 x02 x00 x01 [] [] eq_refl eq_refl eq_refl) _).
    discriminate.
  - refine (proj2 (unsupported_request echo_thread
                     (world [Data greeting_no_auth; Data [x05; x01; x00; x04]] [])
                     x01 [x00] x05 x01 x00 x04 [] [] eq_refl eq_refl eq_refl)
                  eq_refl eq_refl _ _); discriminate.
Defined.

(** The command is looked at before the address type: a BIND request
    for an IPv6 address is answered with code 5. *)
Example command_is_checked_first :
  events (run echo_thread (world [Data greeting_no_auth; Data [x05; x02; x00; x04]] []))
  = greeting_events x01 [x00]
      ++ [Recv client_socket [x05; x02; x00; x04]; Send client_socket (socks_reply x05);
          Close client_socket]
  /\ count (is_reply x08)
       (events (run echo_thread
                  (world [Data greeting_no_auth; Data [x05; x02; x00; x04]] [])))
     = 0%nat.
Proof. split; reflexivity. Qed.

(** C10.  After a well-formed greeting, a request header whose version
    byte is not 5 gets the reply with code 5, whatever its command (1
    included), and the session closes the client socket without creating
    a destination socket. *)
Theorem request_version_mismatch (self : environment) (w : state) (nmethods : byte)
    (methods : bytes) (v cmd rsv atyp : byte) (q : list arrival)
    (out : list write_answer) :
  delivers (client_in w) (greeting_fields nmethods methods ++ [[v; cmd; rsv; atyp]])
  = Some q ->
  well_formed_greeting nmethods methods = true ->
  v <> x05 ->
  accepts (client_out w) 2 = Some out ->
  run self w
  = (Ret tt, with_client q out w,
     greeting_events nmethods methods
       ++ [Recv client_socket [v; cmd; rsv; atyp]; Send client_socket (socks_reply x05);
           Close client_socket])
  /\ count (is_reply x05) (events (run self w)) = 1%nat
  /\ count on_destination (events (run self w)) = 0%nat.
Proof.
  intros Hin Hwf Hv Hout.
  pose proof (run_unsupported_header self w nmethods methods v cmd rsv atyp q out
                Hin Hwf (or_introl Hv) Hout) as Hrun.
  rewrite Hrun. repeat split; reflexivity.
Qed.

Lemma request_version_mismatch_witness :
  run echo_thread (world [Data greeting_no_auth; Data [x04; x01; x00; x01]] [])
  = (Ret tt, world [] [],
     greeting_events x01 [x00]
       ++ [Recv client_socket [x04; x01; x00; x01]; Send client_socket (socks_reply x05);
           Close client_socket]).
Proof.
  refine (proj1 (request_version_mismatch echo_thread
                   (world [Data greeting_no_auth; Data [x04; x01; x00; x01]] [])
                   x01 [x00] x04 x01 x00 x01 [] [] eq_refl eq_refl _ eq_refl)).
  discriminate.
Defined.

(** ** The reply record *)

Lemma send_reply_layout (rep_code : Z) :
  In rep_code [0; 1; 5; 8] -> respects (only reply_or_no_send) (send_reply rep_code).
Proof.
  intros [<- | [<- | [<- | [<- | []]]]] w; unfold send_reply, bind;
    rewrite ?pack_reply_0, ?pack_reply_1, ?pack_reply_5, ?pack_reply_8;
    cbn [or_raise ret]; unfold sendall; cbn [outgoing];
    destruct (client_out w) as [ | [ | e | ] rest]; repeat constructor.
Qed.

Lemma send_reply_0_layout : respects (only reply_or_no_send) (send_reply 0).
Proof. apply send_reply_layout. cbn. auto. Qed.

Lemma send_reply_1_layout : respects (only reply_or_no_send) (send_reply 1).
Proof. apply send_reply_layout. cbn. auto. Qed.

Lemma send_reply_5_layout : respects (only reply_or_no_send) (send_reply 5).
Proof. apply send_reply_layout. cbn. auto. Qed.

Lemma send_reply_8_layout : respects (only reply_or_no_send) (send_reply 8).
Proof. apply send_reply_layout. cbn. auto. Qed.

#[export] Hint Resolve send_reply_0_layout send_reply_1_layout send_reply_5_layout
  send_reply_8_layout : trace.

Lemma handle_request_replies (self : environment) :
  respects (only reply_or_no_send) (handle_request self).
Proof.
  unfold handle_request, connect_destination, socket_socket, connect.
  walk.
Qed.

Lemma is_socks_reply_spec (data : bytes) :
  is_socks_reply data = true
  <-> In data [socks_reply x00; socks_reply x01; socks_reply x05; socks_reply x08].
Proof.
  split.
  - destruct data as [ | ver [ | rep [ | rsv [ | atyp [ | a0 [ | a1 [ | a2 [ | a3
        [ | p0 [ | p1 [ | extra rest]]]]]]]]]]]; try discriminate.
    cbn [is_socks_reply]. intro H.
    repeat match goal with
           | H : _ && _ = true |- _ => apply andb_prop in H; destruct H
           end.
    repeat match goal with
           | H : Byte.eqb _ _ = true |- _ => apply Byte.byte_dec_bl in H; subst
           end.
    repeat match goal with
           | H : _ || _ = true |- _ => apply orb_prop in H; destruct H
           end;
      match goal with
      | H : Byte.eqb _ _ = true |- _ => apply Byte.byte_dec_bl in H; subst
      end; cbn; auto.
  - intros [<- | [<- | [<- | [<- | []]]]]; reflexivity.
Qed.

Lemma pack_reply (rep_code : Z) (reply : bytes) :
  pack_BBBBIH SOCKS_VERSION rep_code 0 1 0 0 = Some reply ->
  reply = socks_reply (byte_of_int rep_code).
Proof.
  unfold pack_BBBBIH.
  change (pack_unsigned 1 SOCKS_VERSION) with (Some [x05]).
  change (pack_unsigned 1 0) with (Some [x00]).
  change (pack_unsigned 1 1) with (Some [x01]).
  change (pack_unsigned 4 0) with (Some [x00; x00; x00; x00]).
  change (pack_unsigned 2 0) with (Some [x00; x00]).
  unfold pack_unsigned.
  destruct ((0 <=? rep_code) && (rep_code <? 2 ^ (8 * Z.of_nat 1))); [ | discriminate].
  cbn [big_endian app Z.of_nat Z.mul]. rewrite Z.shiftr_0_r.
  intro H. inversion H. reflexivity.
Qed.

Lemma send_reply_writes (rep : byte) (w : state) :
  In rep [x00; x01; x05; x08] ->
  send_reply (int_of_byte rep) w = sendall client_socket (socks_reply rep) w.
Proof.
  intros [<- | [<- | [<- | [<- | []]]]]; unfold send_reply, bind;
    [ change (int_of_byte x00) with 0; rewrite pack_reply_0
    | change (int_of_byte x01) with 1; rewrite pack_reply_1
    | change (int_of_byte x05) with 5; rewrite pack_reply_5
    | change (int_of_byte x08) with 8; rewrite pack_reply_8 ];
    cbn [or_raise ret];
    destruct (sendall client_socket (socks_reply _) w) as [[o w1] t1]; reflexivity.
Qed.

(** C9.  [send_reply], called with one of the codes 0, 1, 5 and 8 that
    the server uses, is one write to the client of exactly ten bytes:
    VER = 5, REP the code, RSV = 0, ATYP = 1, the address 0.0.0.0 and
    the port 0; when the client socket takes the write, the ten bytes
    are written and [send_reply] returns.  Whatever the request and
    whatever becomes of it, everything that [handle_request] writes is
    such a reply.  The packing of [send_reply] gives this layout for
    every code it accepts. *)
Theorem reply_layout (self : environment) (w : state) (rep : byte)
    (out : list write_answer) :
  In rep [x00; x01; x05; x08] ->
  accepts (client_out w) 1 = Some out ->
  send_reply (int_of_byte rep) w
  = (Ret tt, with_client (client_in w) out w, [Send client_socket (socks_reply rep)])
  /\ (forall w0,
         send_reply (int_of_byte rep) w0 = sendall client_socket (socks_reply rep) w0)
  /\ socks_reply rep = [x05; rep; x00; x01; x00; x00; x00; x00; x00; x00]
  /\ (forall w0,
         Forall (fun ev => reply_or_no_send ev = true) (events (handle_request self w0)))
  /\ (forall data,
         is_socks_reply data = true
         <-> In data [socks_reply x00; socks_reply x01; socks_reply x05; socks_reply x08])
  /\ (forall rep0, List.length (socks_reply rep0) = 10%nat)
  /\ (forall rep_code reply,
         pack_BBBBIH SOCKS_VERSION rep_code 0 1 0 0 = Some reply ->
         reply = socks_reply (byte_of_int rep_code)).
Proof.
  intros Hrep Hout.
  split.
  { rewrite (send_reply_writes rep w Hrep).
    rewrite <- (with_client_same w) at 1.
    exact (sendall_with_client _ _ _ _ _ Hout). }
  split; [intro w0; exact (send_reply_writes rep w0 Hrep) | ].
  split; [reflexivity | ].
  split; [intro w0; apply handle_request_replies | ].
  split; [exact is_socks_reply_spec | ].
  split; [reflexivity | exact pack_reply].
Qed.

(** The reply to a request that cannot be served, on a socket that takes
    it. *)
Lemma reply_layout_witness :
  send_reply 5 (world [] [])
  = (Ret tt, world [] [],
     [Send client_socket [x05; x05; x00; x01; x00; x00; x00; x00; x00; x00]]).
Proof.
  exact (proj1 (reply_layout echo_thread (world [] []) x05 []
                  (or_intror (or_intror (or_introl eq_refl))) eq_refl)).
Defined.

(** ** Closing the sockets *)

(** On every way out of [relay_data] (a return from the loop, a reset
    that is caught, an exception that is raised again) the last thing
    done is closing the destination socket, and it is closed once; while
    the relay has not ended it is not closed. *)
Theorem relay_data_closes_destination (self : environment) (w : state) :
  count (is_close dest_socket) (events (relay_data self dest_socket w))
  = match result (relay_data self dest_socket w) with
    | Hang => 0%nat
    | _ => 1%nat
    end
  /\ exists rl,
      events (relay_data self dest_socket w)
      = rl ++ match result (relay_data self dest_socket w) with
              | Hang => []
              | _ => [Close dest_socket]
              end.
Proof.
  destruct (relay_data_shape self w) as (rl & Hrl & _ & Hev & _).
  split; [ | exists rl; exact Hev].
  rewrite Hev, count_app.
  rewrite (count_zero _ _ (Forall_weaken _ _ _ _ (copy_not_close dest_socket) Hrl)).
  destruct (result (relay_data self dest_socket w)); reflexivity.
Qed.

(** Every session that ends closes the client socket exactly once. *)
Theorem run_closes_client_once (self : environment) (w : state) :
  count (is_close client_socket) (events (run self w))
  = match result (run self w) with
    | Hang => 0%nat
    | _ => 1%nat
    end.
Proof.
  destruct (run_shape self w)
    as [(hs & fin & Hhs & Hrun & Hfin)
       | [(hs & w2 & a & p & e & Hhs & Hs & Hrun) | (hs & w2 & a & p & Hhs & Hs & Hrun)]].
  - rewrite Hrun, count_app.
    rewrite (count_zero _ _ (Forall_weaken _ _ _ _ (handshake_not_close client_socket) Hhs)).
    destruct Hfin as [[-> ->] | [[-> ->] | (e & -> & ->)]]; try reflexivity.
    destruct (log_outcome_cases (database_at_error self)) as [H | [e' H]];
      rewrite H; reflexivity.
  - rewrite Hrun. cbn [events result fst snd]. rewrite count_app.
    rewrite (count_zero _ _ (Forall_weaken _ _ _ _ (handshake_not_close client_socket) Hhs)).
    destruct (log_outcome_cases (database_at_error self)) as [H | [e' H]];
      rewrite H; reflexivity.
  - pose proof (relay_data_events self w2) as Hrl.
    rewrite Hrun. cbn [events result fst snd].
    rewrite count_app, count_cons, count_app.
    rewrite (count_zero _ _ (Forall_weaken _ _ _ _ (handshake_not_close client_socket) Hhs)).
    rewrite (count_zero _ _ (Forall_weaken _ _ _ _ relay_not_close_client Hrl)).
    unfold session_result, session_end, error_record.
    destruct (result (relay_data self dest_socket w2)) as [[sent received] | e | ];
      try reflexivity;
      try (destruct (log_outcome_cases (database_at_end self)) as [He | [e1 He]];
           rewrite He; try reflexivity);
      destruct (log_outcome_cases (database_at_error self)) as [H | [e' H]];
      rewrite H; reflexivity.
Qed.

(** C8, at a destination that refuses the connection: the session
    creates the destination socket, answers with reply code 1 and
    returns; the client socket is closed once and the destination socket
    is never closed. *)
Theorem refused_connection_leaves_socket_open :
  events (run (thread (Some refused) []) (session_with Eof))
  = greeting_events x01 [x00] ++ refused_events example_request ++ [Close client_socket]
  /\ In Socket (events (run (thread (Some refused) []) (session_with Eof)))
  /\ count (is_close dest_socket)
       (events (run (thread (Some refused) []) (session_with Eof))) = 0%nat
  /\ count (is_close client_socket)
       (events (run (thread (Some refused) []) (session_with Eof))) = 1%nat.
Proof.
  assert (Hev : events (run (thread (Some refused) []) (session_with Eof))
                = greeting_events x01 [x00] ++ refused_events example_request
                    ++ [Close client_socket]) by reflexivity.
  split; [exact Hev | ].
  split.
  - rewrite Hev. apply in_or_app. right. apply in_or_app. left.
    apply in_or_app. right. left. reflexivity.
  - split; reflexivity.
Qed.

(** ** Records of a session, and two scenarios *)

(** A session hands over at most one start record.  When it has, nothing
    was logged before it, and once the session has ended at least one
    end record has followed it.  A session hands over at most one end
    record of status "error", and at most one end record in all when the
    log call for the record of status "closed" returns; when that call
    raises, the record of status "error" for its exception is the
    second and last. *)
Theorem session_records (self : environment) (w : state) :
  (count is_log_start (events (run self w)) <= 1)%nat
  /\ (count is_error_end (events (run self w)) <= 1)%nat
  /\ (count is_log_end (events (run self w)) <= 2)%nat
  /\ (log_outcome (database_at_end self) = Ret tt ->
      (count is_log_end (events (run self w)) <= 1)%nat)
  /\ (count is_log_start (events (run self w)) = 1%nat ->
      exists hs start rest,
        events (run self w) = hs ++ start :: rest
        /\ is_log_start start = true
        /\ count is_log hs = 0%nat
        /\ (result (run self w) <> Hang -> (1 <= count is_log_end rest)%nat)).
Proof.
  destruct (run_shape self w)
    as [(hs & fin & Hhs & Hrun & Hfin)
       | [(hs & w2 & a & p & e & Hhs & Hs & Hrun) | (hs & w2 & a & p & Hhs & Hs & Hrun)]].
  - assert (Hstart : count is_log_start (events (run self w)) = 0%nat).
    { rewrite Hrun, count_app.
      rewrite (count_zero _ _ (Forall_weaken _ _ _ _ handshake_not_log_start Hhs)).
      destruct Hfin as [[_ ->] | [[_ ->] | (e & _ & ->)]]; reflexivity. }
    rewrite Hstart. split; [lia | ].
    rewrite Hrun, !count_app.
    rewrite (count_zero _ _ (Forall_weaken _ _ _ _ handshake_not_log_end Hhs)).
    rewrite (count_zero _ _ (Forall_weaken _ _ _ _ handshake_not_error_end Hhs)).
    destruct Hfin as [[_ ->] | [[_ ->] | (e & _ & ->)]]; cbn;
      repeat split; try lia; discriminate.
  - rewrite Hrun. cbn [events result fst snd].
    rewrite !count_app.
    rewrite (count_zero _ _ (Forall_weaken _ _ _ _ handshake_not_log_start Hhs)).
    rewrite (count_zero _ _ (Forall_weaken _ _ _ _ handshake_not_log_end Hhs)).
    rewrite (count_zero _ _ (Forall_weaken _ _ _ _ handshake_not_error_end Hhs)).
    cbn. repeat split; try lia.
    intros _.
    exists hs, (LogStart (session_id self) (client_address self) a p),
      [error_record self e; Close client_socket].
    split; [reflexivity | ]. split; [reflexivity | ].
    split; [ | intros _; cbn; lia].
    apply count_zero. eapply Forall_weaken; [exact handshake_not_log | exact Hhs].
  - pose proof (relay_data_events self w2) as Hrl.
    rewrite Hrun. cbn [events result fst snd].
    rewrite !count_app, !count_cons, !count_app.
    rewrite (count_zero _ _ (Forall_weaken _ _ _ _ handshake_not_log_start Hhs)).
    rewrite (count_zero _ _ (Forall_weaken _ _ _ _ relay_not_log_start Hrl)).
    rewrite (count_zero _ _ (session_end_no_start self _)).
    rewrite (count_zero _ _ (Forall_weaken _ _ _ _ handshake_not_log_end Hhs)).
    rewrite (count_zero _ _ (Forall_weaken _ _ _ _ relay_not_log_end Hrl)).
    rewrite (count_zero _ _ (Forall_weaken _ _ _ _ handshake_not_error_end Hhs)).
    rewrite (count_zero _ _ (Forall_weaken _ _ _ _ relay_not_error_end Hrl)).
    cbn [is_log_start is_log_end is_error_end Nat.add].
    split; [lia | ].
    assert (Hend :
      (count is_error_end (session_end self (result (relay_data self dest_socket w2)))
       <= 1)%nat
      /\ (count is_log_end (session_end self (result (relay_data self dest_socket w2)))
          <= 2)%nat
      /\ (log_outcome (database_at_end self) = Ret tt ->
          (count is_log_end (session_end self (result (relay_data self dest_socket w2)))
           <= 1)%nat)
      /\ (session_result self (result (relay_data self dest_socket w2)) <> Hang ->
          (1 <= count is_log_end
                  (session_end self (result (relay_data self dest_socket w2))))%nat)).
    { unfold session_end, session_result, error_record.
      destruct (result (relay_data self dest_socket w2)) as [[sent received] | e | ].
      - destruct (log_outcome_cases (database_at_end self)) as [He | [e1 He]];
          rewrite He; cbn; repeat split; try lia; discriminate.
      - cbn. repeat split; lia.
      - cbn. repeat split; try lia. intro H. destruct (H eq_refl). }
    destruct Hend as (Herr & Htwo & Hone & Hleast).
    split; [exact Herr | ]. split; [exact Htwo | ]. split; [exact Hone | ].
    intros _.
    exists hs, (LogStart (session_id self) (client_address self) a p),
      (events (relay_data self dest_socket w2)
         ++ session_end self (result (relay_data self dest_socket w2))).
    split; [reflexivity | ].
    split; [reflexivity | ].
    split.
    { apply count_zero. eapply Forall_weaken; [exact handshake_not_log | exact Hhs]. }
    intros Hnot. rewrite count_app.
    rewrite (count_zero _ _ (Forall_weaken _ _ _ _ relay_not_log_end Hrl)).
    exact (Hleast Hnot).
Qed.

(** Whatever methods the client offers, the greeting is answered with
    the two bytes 05 00: "no authentication" is selected. *)
Theorem greeting_selects_no_authentication (w : state) (nmethods : byte)
    (methods : bytes) (q : list arrival) (out : list write_answer) :
  delivers (client_in w) (greeting_fields nmethods methods) = Some q ->
  well_formed_greeting nmethods methods = true ->
  accepts (client_out w) 1 = Some out ->
  handle_greeting w
  = (Ret true, with_client q out w,
     [Recv client_socket [x05; nmethods]; Recv client_socket methods;
      Send client_socket [x05; x00]]).
Proof. exact (handle_greeting_accepted w nmethods methods q out). Qed.

Lemma greeting_selects_no_authentication_witness :
  handle_greeting (world [Data [x05; x02; x01; x02]] [])
  = (Ret true, world [] [],
     [Recv client_socket [x05; x02]; Recv client_socket [x01; x02];
      Send client_socket [x05; x00]]).
Proof.
  exact (greeting_selects_no_authentication (world [Data [x05; x02; x01; x02]] [])
           x02 [x01; x02] [] [] eq_refl eq_refl eq_refl).
Defined.

(** The client asks for 93.184.216.34:80 and sends three bytes, the
    destination answers with four and closes: the session ends with
    status "closed", 3 bytes sent and 4 received. *)
Example ipv4_scenario :
  run echo_thread (session_with Eof)
  = (Ret tt, mkState [] [] [Eof] [] 3 4,
     [Recv client_socket [x05; x01]; Recv client_socket [x00];
      Send client_socket [x05; x00];
      Recv client_socket [x05; x01; x00; x01];
      Recv client_socket [x5d; xb8; xd8; x22];
      Recv client_socket [x00; x50];
      Socket; Connect "93.184.216.34" 80;
      Send client_socket (socks_reply x00);
      LogStart (session_id echo_thread) (client_address echo_thread) "93.184.216.34" 80;
      Recv client_socket GET; Send dest_socket GET;
      Recv dest_socket HTTP; Send client_socket HTTP;
      Recv dest_socket []; Close dest_socket;
      LogEnd (session_id echo_thread) 3 4 "closed" None;
      Close client_socket]).
Proof. reflexivity. Qed.

(** The client asks for example.com:80 and the name does not resolve:
    the session answers with REP = 1 and ends without relay and without
    a record. *)
Example unreachable_domain_scenario :
  run (thread (Some unresolved) [])
    (world [Data greeting_no_auth; Data connect_example_com] [])
  = (Ret tt, world [] [],
     [Recv client_socket [x05; x01]; Recv client_socket [x00];
      Send client_socket [x05; x00];
      Recv client_socket [x05; x01; x00; x03];
      Recv client_socket [x0b];
      Recv client_socket example_com;
      Recv client_socket [x00; x50];
      Socket;
      Send client_socket (socks_reply x01);
      Close client_socket]).
Proof. reflexivity. Qed.

(** ** What a request phase that succeeds has read *)

(** Takes apart a sequence that returned: its first statement returned. *)
Ltac returned H Hm :=
  apply bind_inv in H;
  destruct H as [(? & ? & ? & ? & Hm & H & ->) | [(? & _ & ?) | (_ & ?)]];
  [ | exfalso; congruence | exfalso; congruence ].

Lemma or_raise_returned {A} (x : option A) (e : exn) (w w' : state) (a : A)
    (tr : list event) :
  or_raise x e w = (Ret a, w', tr) -> x = Some a /\ w' = w /\ tr = [].
Proof. destruct x; cbn; intro H; inversion H; auto. Qed.

Lemma send_reply_returned (rep_code : Z) (w w' : state) (u : unit) (tr : list event) :
  send_reply rep_code w = (Ret u, w', tr) ->
  tr = [Send client_socket (socks_reply (byte_of_int rep_code))].
Proof.
  unfold send_reply. intro H. returned H Hpack.
  apply or_raise_returned in Hpack. destruct Hpack as (Hpack & -> & ->).
  apply pack_reply in Hpack. subst. apply sendall_returned in H. subst. reflexivity.
Qed.

Lemma int_of_byte_range (b : byte) : 0 <= int_of_byte b <= 255.
Proof.
  unfold int_of_byte. pose proof (Byte.to_N_bounded b). lia.
Qed.

Lemma connect_destination_returned (self : environment) (dest_addr : string)
    (w w' : state) (r : option (socket * string * Z)) (tr : list event) :
  connect_destination self dest_addr w = (Ret r, w', tr) ->
  exists hi lo,
    r = Some (dest_socket, dest_addr, 256 * int_of_byte hi + int_of_byte lo)
    /\ tr = [Recv client_socket [hi; lo]; Socket;
             Connect dest_addr (256 * int_of_byte hi + int_of_byte lo);
             Send client_socket (socks_reply x00)].
Proof.
  unfold connect_destination. intro H.
  returned H Hrecv. apply recv_returned in Hrecv. subst.
  returned H Hport. apply or_raise_returned in Hport. destruct Hport as (Hport & -> & ->).
  returned H Hsock. returned H Hconn. returned H Hreply.
  inversion H; subst; clear H.
  apply send_reply_returned in Hreply. subst.
  unfold socket_socket in Hsock. destruct (socket_result self); [discriminate | ].
  inversion Hsock; subst; clear Hsock.
  unfold connect in Hconn.
  destruct (connect_result self dest_addr _); [discriminate | ].
  inversion Hconn; subst; clear Hconn.
  match type of Hport with
  | unpack_H ?b = _ =>
      destruct b as [ | hi [ | lo [ | extra rest]]]; try discriminate
  end.
  inversion Hport; subst. exists hi, lo. split; reflexivity.
Qed.

Lemma handle_greeting_returned (w w' : state) (greeted : bool) (tr : list event) :
  handle_greeting w = (Ret greeted, w', tr) ->
  (greeted = true
   /\ exists nmethods methods,
       tr = greeting_events nmethods methods
       /\ (List.length methods <= Z.to_nat (int_of_byte nmethods))%nat)
  \/ (greeted = false
      /\ exists v nmethods, v <> x05 /\ tr = [Recv client_socket [v; nmethods]]).
Proof.
  unfold handle_greeting. intro H.
  returned H Hrecv. apply recv_returned in Hrecv. subst.
  returned H Hunpack. apply or_raise_returned in Hunpack.
  destruct Hunpack as (Hunpack & -> & ->).
  match type of Hunpack with
  | unpack_BB ?b = _ =>
      destruct b as [ | v [ | n [ | extra rest]]]; try discriminate
  end.
  inversion Hunpack; subst; clear Hunpack.
  rewrite version_check in H.
  destruct (Byte.eqb v x05) eqn:Ev; cbn [negb] in H.
  - apply Byte.byte_dec_bl in Ev. subst v. left.
    returned H Hmethods. pose proof (recv_length _ _ _ _ _ _ Hmethods) as Hlen.
    apply recv_returned in Hmethods. subst.
    returned H Hpack. apply or_raise_returned in Hpack. destruct Hpack as (Hpack & -> & ->).
    rewrite pack_method_reply in Hpack. inversion Hpack; subst; clear Hpack.
    returned H Hsend. apply sendall_returned in Hsend. subst.
    inversion H; subst. split; [reflexivity | ].
    eexists _, _. split; [reflexivity | exact Hlen].
  - right. inversion H; subst. split; [reflexivity | ].
    exists v, n. split; [ | reflexivity].
    intros ->. discriminate.
Qed.

Lemma header_supported (v cmd : byte) :
  negb (int_of_byte v =? SOCKS_VERSION) || negb (int_of_byte cmd =? 1) = false ->
  v = x05 /\ cmd = x01.
Proof.
  change SOCKS_VERSION with (int_of_byte x05). change 1 with (int_of_byte x01).
  rewrite !int_of_byte_eqb. intro H. apply orb_false_elim in H. destruct H as [Hv Hc].
  apply negb_false_iff in Hv, Hc.
  apply Byte.byte_dec_bl in Hv, Hc. auto.
Qed.

Lemma atyp_is (atyp k : byte) : (int_of_byte atyp =? int_of_byte k) = true -> atyp = k.
Proof. rewrite int_of_byte_eqb. apply Byte.byte_dec_bl. Qed.

Lemma try_except_inv {A} (m : M A) (h : exn -> M A) (w w' : state) (o : outcome A)
    (tr : list event) :
  try_except m h w = (o, w', tr) ->
  (exists a, o = Ret a /\ m w = (Ret a, w', tr))
  \/ (o = Hang /\ m w = (Hang, w', tr))
  \/ (exists e w1 t1 t2, m w = (Exc e, w1, t1) /\ h e w1 = (o, w', t2) /\ tr = t1 ++ t2).
Proof.
  unfold try_except. destruct (m w) as [[[a | e | ] w1] t1] eqn:Em.
  - intro H. inversion H; subst. left. eauto.
  - destruct (h e w1) as [[o2 w2] t2] eqn:Eh. intro H. inversion H; subst.
    right. right. exists e, w1, t1, t2. auto.
  - intro H. inversion H; subst. right. left. auto.
Qed.

(** A request phase that returns a socket has read a CONNECT request
    field by field, has connected to the address and port that the
    request names, and has then written the reply with REP = 0. *)
Lemma handle_request_granted (self : environment) (w w' : state) (dest : socket)
    (dest_addr : string) (dest_port : Z) (tr : list event) :
  handle_request self w = (Ret (Some (dest, dest_addr, dest_port)), w', tr) ->
  exists r,
    readable_request r = true
    /\ dest = dest_socket
    /\ dest_addr = destination_text (req_dst r)
    /\ dest_port = destination_port r
    /\ tr = connected_events r.
Proof.
  unfold handle_request. intro H. apply try_except_inv in H.
  destruct H as [(r1 & Hr1 & H) | [(Hh & _) | (e & w1 & t1 & t2 & _ & Hh & _)]];
    [ | discriminate | returned Hh Hreply; inversion Hh ].
  inversion Hr1; subst r1; clear Hr1.
  returned H Hrecv. apply recv_returned in Hrecv. subst.
  returned H Hunpack. apply or_raise_returned in Hunpack.
  destruct Hunpack as (Hunpack & -> & ->).
  match type of Hunpack with
  | unpack_BBBB ?b = _ =>
      destruct b as [ | v [ | cmd [ | rsv [ | atyp [ | extra rest]]]]]; try discriminate
  end.
  inversion Hunpack; subst; clear Hunpack.
  destruct (negb (int_of_byte v =? SOCKS_VERSION) || negb (int_of_byte cmd =? 1)) eqn:Hhdr.
  { returned H Hreply. inversion H. }
  apply header_supported in Hhdr. destruct Hhdr as [-> ->].
  destruct (int_of_byte atyp =? 1) eqn:H1.
  - apply (atyp_is atyp x01) in H1. subst atyp.
    returned H Haddr. apply recv_returned in Haddr. subst.
    returned H Hntoa. apply or_raise_returned in Hntoa. destruct Hntoa as (Hntoa & -> & ->).
    match type of Hntoa with
    | inet_ntoa ?b = _ =>
        destruct b as [ | a [ | b' [ | c [ | d [ | extra rest]]]]]; try discriminate
    end.
    inversion Hntoa; subst; clear Hntoa.
    apply connect_destination_returned in H. destruct H as (hi & lo & Hr & ->).
    inversion Hr; subst; clear Hr.
    exists (mkRequest rsv (IPv4 a b' c d) hi lo). repeat split; reflexivity.
  - destruct (int_of_byte atyp =? 3) eqn:H3.
    + apply (atyp_is atyp x03) in H3. subst atyp.
      returned H Hlen. pose proof (recv_length _ _ _ _ _ _ Hlen) as Hone.
      apply recv_returned in Hlen. subst.
      returned H Hidx. apply or_raise_returned in Hidx. destruct Hidx as (Hidx & -> & ->).
      match type of Hidx with
      | option_map _ (nth_error ?b 0) = _ =>
          destruct b as [ | len [ | extra rest]]; try discriminate;
            [ | cbn in Hone; lia ]
      end.
      cbn in Hidx. inversion Hidx; subst; clear Hidx.
      returned H Hname. pose proof (recv_length _ _ _ _ _ _ Hname) as Hshort.
      apply recv_returned in Hname. subst.
      returned H Hdec. apply or_raise_returned in Hdec. destruct Hdec as (Hdec & -> & ->).
      unfold decode_utf8 in Hdec.
      match type of Hdec with
      | (if utf8_valid ?b then _ else _) = _ => destruct (utf8_valid b) eqn:Hutf
      end; [ | discriminate].
      inversion Hdec; subst; clear Hdec.
      apply connect_destination_returned in H. destruct H as (hi & lo & Hr & ->).
      inversion Hr; subst; clear Hr.
      match goal with
      | _ : utf8_valid ?name = true |- _ =>
          exists (mkRequest rsv (DomainName len name) hi lo)
      end.
      unfold readable_request. cbn [req_dst].
      apply Nat.leb_le in Hshort. rewrite Hshort, Hutf.
      repeat split; reflexivity.
    + returned H Hreply. inversion H.
Qed.

Lemma destination_port_range (r : connect_request) : 0 <= destination_port r <= 65535.
Proof.
  unfold destination_port.
  pose proof (int_of_byte_range (req_port_hi r)).
  pose proof (int_of_byte_range (req_port_lo r)). lia.
Qed.

Lemma start_absent (hs fin pre post : list event) (x : event) :
  Forall (fun ev => handshake_event ev = true) hs ->
  Forall (fun ev => is_log_start ev = false) fin ->
  hs ++ fin = pre ++ x :: post ->
  is_log_start x = true -> False.
Proof.
  intros Hhs Hfin Heq Hx.
  assert (Hall : Forall (fun ev => is_log_start ev = false) (hs ++ fin)).
  { apply Forall_app. split; [ | exact Hfin].
    eapply Forall_weaken; [exact handshake_not_log_start | exact Hhs]. }
  rewrite Heq in Hall. rewrite Forall_forall in Hall.
  rewrite (Hall x) in Hx; [discriminate | ].
  apply in_or_app. right. left. reflexivity.
Qed.

(** A session that has handed over a start record: what came before the
    record and what comes after it. *)
Lemma run_started (self : environment) (w : state) (pre post : list event)
    (start : event) :
  is_log_start start = true ->
  events (run self w) = pre ++ start :: post ->
  exists nmethods methods r w2,
    readable_request r = true
    /\ pre = greeting_events nmethods methods ++ connected_events r
    /\ start = start_record self r
    /\ (post = events (relay_data self dest_socket w2)
               ++ session_end self (result (relay_data self dest_socket w2))
        \/ exists e, post = [error_record self e; Close client_socket]).
Proof.
  intros Hstart Hev.
  destruct (handle_greeting w) as [[o1 w1] t1] eqn:Hg.
  pose proof (greeting_events_handshake _ _ _ _ Hg) as Hgh.
  destruct o1 as [[ | ] | e | ].
  - destruct (handle_request self w1) as [[o2 w2] t2] eqn:Hr.
    pose proof (request_events_handshake self _ _ _ _ Hr) as Hrh.
    assert (Hhs : Forall (fun ev => handshake_event ev = true) (t1 ++ t2))
      by (apply Forall_app; split; assumption).
    destruct o2 as [[[[dest a] p] | ] | e | ].
    + apply handle_greeting_returned in Hg as Hgi.
      destruct Hgi as [(_ & n & methods & -> & _) | (Hf & _)]; [ | discriminate].
      apply handle_request_granted in Hr as Hri.
      destruct Hri as (r & Hreadable & -> & -> & -> & ->).
      pose proof (relay_data_events self w2) as Hrl.
      destruct (log_outcome_cases (database_at_start self)) as [Hs | [e Hs]].
      * assert (Hshape :
                 events (run self w)
                 = (greeting_events n methods ++ connected_events r)
                     ++ start_record self r
                     :: events (relay_data self dest_socket w2)
                     ++ session_end self (result (relay_data self dest_socket w2))).
        { unfold start_record.
          destruct (relay_data self dest_socket w2) as [[o3 w3] t3] eqn:Hd.
          rewrite (run_relay_ended _ _ _ _ _ _ _ _ _ _ _ _ Hg Hr Hs Hd).
          cbn [events result fst snd]. rewrite <- app_assoc. reflexivity. }
        assert (Hfin : Forall (fun ev => is_log_start ev = false)
                         (session_end self (result (relay_data self dest_socket w2))))
          by (exact (session_end_no_start self _)).
        rewrite Hshape in Hev.
        apply (split_unique is_log_start) in Hev;
          [ | eapply Forall_weaken; [exact handshake_not_log_start | exact Hhs]
            | apply Forall_app; split;
              [ eapply Forall_weaken; [exact relay_not_log_start | exact Hrl]
              | exact Hfin ]
            | exact Hstart ].
        destruct Hev as (-> & -> & ->).
        exists n, methods, r, w2. auto.
      * rewrite (run_start_raised _ _ _ _ _ _ _ _ _ _ Hg Hr Hs) in Hev.
        cbn [events snd] in Hev. rewrite app_assoc in Hev.
        apply (split_unique is_log_start) in Hev;
          [ | eapply Forall_weaken; [exact handshake_not_log_start | exact Hhs]
            | repeat constructor
            | exact Hstart ].
        destruct Hev as (-> & -> & ->).
        exists n, methods, r, w2. eauto 10.
    + exfalso. rewrite (run_request_refused _ _ _ _ _ _ Hg Hr) in Hev.
      cbn [events snd] in Hev. rewrite app_assoc in Hev.
      eapply start_absent; [exact Hhs | | exact Hev | exact Hstart].
      repeat constructor.
    + exfalso. rewrite (run_request_raised _ _ _ _ _ _ _ Hg Hr) in Hev.
      cbn [events snd] in Hev. rewrite app_assoc in Hev.
      eapply start_absent; [exact Hhs | | exact Hev | exact Hstart].
      repeat constructor.
    + exfalso. rewrite (run_request_blocked _ _ _ _ _ _ Hg Hr) in Hev.
      cbn [events snd] in Hev. rewrite <- (app_nil_r (t1 ++ t2)) in Hev.
      eapply start_absent; [exact Hhs | | exact Hev | exact Hstart].
      constructor.
  - exfalso. rewrite (run_greeting_rejected _ _ _ _ Hg) in Hev.
    eapply start_absent; [exact Hgh | | exact Hev | exact Hstart]. repeat constructor.
  - exfalso. rewrite (run_greeting_raised _ _ _ _ _ Hg) in Hev.
    eapply start_absent; [exact Hgh | | exact Hev | exact Hstart]. repeat constructor.
  - exfalso. rewrite (run_greeting_blocked _ _ _ _ Hg) in Hev.
    cbn [events snd] in Hev. rewrite <- (app_nil_r t1) in Hev.
    eapply start_absent; [exact Hgh | | exact Hev | exact Hstart]. constructor.
Qed.

(** A start record is handed over only by a session that has answered a
    greeting with 05 00, has read a CONNECT request, has connected to the
    destination that the request names and has written the reply with
    REP = 0; the record carries the session's id, the client's address
    and that destination, with a port between 0 and 65535. *)
Theorem start_record_names_destination (self : environment) (w : state)
    (pre post : list event) (sid : string) (client : string * Z)
    (dest_addr : string) (dest_port : Z) :
  events (run self w) = pre ++ LogStart sid client dest_addr dest_port :: post ->
  sid = session_id self
  /\ client = client_address self
  /\ 0 <= dest_port <= 65535
  /\ exists nmethods methods r,
      readable_request r = true
      /\ pre = greeting_events nmethods methods ++ connected_events r
      /\ dest_addr = destination_text (req_dst r)
      /\ dest_port = destination_port r.
Proof.
  intro Hev.
  destruct (run_started self w pre post
              (LogStart sid client dest_addr dest_port) eq_refl Hev)
    as (nmethods & methods & r & w2 & Hreadable & Hpre & Hrec & _).
  inversion Hrec; subst.
  split; [reflexivity | ]. split; [reflexivity | ].
  split; [apply destination_port_range | ].
  exists nmethods, methods, r. auto.
Qed.

Lemma start_record_names_destination_witness :
  events (run echo_thread (session_with Eof))
  = (greeting_events x01 [x00] ++ connected_events example_request)
      ++ LogStart (session_id echo_thread) (client_address echo_thread) "93.184.216.34" 80
      :: [Recv client_socket GET; Send dest_socket GET;
          Recv dest_socket HTTP; Send client_socket HTTP;
          Recv dest_socket []; Close dest_socket;
          LogEnd (session_id echo_thread) 3 4 "closed" None; Close client_socket]
  /\ 0 <= 80 <= 65535.
Proof.
  assert (Hev : events (run echo_thread (session_with Eof))
                = (greeting_events x01 [x00] ++ connected_events example_request)
                    ++ LogStart (session_id echo_thread) (client_address echo_thread)
                         "93.184.216.34" 80
                    :: [Recv client_socket GET; Send dest_socket GET;
                        Recv dest_socket HTTP; Send client_socket HTTP;
                        Recv dest_socket []; Close dest_socket;
                        LogEnd (session_id echo_thread) 3 4 "closed" None;
                        Close client_socket])
    by reflexivity.
  split; [exact Hev | ].
  exact (proj1 (proj2 (proj2 (start_record_names_destination echo_thread
                                (session_with Eof) _ _ _ _ _ _ Hev)))).
Defined.

(** ** Every request is answered *)

Lemma writes_nothing_refl (w : state) : writes_nothing w w [].
Proof. split; [reflexivity | constructor]. Qed.

Lemma writes_nothing_trans (w1 w2 w3 : state) (t1 t2 : list event) :
  writes_nothing w1 w2 t1 -> writes_nothing w2 w3 t2 -> writes_nothing w1 w3 (t1 ++ t2).
Proof.
  intros [H1 F1] [H2 F2]. split; [congruence | ].
  apply Forall_app. split; assumption.
Qed.

Lemma recv_writes_nothing (s : socket) (n : nat) : respects writes_nothing (recv s n).
Proof.
  intro w. unfold recv.
  destruct (recv_queue n (incoming s w)) as [[data | e | ] q]; destruct s;
    split; cbn; repeat constructor.
Qed.

Lemma or_raise_writes_nothing {A} (x : option A) (e : exn) :
  respects writes_nothing (or_raise x e).
Proof. apply respects_or_raise. exact writes_nothing_refl. Qed.

Lemma socket_socket_writes_nothing (self : environment) :
  respects writes_nothing (socket_socket self).
Proof.
  intro w. unfold socket_socket. destruct (socket_result self); cbn;
    split; repeat constructor.
Qed.

Lemma connect_writes_nothing (self : environment) (dest_addr : string) (dest_port : Z) :
  respects writes_nothing (connect self dest_addr dest_port).
Proof.
  intro w. unfold connect. destruct (connect_result self dest_addr dest_port); cbn;
    split; repeat constructor.
Qed.

Lemma answers_bind {A} (m : M A) (k : A -> M (option (socket * string * Z))) :
  respects writes_nothing m -> (forall a, answers (k a)) -> answers (bind m k).
Proof.
  intros Hm Hk w Hw. specialize (Hm w). unfold bind.
  destruct (m w) as [[o w1] t1]. destruct Hm as [Hout Hsilent].
  cbn [final events fst snd] in Hout, Hsilent.
  assert (Hw1 : writable (client_out w1)) by (rewrite Hout; exact Hw).
  destruct o as [a | e | ]; [ | split; assumption | split; assumption].
  specialize (Hk a w1 Hw1). destruct (k a w1) as [[o2 w2] t2].
  cbn [result final events fst snd] in *. destruct Hk as [Hw2 Hk].
  split; [exact Hw2 | ].
  destruct o2 as [r | e | ].
  - destruct Hk as (pre & rep & -> & Hpre & Hrep).
    exists (t1 ++ pre), rep. rewrite app_assoc.
    split; [reflexivity | ]. split; [ | exact Hrep].
    apply Forall_app. split; assumption.
  - apply Forall_app. split; assumption.
  - apply Forall_app. split; assumption.
Qed.

Lemma answers_reply (rep_code : Z) (rep : byte) (r : option (socket * string * Z)) :
  pack_BBBBIH SOCKS_VERSION rep_code 0 1 0 0 = Some (socks_reply rep) ->
  match r with
  | Some _ => rep = x00
  | None => rep = x05 \/ rep = x08 \/ rep = x01
  end ->
  answers (send_reply rep_code ;; ret r).
Proof.
  intros Hpack Hrep w Hw. unfold send_reply, bind. rewrite Hpack.
  cbn [or_raise ret]. unfold sendall. cbn [outgoing].
  destruct (client_out w) as [ | [ | e | ] rest] eqn:Hout; cbn.
  - rewrite Hout. split; [constructor | ].
    exists [], rep. auto.
  - split; [inversion Hw; assumption | ].
    exists [], rep. auto.
  - inversion Hw; discriminate.
  - inversion Hw; discriminate.
Qed.

Lemma connect_destination_answers (self : environment) (dest_addr : string) :
  answers (connect_destination self dest_addr).
Proof.
  unfold connect_destination.
  apply answers_bind; [apply recv_writes_nothing | intro port_bytes].
  apply answers_bind; [apply or_raise_writes_nothing | intro dest_port].
  apply answers_bind; [apply socket_socket_writes_nothing | intro dest].
  apply answers_bind; [apply connect_writes_nothing | intros _].
  apply (answers_reply 0 x00); reflexivity.
Qed.

Lemma request_body_answers (self : environment) :
  answers
    (header <- recv client_socket 4 ;;
     '(version, cmd, _, atyp) <- or_raise (unpack_BBBB header)
             (Exception struct_error "unpack requires a buffer of 4 bytes") ;;
     if negb (version =? SOCKS_VERSION) || negb (cmd =? 1) then
       send_reply 5 ;;
       ret None
     else if atyp =? 1 then
       addr_bytes <- recv client_socket 4 ;;
       dest_addr <- or_raise (inet_ntoa addr_bytes)
             (Exception OSError "packed IP wrong length for inet_ntoa") ;;
       connect_destination self dest_addr
     else if atyp =? 3 then
       addr_len <- recv client_socket 1 ;;
       addr_len <- or_raise (option_map int_of_byte (nth_error addr_len 0))
             (Exception IndexError "index out of range") ;;
       addr_bytes <- recv client_socket (Z.to_nat addr_len) ;;
       dest_addr <- or_raise (decode_utf8 addr_bytes)
             (Exception UnicodeDecodeError "'utf-8' codec can't decode bytes") ;;
       connect_destination self dest_addr
     else
       send_reply 8 ;;
       ret None).
Proof.
  apply answers_bind; [apply recv_writes_nothing | intro header].
  apply answers_bind; [apply or_raise_writes_nothing | intros [[[version cmd] rsv] atyp]].
  destruct (negb (version =? SOCKS_VERSION) || negb (cmd =? 1)).
  { apply (answers_reply 5 x05); [reflexivity | auto]. }
  destruct (atyp =? 1).
  { apply answers_bind; [apply recv_writes_nothing | intro addr_bytes].
    apply answers_bind; [apply or_raise_writes_nothing | intro dest_addr].
    apply connect_destination_answers. }
  destruct (atyp =? 3).
  { apply answers_bind; [apply recv_writes_nothing | intro addr_len].
    apply answers_bind; [apply or_raise_writes_nothing | intro n].
    apply answers_bind; [apply recv_writes_nothing | intro addr_bytes].
    apply answers_bind; [apply or_raise_writes_nothing | intro dest_addr].
    apply connect_destination_answers. }
  apply (answers_reply 8 x08); [reflexivity | auto].
Qed.

Lemma failure_reply_written (w : state) :
  writable (client_out w) ->
  exists w',
    (send_reply 1 ;; ret (@None (socket * string * Z))) w
    = (Ret None, w', [Send client_socket (socks_reply x01)]).
Proof.
  intro Hw. unfold send_reply, bind. rewrite pack_reply_1.
  cbn [or_raise ret]. unfold sendall. cbn [outgoing].
  destruct (client_out w) as [ | [ | e | ] rest]; cbn.
  - eauto.
  - eauto.
  - inversion Hw; discriminate.
  - inversion Hw; discriminate.
Qed.

(** As long as the client socket takes what is written to it,
    [handle_request] never raises: whatever goes wrong while the request
    is read, the name decoded or the destination connected is answered
    with the reply of code 1.  When it returns it has written exactly
    one reply, as the last thing it did, with REP = 0 exactly when it
    returns a socket; while it is blocked it has written nothing. *)
Theorem request_is_always_answered (self : environment) (w : state) :
  writable (client_out w) ->
  match result (handle_request self w) with
  | Ret r =>
      exists pre rep,
        events (handle_request self w) = pre ++ [Send client_socket (socks_reply rep)]
        /\ filter is_send pre = []
        /\ match r with
           | Some _ => rep = x00
           | None => rep = x05 \/ rep = x08 \/ rep = x01
           end
  | Exc e => False
  | Hang => filter is_send (events (handle_request self w)) = []
  end.
Proof.
  intro Hw. pose proof (request_body_answers self w Hw) as Hbody.
  unfold handle_request, try_except.
  match type of Hbody with
  | context [final (?body w)] => destruct (body w) as [[o1 w1] t1]
  end.
  cbn [result final events fst snd] in Hbody. destruct Hbody as [Hw1 Hbody].
  destruct o1 as [r | e | ]; cbn [result events fst snd].
  - destruct Hbody as (pre & rep & -> & Hpre & Hrep).
    exists pre, rep. split; [reflexivity | ]. split; [ | exact Hrep].
    apply filter_none. exact Hpre.
  - destruct (failure_reply_written w1 Hw1) as (w2 & ->).
    cbn [result events fst snd].
    exists t1, x01. split; [reflexivity | ].
    split; [apply filter_none; exact Hbody | auto].
  - apply filter_none. exact Hbody.
Qed.

Lemma request_is_always_answered_witness :
  writable (client_out (world [Data [x05; x01]; Eof] []))
  /\ exists pre rep,
      events (handle_request echo_thread (world [Data [x05; x01]; Eof] []))
      = pre ++ [Send client_socket (socks_reply rep)]
      /\ filter is_send pre = []
      /\ (rep = x05 \/ rep = x08 \/ rep = x01).
Proof.
  split; [constructor | ].
  exact (request_is_always_answered echo_thread (world [Data [x05; x01]; Eof] [])
           (Forall_nil _)).
Defined.

(** ** Reads that come back short *)

Lemma unpack_BB_short (data : bytes) :
  List.length data <> 2%nat -> unpack_BB data = None.
Proof.
  destruct data as [ | a [ | b [ | c rest]]]; cbn; intro H;
    try reflexivity; contradiction.
Qed.

(** The greeting is not put together from several reads: when the first
    read returns anything but two bytes (one byte, or nothing because
    the client has closed), the session writes nothing, hands over an
    end record with status "error" and closes the client socket; what
    arrives later is not read.  The session ends as that log call does:
    it returns, unless the log call raises. *)
Theorem greeting_is_one_read (self : environment) (w : state) (data : bytes)
    (q : list arrival) :
  recv_queue 2 (client_in w) = (Ret data, q) ->
  List.length data <> 2%nat ->
  run self w
  = (log_outcome (database_at_error self), with_client q (client_out w) w,
     [Recv client_socket data;
      LogEnd (session_id self) 0 0 "error" (Some "unpack requires a buffer of 2 bytes"%string);
      Close client_socket]).
Proof.
  intros Hrecv Hlen.
  assert (Hg : handle_greeting w
               = (Exc (Exception struct_error "unpack requires a buffer of 2 bytes"),
                  with_client q (client_out w) w, [Recv client_socket data])).
  { rewrite <- (with_client_same w) at 1. unfold handle_greeting.
    go. rewrite (unpack_BB_short data Hlen). go. tidy. reflexivity. }
  exact (run_greeting_raised self _ _ _ _ Hg).
Qed.

Lemma greeting_is_one_read_witness :
  recv_queue 2 (client_in (world [Data [x05]; Data [x01; x00]] []))
  = (Ret [x05], [Data [x01; x00]])
  /\ run echo_thread (world [Data [x05]; Data [x01; x00]] [])
     = (Ret tt, world [Data [x01; x00]] [],
        [Recv client_socket [x05];
         LogEnd (session_id echo_thread) 0 0 "error"
           (Some "unpack requires a buffer of 2 bytes"%string);
         Close client_socket]).
Proof.
  split; [reflexivity | ].
  refine (greeting_is_one_read echo_thread (world [Data [x05]; Data [x01; x00]] [])
            [x05] [Data [x01; x00]] eq_refl _).
  discriminate.
Defined.

(** The method bytes are read once and not looked at: a greeting with
    version 5 is accepted and answered with 05 00 whatever that read
    returns, be it fewer bytes than the count announces or nothing at
    all. *)
Theorem methods_are_not_checked (w : state) (nmethods : byte) (data : bytes)
    (q1 q : list arrival) (out : list write_answer) :
  recv_queue 2 (client_in w) = (Ret [x05; nmethods], q1) ->
  recv_queue (Z.to_nat (int_of_byte nmethods)) q1 = (Ret data, q) ->
  accepts (client_out w) 1 = Some out ->
  handle_greeting w
  = (Ret true, with_client q out w,
     [Recv client_socket [x05; nmethods]; Recv client_socket data;
      Send client_socket [x05; x00]]).
Proof.
  intros H1 H2 Hout. rewrite <- (with_client_same w) at 1.
  unfold handle_greeting.
  go. rewrite version_ok. cbn [negb]. go. tidy. reflexivity.
Qed.

Lemma methods_are_not_checked_witness :
  handle_greeting (world [Data [x05; x03; x00]; Data [x01; x02]] [])
  = (Ret true, world [Data [x01; x02]] [],
     [Recv client_socket [x05; x03]; Recv client_socket [x00];
      Send client_socket [x05; x00]]).
Proof.
  exact (methods_are_not_checked (world [Data [x05; x03; x00]; Data [x01; x02]] [])
           x03 [x00] [Data [x00]; Data [x01; x02]] [Data [x01; x02]] [] eq_refl eq_refl eq_refl).
Defined.

Section Names.

Variable self : environment.

(** A name is used as it came: when the read of the name returns fewer
    bytes than the length byte announces, the destination is the part
    that arrived (if it decodes), and the two bytes read next are the
    port. *)
Theorem name_is_one_read (w : state) (rsv len hi lo : byte) (name : bytes)
    (q1 q2 q3 q : list arrival) (out : list write_answer) :
  recv_queue 4 (client_in w) = (Ret [x05; x01; rsv; x03], q1) ->
  recv_queue 1 q1 = (Ret [len], q2) ->
  recv_queue (Z.to_nat (int_of_byte len)) q2 = (Ret name, q3) ->
  utf8_valid name = true ->
  recv_queue 2 q3 = (Ret [hi; lo], q) ->
  socket_result self = None ->
  connect_result self (string_of_list_byte name) (256 * int_of_byte hi + int_of_byte lo)
  = None ->
  accepts (client_out w) 1 = Some out ->
  handle_request self w
  = (Ret (Some (dest_socket, string_of_list_byte name,
                256 * int_of_byte hi + int_of_byte lo)),
     with_client q out w,
     [Recv client_socket [x05; x01; rsv; x03]; Recv client_socket [len];
      Recv client_socket name; Recv client_socket [hi; lo];
      Socket;
      Connect (string_of_list_byte name) (256 * int_of_byte hi + int_of_byte lo);
      Send client_socket (socks_reply x00)]).
Proof.
  intros H1 H2 H3 Hutf H4 Hsock Hconn Hout. rewrite <- (with_client_same w) at 1.
  unfold handle_request, try_except.
  go. rewrite supported_header.
  change (int_of_byte x03 =? 1) with false. change (int_of_byte x03 =? 3) with true.
  cbv beta iota. go. unfold decode_utf8. rewrite Hutf. go.
  erewrite connect_destination_connected by eassumption.
  tidy. reflexivity.
Qed.

(** A name that is not well-formed UTF-8 is answered with the reply of
    code 1; no destination socket is created for it. *)
Theorem undecodable_name_is_refused (w : state) (rsv len : byte) (name : bytes)
    (q1 q2 q : list arrival) (out : list write_answer) :
  recv_queue 4 (client_in w) = (Ret [x05; x01; rsv; x03], q1) ->
  recv_queue 1 q1 = (Ret [len], q2) ->
  recv_queue (Z.to_nat (int_of_byte len)) q2 = (Ret name, q) ->
  utf8_valid name = false ->
  accepts (client_out w) 1 = Some out ->
  handle_request self w
  = (Ret None, with_client q out w,
     [Recv client_socket [x05; x01; rsv; x03]; Recv client_socket [len];
      Recv client_socket name; Send client_socket (socks_reply x01)]).
Proof.
  intros H1 H2 H3 Hutf Hout. rewrite <- (with_client_same w) at 1.
  unfold handle_request, try_except.
  go. rewrite supported_header.
  change (int_of_byte x03 =? 1) with false. change (int_of_byte x03 =? 3) with true.
  cbv beta iota. go. unfold decode_utf8. rewrite Hutf. go.
  unfold send_reply. go. tidy. reflexivity.
Qed.

End Names.

Lemma name_is_one_read_witness :
  handle_request echo_thread
    (world [Data [x05; x01; x00; x03; x0b]; Data [x65; x78; x61; x6d; x70];
            Data [x00; x50]] [])
  = (Ret (Some (dest_socket, "examp"%string, 80)), world [] [],
     [Recv client_socket [x05; x01; x00; x03]; Recv client_socket [x0b];
      Recv client_socket [x65; x78; x61; x6d; x70]; Recv client_socket [x00; x50];
      Socket; Connect "examp" 80; Send client_socket (socks_reply x00)]).
Proof.
  exact (name_is_one_read echo_thread
           (world [Data [x05; x01; x00; x03; x0b]; Data [x65; x78; x61; x6d; x70];
                   Data [x00; x50]] [])
           x00 x0b x00 x50 [x65; x78; x61; x6d; x70]
           [Data [x0b]; Data [x65; x78; x61; x6d; x70]; Data [x00; x50]]
           [Data [x65; x78; x61; x6d; x70]; Data [x00; x50]]
           [Data [x00; x50]] [] []
           eq_refl eq_refl eq_refl eq_refl eq_refl eq_refl eq_refl eq_refl).
Defined.

Lemma undecodable_name_is_refused_witness :
  handle_request echo_thread (world [Data [x05; x01; x00; x03; x01; xff; x00; x50]] [])
  = (Ret None, world [Data [x00; x50]] [],
     [Recv client_socket [x05; x01; x00; x03]; Recv client_socket [x01];
      Recv client_socket [xff]; Send client_socket (socks_reply x01)]).
Proof.
  exact (undecodable_name_is_refused echo_thread
           (world [Data [x05; x01; x00; x03; x01; xff; x00; x50]] [])
           x00 x01 [xff] [Data [x01; xff; x00; x50]] [Data [xff; x00; x50]]
           [Data [x00; x50]] [] eq_refl eq_refl eq_refl eq_refl eq_refl).
Defined.

(** ** The relay forwards the two streams unchanged *)

Lemma forwarded_copies (s : socket) (cs : list (socket * bytes)) :
  read_from (peer s) (copies cs) = written_to s (copies cs).
Proof.
  induction cs as [ | [s' data] cs IH]; [reflexivity | ].
  unfold copies in *. cbn [flat_map copy fst snd app read_from written_to].
  rewrite IH. destruct s, s'; reflexivity.
Qed.

Lemma copies_buffer_sized (cs : list (socket * bytes)) :
  Forall chunk_sized cs -> Forall buffer_sized (copies cs).
Proof.
  induction 1 as [ | [s data] cs Hc _ IH]; [constructor | ].
  unfold copies in *. cbn [flat_map copy fst snd app].
  constructor; [exact I | constructor; [exact Hc | exact IH]].
Qed.

Lemma relayed_by_forwarded (w w' : state) (o : outcome (option (Z * Z)))
    (tr : list event) (s : socket) :
  relayed_by w o w' tr ->
  exists lost,
    forwarded s tr lost
    /\ (List.length lost <= BUFFER_SIZE)%nat
    /\ (lost <> [] ->
        refuses (nth_error (outgoing s w) (count (sent_to s) tr)) = true).
Proof.
  intros (cs & last & -> & Hcs & _ & Hend).
  assert (Hnone : exists lost,
             forwarded s (copies cs) lost
             /\ (List.length lost <= BUFFER_SIZE)%nat
             /\ (lost <> [] ->
                 refuses (nth_error (outgoing s w) (count (sent_to s) (copies cs))) = true)).
  { exists []. unfold forwarded. rewrite forwarded_copies, app_nil_r.
    split; [reflexivity | ]. split; [cbn; lia | ]. intro H. destruct (H eq_refl). }
  assert (Hread : forall s0 data answer,
             chunk_sized (s0, data) ->
             nth_error (outgoing (peer s0) w) (count (sent_to (peer s0)) (copies cs))
             = Some answer ->
             refuses (Some answer) = true ->
             exists lost,
               forwarded s (copies cs ++ [Recv s0 data]) lost
               /\ (List.length lost <= BUFFER_SIZE)%nat
               /\ (lost <> [] ->
                   refuses (nth_error (outgoing s w)
                              (count (sent_to s) (copies cs ++ [Recv s0 data]))) = true)).
  { intros s0 data answer Hd Hn Hrefuses.
    assert (Hcount : count (sent_to s) (copies cs ++ [Recv s0 data])
                     = count (sent_to s) (copies cs))
      by (rewrite count_app; cbn; lia).
    rewrite Hcount. unfold forwarded. rewrite read_from_app, forwarded_copies.
    cbn [read_from]. rewrite written_to_app. cbn [written_to]. rewrite !app_nil_r.
    destruct (sock_is s0 (peer s)) eqn:E.
    - exists data. split; [reflexivity | ]. split; [exact (proj2 Hd) | ].
      intros _.
      assert (Hs : s = peer s0) by (destruct s, s0; try discriminate; reflexivity).
      subst s. rewrite Hn. exact Hrefuses.
    - exists []. rewrite app_nil_r. split; [reflexivity | ]. split; [cbn; lia | ].
      intro H. destruct (H eq_refl). }
  destruct o as [[[sent received] | ] | e | ].
  - destruct Hend as [[s0 ->] _]. destruct Hnone as (lost & Hf & Hl & Hr).
    exists lost. split.
    + unfold forwarded in *. rewrite read_from_app, written_to_app, Hf. cbn.
      destruct (sock_is s0 (peer s)); rewrite !app_nil_r; reflexivity.
    + split; [exact Hl | ]. rewrite count_app. cbn. rewrite Nat.add_0_r. exact Hr.
  - destruct Hend as [-> _]. rewrite app_nil_r. exact Hnone.
  - destruct Hend as [-> | (s0 & data & -> & Hd & Hn)].
    + rewrite app_nil_r. exact Hnone.
    + exact (Hread s0 data (WriteError e) Hd Hn eq_refl).
  - destruct Hend as [-> | (s0 & data & -> & Hd & Hn)].
    + rewrite app_nil_r. exact Hnone.
    + exact (Hread s0 data WriteBlocks Hd Hn eq_refl).
Qed.

Lemma relayed_by_buffer_sized (w w' : state) (o : outcome (option (Z * Z)))
    (tr : list event) :
  relayed_by w o w' tr -> Forall buffer_sized tr.
Proof.
  intro H. apply relayed_by_last in H.
  destruct H as (cs & last & -> & Hcs & _ & Hlast).
  apply Forall_app. split; [exact (copies_buffer_sized cs Hcs) | ].
  destruct Hlast as [-> | (s & data & -> & _)]; repeat constructor.
Qed.

Lemma forwarded_close (s dest : socket) (tr : list event) (lost : bytes) :
  forwarded s tr lost -> forwarded s (tr ++ [Close dest]) lost.
Proof.
  unfold forwarded. intro H.
  rewrite read_from_app, written_to_app, H. cbn. rewrite !app_nil_r. reflexivity.
Qed.

Lemma relay_data_forwards (self : environment) (w : state) :
  Forall buffer_sized (events (relay_data self dest_socket w))
  /\ forall s, exists lost,
       forwarded s (events (relay_data self dest_socket w)) lost
       /\ (List.length lost <= BUFFER_SIZE)%nat
       /\ (lost <> [] ->
           refuses (nth_error (outgoing s w)
                      (count (sent_to s) (events (relay_data self dest_socket w))))
           = true).
Proof.
  destruct (relay_data_relayed_by self w) as (o & w1 & t1 & Hrel & ->).
  cbn [events snd].
  assert (Hclosing : match o with Hang => [] | _ => [Close dest_socket] end = []
                     \/ match o with Hang => [] | _ => [Close dest_socket] end
                        = [Close dest_socket])
    by (destruct o; auto).
  split.
  - apply Forall_app. split; [exact (relayed_by_buffer_sized _ _ _ _ Hrel) | ].
    destruct Hclosing as [-> | ->]; repeat constructor.
  - intro s. destruct (relayed_by_forwarded _ _ _ _ s Hrel) as (lost & Hf & Hl & Hr).
    exists lost. destruct Hclosing as [-> | ->].
    + rewrite app_nil_r. split; [exact Hf | ]. split; [exact Hl | ].
      intro H. specialize (Hr H). destruct s; exact Hr.
    + split; [exact (forwarded_close s dest_socket t1 lost Hf) | ].
      split; [exact Hl | ].
      intro H. specialize (Hr H). rewrite count_app. cbn. rewrite Nat.add_0_r.
      destruct s; exact Hr.
Qed.

(** The relay alters nothing and loses nothing on the way: at every
    moment, the bytes written to a socket are the bytes read from the
    other socket, in the order read, short of the last read at most (one
    buffer's worth).  Something is missing only when the write of that
    last chunk, the one that comes after the writes made on the socket,
    failed or never returned. *)
Theorem relay_forwards_streams (self : environment) (w : state) (s : socket) :
  exists lost,
    read_from (peer s) (events (relay_data self dest_socket w))
    = written_to s (events (relay_data self dest_socket w)) ++ lost
    /\ (List.length lost <= BUFFER_SIZE)%nat
    /\ (lost <> [] ->
        refuses (nth_error (outgoing s w)
                   (count (sent_to s) (events (relay_data self dest_socket w))))
        = true).
Proof. exact (proj2 (relay_data_forwards self w) s). Qed.

(** The destination stops reading: the three bytes that were read from
    the client stay unwritten, and the relay never returns. *)
Lemma relay_forwards_streams_witness :
  relay_data echo_thread dest_socket (mkState [Data GET] [] [] [WriteBlocks] 0 0)
  = (Hang, mkState [] [] [] [] 0 0, [Recv client_socket GET])
  /\ exists lost,
      GET = lost
      /\ (List.length lost <= BUFFER_SIZE)%nat
      /\ (lost <> [] -> refuses (Some WriteBlocks) = true).
Proof.
  split; [reflexivity | ].
  exact (relay_forwards_streams echo_thread
           (mkState [Data GET] [] [] [WriteBlocks] 0 0) dest_socket).
Defined.

(** Every write of the relay carries at least one byte and at most
    [BUFFER_SIZE] bytes. *)
Theorem relay_writes_are_buffer_sized (self : environment) (w : state) :
  Forall buffer_sized (events (relay_data self dest_socket w)).
Proof. exact (proj1 (relay_data_forwards self w)). Qed.

(** ** What each side is sent in a session *)

Lemma reads_write_nothing (s : socket) (fields : list bytes) :
  written_to s (map (Recv client_socket) fields) = [].
Proof. induction fields as [ | f fields IH]; [reflexivity | exact IH]. Qed.

Lemma client_reads_spare_destination (fields : list bytes) :
  read_from dest_socket (map (Recv client_socket) fields) = [].
Proof. induction fields as [ | f fields IH]; [reflexivity | exact IH]. Qed.

Lemma forwarded_session_end (self : environment) (o : outcome (Z * Z)) (s : socket)
    (tr : list event) (lost : bytes) :
  forwarded s tr lost -> forwarded s (tr ++ session_end self o) lost.
Proof.
  unfold forwarded. intro H. rewrite read_from_app, written_to_app, H.
  unfold session_end, error_record.
  destruct o as [[sent received] | e | ]; try destruct (log_outcome _);
    cbn; rewrite ?app_nil_r; reflexivity.
Qed.

(** In a session that reaches the relay, the client is sent the method
    reply and the reply with REP = 0 and the destination is sent nothing
    up to the start record, and nothing has been read from it; from the
    start record on, each side is sent the bytes read from the other
    side, in the order read, short of the last read at most. *)
Theorem session_streams (self : environment) (w : state) (pre post : list event)
    (start : event) :
  is_log_start start = true ->
  events (run self w) = pre ++ start :: post ->
  written_to client_socket pre = method_reply ++ socks_reply x00
  /\ written_to dest_socket pre = []
  /\ read_from dest_socket pre = []
  /\ forall s, exists lost,
       read_from (peer s) post = written_to s post ++ lost
       /\ (List.length lost <= BUFFER_SIZE)%nat.
Proof.
  intros Hstart Hev.
  destruct (run_started self w pre post start Hstart Hev)
    as (nmethods & methods & r & w2 & _ & -> & _ & Hpost).
  unfold greeting_events, connected_events, request_events.
  rewrite !written_to_app, !read_from_app.
  rewrite !reads_write_nothing, client_reads_spare_destination.
  repeat split.
  intro s. destruct Hpost as [-> | [e ->]].
  - destruct (proj2 (relay_data_forwards self w2) s) as (lost & Hf & Hl & _).
    exists lost. split; [ | exact Hl].
    exact (forwarded_session_end self _ s _ lost Hf).
  - exists []. split; [reflexivity | cbn; lia].
Qed.

Lemma session_streams_witness :
  events (run echo_thread (session_with Eof))
  = (greeting_events x01 [x00] ++ connected_events example_request)
      ++ LogStart (session_id echo_thread) (client_address echo_thread) "93.184.216.34" 80
      :: [Recv client_socket GET; Send dest_socket GET;
          Recv dest_socket HTTP; Send client_socket HTTP;
          Recv dest_socket []; Close dest_socket;
          LogEnd (session_id echo_thread) 3 4 "closed" None; Close client_socket]
  /\ written_to client_socket (greeting_events x01 [x00] ++ connected_events example_request)
     = method_reply ++ socks_reply x00.
Proof.
  assert (Hev : events (run echo_thread (session_with Eof))
                = (greeting_events x01 [x00] ++ connected_events example_request)
                    ++ LogStart (session_id echo_thread) (client_address echo_thread)
                         "93.184.216.34" 80
                    :: [Recv client_socket GET; Send dest_socket GET;
                        Recv dest_socket HTTP; Send client_socket HTTP;
                        Recv dest_socket []; Close dest_socket;
                        LogEnd (session_id echo_thread) 3 4 "closed" None;
                        Close client_socket])
    by reflexivity.
  split; [exact Hev | ].
  exact (proj1 (session_streams echo_thread (session_with Eof) _ _
                  (LogStart (session_id echo_thread) (client_address echo_thread)
                     "93.184.216.34" 80) eq_refl Hev)).
Defined.

(** ** The listener *)

Lemma truthy_set (v : option string) :
  truthy v = true <-> exists s, v = Some s /\ s <> EmptyString.
Proof.
  destruct v as [[ | c s] | ]; cbn; split; try discriminate.
  - intros (s & H & Hs). inversion H. subst. contradiction.
  - intros _. eexists. split; [reflexivity | discriminate].
  - reflexivity.
  - intros (s & H & _). discriminate.
Qed.

Lemma configured_check (h : Listener.host) :
  forallb truthy (map (Listener.environ h) ["DB_NAME"; "DB_USER"; "DB_PASSWORD"]%string)
  = true
  <-> Listener.configured h.
Proof.
  unfold Listener.configured. rewrite forallb_forall. split.
  - intros H k Hk. apply truthy_set, H, in_map, Hk.
  - intros H v Hv. apply in_map_iff in Hv. destruct Hv as (k & <- & Hk).
    apply truthy_set, H, Hk.
Qed.

Lemma calls_bind_ret {E A B} (a : A) (t1 : list E) (k : A -> Calls.t E B) :
  Calls.bind (Ret a, t1) k = (fst (k a), t1 ++ snd (k a)).
Proof. unfold Calls.bind. destruct (k a). reflexivity. Qed.

Lemma calls_bind_exc {E A B} (e : exn) (t1 : list E) (k : A -> Calls.t E B) :
  Calls.bind (Exc e, t1) k = (Exc e, t1).
Proof. reflexivity. Qed.

Lemma main_configured (h : Listener.host) :
  Listener.configured h ->
  Listener.main h
  = (Calls.call (Listener.socket_result h) Listener.ServerSocket ;;
     Calls.call (Listener.setsockopt_result h) Listener.SetReuseAddr ;;
     Calls.call (Listener.bind_result h) (Listener.Bind Listener.HOST Listener.PORT) ;;
     Calls.call (Listener.listen_result h) (Listener.Listen 10) ;;
     Listener.accept_loop (Listener.accept_results h) ;;
     Calls.call None Listener.CloseServer)%calls.
Proof.
  intro H. apply configured_check in H. unfold Listener.main. rewrite H. reflexivity.
Qed.

(** Without its three settings the server does not start: [main]
    returns at once, without a single call, exactly when one of DB_NAME,
    DB_USER and DB_PASSWORD is not set or is set to the empty string. *)
Theorem main_requires_database_settings (h : Listener.host) :
  Listener.main h = (Ret tt, []) <-> ~ Listener.configured h.
Proof.
  split.
  - intros Hmain Hconf. rewrite (main_configured h Hconf) in Hmain.
    unfold Calls.call at 1 in Hmain.
    destruct (Listener.socket_result h) as [e | ].
    + rewrite calls_bind_exc in Hmain. discriminate.
    + rewrite calls_bind_ret in Hmain. discriminate.
  - intro Hnot. unfold Listener.main.
    destruct (forallb truthy _) eqn:E; [ | reflexivity].
    elim Hnot. apply configured_check, E.
Qed.

Lemma accept_loop_until_interrupt (before after : list Listener.accept_result) :
  Forall (fun answer => Listener.is_interrupt answer = false) before ->
  Listener.accept_loop (before ++ Listener.KeyboardInterrupt :: after)
  = (Ret tt, flat_map Listener.served before).
Proof.
  induction 1 as [ | answer before Hanswer _ IH]; [reflexivity | ].
  cbn [app Listener.accept_loop flat_map].
  destruct answer as [client_address session_id [e | ] | | e];
    try discriminate; rewrite IH; reflexivity.
Qed.

Lemma accept_loop_never_raises (answers : list Listener.accept_result) (e : exn) :
  fst (Listener.accept_loop answers) <> Exc e.
Proof.
  induction answers as [ | answer later IH]; [discriminate | ].
  cbn [Listener.accept_loop].
  destruct answer as [client_address session_id [e' | ] | | e'];
    try discriminate; try exact IH;
    cbn; destruct (Listener.accept_loop later) as [o tr]; exact IH.
Qed.

Lemma accept_loop_leaves_open (answers : list Listener.accept_result) :
  ~ In Listener.CloseServer (snd (Listener.accept_loop answers)).
Proof.
  induction answers as [ | answer later IH]; [intros [] | ].
  cbn [Listener.accept_loop].
  destruct answer as [client_address session_id [e' | ] | | e'];
    try exact IH; try (intros []);
    cbn; destruct (Listener.accept_loop later) as [o tr]; cbn in *;
    intros [H | H]; try discriminate; try (destruct H as [H | H]; try discriminate);
    exact (IH H).
Qed.

Lemma served_accepts (before : list Listener.accept_result)
    (client_address : string * Z) (session_id : string) (start_result : option exn) :
  In (Listener.Connection client_address session_id start_result) before ->
  In (Listener.Accept client_address) (flat_map Listener.served before).
Proof.
  intro H. apply in_flat_map. eexists. split; [exact H | ].
  destruct start_result; left; reflexivity.
Qed.

Lemma served_starts (before : list Listener.accept_result)
    (client_address : string * Z) (session_id : string) :
  In (Listener.Start client_address session_id) (flat_map Listener.served before)
  <-> In (Listener.Connection client_address session_id None) before.
Proof.
  rewrite in_flat_map. split.
  - intros ([a sid [e | ] | | e] & Hin & H); cbn in H.
    + destruct H as [H | []]. discriminate.
    + destruct H as [H | [H | []]]; [discriminate | ]. inversion H. subst. exact Hin.
    + destruct H.
    + destruct H.
  - intro H. eexists. split; [exact H | ]. right. left. reflexivity.
Qed.

(** Failures of [accept] and of starting a thread are not fatal.  Up to
    the first Ctrl-C every connection that [accept] returns is accepted,
    in the order of arrival and whatever failed in between.  It is given
    a thread, with the address of that connection, exactly when
    [start()] returns: a connection whose thread cannot be started is
    left without one, and the loop goes on.  Ctrl-C ends the loop, the
    server socket is closed, and [main] returns.  What would have
    arrived later is not accepted. *)
Theorem main_serves_until_interrupted (h : Listener.host)
    (before after : list Listener.accept_result) :
  Listener.configured h ->
  Listener.socket_result h = None ->
  Listener.setsockopt_result h = None ->
  Listener.bind_result h = None ->
  Listener.listen_result h = None ->
  Listener.accept_results h = before ++ Listener.KeyboardInterrupt :: after ->
  Forall (fun answer => Listener.is_interrupt answer = false) before ->
  Listener.main h
  = (Ret tt,
     [Listener.ServerSocket; Listener.SetReuseAddr;
      Listener.Bind "127.0.0.1" 1080; Listener.Listen 10]
       ++ flat_map Listener.served before ++ [Listener.CloseServer])
  /\ (forall client_address session_id start_result,
         In (Listener.Connection client_address session_id start_result) before ->
         In (Listener.Accept client_address) (snd (Listener.main h)))
  /\ (forall client_address session_id,
         In (Listener.Start client_address session_id) (snd (Listener.main h))
         <-> In (Listener.Connection client_address session_id None) before).
Proof.
  intros Hconf Hs Ho Hb Hl Ha Hbefore.
  assert (Hmain :
    Listener.main h
    = (Ret tt,
       [Listener.ServerSocket; Listener.SetReuseAddr;
        Listener.Bind "127.0.0.1" 1080; Listener.Listen 10]
         ++ flat_map Listener.served before ++ [Listener.CloseServer])).
  { rewrite (main_configured h Hconf), Hs, Ho, Hb, Hl, Ha.
    rewrite (accept_loop_until_interrupt before after Hbefore).
    reflexivity. }
  split; [exact Hmain | ]. rewrite Hmain. cbn [snd]. split.
  - intros a sid st Hin. apply in_or_app. right. apply in_or_app. left.
    exact (served_accepts before a sid st Hin).
  - intros a sid. rewrite <- served_starts. split.
    + intro H. apply in_app_or in H.
      destruct H as [H | H];
        [repeat (destruct H as [H | H]; try discriminate); destruct H | ].
      apply in_app_or in H. destruct H as [H | [H | []]]; [exact H | discriminate].
    + intro H. apply in_or_app. right. apply in_or_app. left. exact H.
Qed.

Lemma settings_configured (h : Listener.host) :
  Listener.environ h = settings -> Listener.configured h.
Proof.
  intros E k [<- | [<- | [<- | []]]]; rewrite E; cbn; eexists;
    (split; [reflexivity | discriminate]).
Qed.

(** Two clients are served, a failed [accept] in between; the thread of
    a third cannot be started; then Ctrl-C. *)
Lemma main_serves_until_interrupted_witness :
  Listener.main loaded_host
  = (Ret tt,
     [Listener.ServerSocket; Listener.SetReuseAddr;
      Listener.Bind "127.0.0.1" 1080; Listener.Listen 10;
      Listener.Accept ("127.0.0.1"%string, 50314);
      Listener.Start ("127.0.0.1"%string, 50314) "0b9d7c46-5c1e-4a57-8d38-6f0d2a4e9b11";
      Listener.Accept ("127.0.0.1"%string, 50316);
      Listener.Start ("127.0.0.1"%string, 50316) "5f0c2b1e-93a4-4c0d-b6a1-2e8f4d7c1a55";
      Listener.Accept ("127.0.0.1"%string, 50318);
      Listener.CloseServer]).
Proof.
  refine (proj1 (main_serves_until_interrupted loaded_host
                   (arrivals
                      ++ [Listener.Connection ("127.0.0.1"%string, 50318)
                            "c1d2e3f4-0a1b-4c2d-8e3f-9a0b1c2d3e4f" (Some cannot_start)])
                   []
                   (settings_configured loaded_host eq_refl)
                   eq_refl eq_refl eq_refl eq_refl eq_refl _)).
  repeat constructor.
Defined.

(** Only the start-up can make [main] raise: the exception then is the
    one of [socket], [setsockopt], [bind] or [listen], no connection has
    been accepted, and the server socket, if it was created, is left
    open.  Nothing that happens once the socket listens is fatal. *)
Theorem main_raises_only_at_startup (h : Listener.host) (e : exn) :
  fst (Listener.main h) = Exc e ->
  In (Some e) [Listener.socket_result h; Listener.setsockopt_result h;
               Listener.bind_result h; Listener.listen_result h]
  /\ Forall (fun ev => Listener.after_listen ev = false) (snd (Listener.main h)).
Proof.
  unfold Listener.main.
  destruct (forallb truthy _); [ | discriminate]. cbn [negb].
  destruct (Listener.socket_result h) as [e1 | ];
    [cbn; intro H; inversion H; auto | ].
  destruct (Listener.setsockopt_result h) as [e2 | ];
    [cbn; intro H; inversion H; split; [auto | repeat constructor] | ].
  destruct (Listener.bind_result h) as [e3 | ];
    [cbn; intro H; inversion H; split; [auto | repeat constructor] | ].
  destruct (Listener.listen_result h) as [e4 | ];
    [cbn; intro H; inversion H; split; [auto 6 | repeat constructor] | ].
  pose proof (accept_loop_never_raises (Listener.accept_results h) e) as Hloop.
  cbn. destruct (Listener.accept_loop (Listener.accept_results h)) as [[[] | e5 | ] tr];
    cbn in *; intro H; try discriminate.
  inversion H; subst. contradiction.
Qed.

Lemma main_raises_only_at_startup_witness :
  fst (Listener.main busy_host) = Exc address_in_use
  /\ snd (Listener.main busy_host) = [Listener.ServerSocket; Listener.SetReuseAddr]
  /\ Forall (fun ev => Listener.after_listen ev = false) (snd (Listener.main busy_host)).
Proof.
  split; [reflexivity | ]. split; [reflexivity | ].
  exact (proj2 (main_raises_only_at_startup busy_host address_in_use eq_refl)).
Defined.

(** ** The session log in the database *)

Lemma log_call_outcome (db : Database.database) (query : Database.statement)
    (vars : list Database.value) :
  match Database.connect_answer db with
  | Database.Connected =>
      Database.released
        (c <- Database.get_db_connection db ;;
         match c with
         | None => Calls.ret tt
         | Some _ =>
             Calls.try_finally
               (Calls.try_except
                  (Database.with_cursor db query vars ;;
                   Calls.call (Database.commit_result db) Database.Commit)
                  (fun e => Calls.ret tt))
               (Calls.call None Database.Close)
         end)%calls
  | Database.OperationalError _ =>
      (c <- Database.get_db_connection db ;;
       match c with
       | None => Calls.ret tt
       | Some _ =>
           Calls.try_finally
             (Calls.try_except
                (Database.with_cursor db query vars ;;
                 Calls.call (Database.commit_result db) Database.Commit)
                (fun e => Calls.ret tt))
             (Calls.call None Database.Close)
       end)%calls = (Ret tt, [])
  | Database.ConnectError e =>
      (c <- Database.get_db_connection db ;;
       match c with
       | None => Calls.ret tt
       | Some _ =>
           Calls.try_finally
             (Calls.try_except
                (Database.with_cursor db query vars ;;
                 Calls.call (Database.commit_result db) Database.Commit)
                (fun e => Calls.ret tt))
             (Calls.call None Database.Close)
       end)%calls = (Exc e, [])
  end.
Proof.
  unfold Database.get_db_connection, Database.with_cursor, Database.released.
  destruct (Database.connect_answer db) as [ | message | e]; [ | reflexivity | reflexivity].
  destruct (Database.cursor_result db) as [e1 | ];
    [ | destruct (Database.execute_result db) as [e2 | ];
        [ | destruct (Database.commit_result db) as [e3 | ] ] ];
    cbn; (split; [reflexivity | ]); do 5 eexists;
    [ exists [] | exists [Database.Cursor; Database.CloseCursor]
    | exists [Database.Cursor; Database.Execute query vars; Database.CloseCursor]
    | exists [Database.Cursor; Database.Execute query vars; Database.CloseCursor;
              Database.Commit] ];
    (split; [reflexivity | repeat constructor]).
Qed.

(** The two log functions tolerate a database that fails.  When the
    connection cannot be opened ([OperationalError]) they do nothing and
    return; once it is open they return normally whatever the cursor,
    the statement or the commit does, and their last call closes the
    connection, which is neither opened nor closed a second time.  Only
    another failure of [psycopg2.connect] escapes. *)
Theorem log_calls_release_the_connection (db : Database.database)
    (session_id : string) (client_addr : string * Z) (dest_addr : string) (dest_port : Z)
    (bytes_sent bytes_received : Z) (status : string) (error_message : option string) :
  match Database.connect_answer db with
  | Database.Connected =>
      Database.released
        (Database.db_log_start db session_id client_addr dest_addr dest_port)
      /\ Database.released
           (Database.db_log_end db session_id bytes_sent bytes_received status
              error_message)
  | Database.OperationalError _ =>
      Database.db_log_start db session_id client_addr dest_addr dest_port = (Ret tt, [])
      /\ Database.db_log_end db session_id bytes_sent bytes_received status error_message
         = (Ret tt, [])
  | Database.ConnectError e =>
      Database.db_log_start db session_id client_addr dest_addr dest_port = (Exc e, [])
      /\ Database.db_log_end db session_id bytes_sent bytes_received status error_message
         = (Exc e, [])
  end.
Proof.
  pose proof (log_call_outcome db Database.sql
                [Database.Text session_id;
                 Database.Text (fst client_addr ++ ":" ++ Database.str_int (snd client_addr));
                 Database.Text dest_addr; Database.Integer dest_port]) as Hstart.
  pose proof (log_call_outcome db Database.sql_update
                [Database.Integer bytes_sent; Database.Integer bytes_received;
                 Database.Text status; Database.optional_text error_message;
                 Database.Integer bytes_sent; Database.Integer bytes_received;
                 Database.Text session_id]) as Hend.
  unfold Database.db_log_start, Database.db_log_end.
  destruct (Database.connect_answer db); split; assumption.
Qed.

(** A record is committed only whole: when [db_log_start] commits, it
    has executed its statement with the session id, the client's address
    as ip:port, the destination address and the port, in a cursor that
    it has closed, and nothing else; when [db_log_end] commits, it has
    executed the update with the two counts, the status, the message (or
    NULL), the two counts again and the session id. *)
Theorem commit_follows_the_statement (db : Database.database)
    (session_id : string) (client_addr : string * Z) (dest_addr : string) (dest_port : Z)
    (bytes_sent bytes_received : Z) (status : string) (error_message : option string) :
  (In Database.Commit
      (snd (Database.db_log_start db session_id client_addr dest_addr dest_port)) ->
   exists dbname user password host port,
     snd (Database.db_log_start db session_id client_addr dest_addr dest_port)
     = [Database.Connect dbname user password host port; Database.Cursor;
        Database.Execute Database.sql
          [Database.Text session_id;
           Database.Text (fst client_addr ++ ":" ++ Database.str_int (snd client_addr));
           Database.Text dest_addr; Database.Integer dest_port];
        Database.CloseCursor; Database.Commit; Database.Close])
  /\ (In Database.Commit
        (snd (Database.db_log_end db session_id bytes_sent bytes_received status
                error_message)) ->
      exists dbname user password host port,
        snd (Database.db_log_end db session_id bytes_sent bytes_received status
               error_message)
        = [Database.Connect dbname user password host port; Database.Cursor;
           Database.Execute Database.sql_update
             [Database.Integer bytes_sent; Database.Integer bytes_received;
              Database.Text status; Database.optional_text error_message;
              Database.Integer bytes_sent; Database.Integer bytes_received;
              Database.Text session_id];
           Database.CloseCursor; Database.Commit; Database.Close]).
Proof.
  unfold Database.db_log_start, Database.db_log_end, Database.get_db_connection,
    Database.with_cursor.
  destruct (Database.connect_answer db) as [ | message | e];
    [ | split; intros [] | split; intros [] ].
  destruct (Database.cursor_result db) as [e1 | ];
    [ | destruct (Database.execute_result db) as [e2 | ];
        [ | destruct (Database.commit_result db) as [e3 | ] ] ];
    cbn; split; intro H;
    repeat (destruct H as [H | H]; try discriminate); try contradiction;
    do 5 eexists; reflexivity.
Qed.

Lemma commit_follows_the_statement_witness :
  In Database.Commit
    (snd (Database.db_log_start reachable "0b9d7c46-5c1e-4a57-8d38-6f0d2a4e9b11"
            ("127.0.0.1"%string, 50314) "93.184.216.34" 80))
  /\ exists dbname user password host port,
      snd (Database.db_log_start reachable "0b9d7c46-5c1e-4a57-8d38-6f0d2a4e9b11"
             ("127.0.0.1"%string, 50314) "93.184.216.34" 80)
      = [Database.Connect dbname user password host port; Database.Cursor;
         Database.Execute Database.sql
           [Database.Text "0b9d7c46-5c1e-4a57-8d38-6f0d2a4e9b11";
            Database.Text "127.0.0.1:50314";
            Database.Text "93.184.216.34"; Database.Integer 80];
         Database.CloseCursor; Database.Commit; Database.Close].
Proof.
  assert (H : In Database.Commit
                (snd (Database.db_log_start reachable
                        "0b9d7c46-5c1e-4a57-8d38-6f0d2a4e9b11"
                        ("127.0.0.1"%string, 50314) "93.184.216.34" 80)))
    by (right; right; right; right; left; reflexivity).
  split; [exact H | ].
  exact (proj1 (commit_follows_the_statement reachable
                  "0b9d7c46-5c1e-4a57-8d38-6f0d2a4e9b11"
                  ("127.0.0.1"%string, 50314) "93.184.216.34" 80 0 0 "closed" None) H).
Defined.
